(** * lm-api-tool: the PE fund matcher

    A shallow embedding of the deterministic scoring and shortlisting code of
    [llm_pe_matcher/tools.py] ([query_pe_db], with its local functions
    [_range_coverage] and [score_with_breakdown]) and of
    [llm_pe_matcher/matcher.py] ([shortlist_pe_funds]); of the page fetching
    of [tools.py] ([_clean_text], [fetch_url]); of the offline path of
    [llm_pe_matcher/agent.py] ([run_agent] without an API key,
    [_offline_extract_profile], [_first_sentence_with]); and of the deal-type
    bullet of the dashboard ([_deal_match_nuance] in [streamlit_app.py]).

    Modelling conventions.
    - A Python [int] is a [Z]; a Python [float] is an exact rational [Q]
      (binary rounding error is not modelled); [round(x, 4)] rounds a rational
      to the nearest multiple of 1/10000, ties to even.
    - A Python [str] is a [string] of bytes; [str.lower] lowers the ASCII
      letters, [str.strip] strips the ASCII whitespace, and lengths and
      indices count bytes, which are the characters of ASCII text.
      [_clean_text] knows the whitespace beyond ASCII as well.
    - The network and the HTML parser are arguments of [fetch_url]: the
      outcome of the request and what BeautifulSoup extracts.
    - A JSON object with optional keys is a record whose fields are options
      (or lists, empty when the key is absent); an empty dict and a missing
      one are both [None], as [x.get(k) or {}] followed by [if x:] treats
      them alike.
    - A Python [set] of strings is a [gset string].
    - [sorted(..., reverse=True)] is a stable descending sort.
    - Where object identity matters (that scoring leaves the dataset as it
      was loaded), the dicts and lists are objects in a heap, and the code
      runs in a state monad that allocates, reads and writes them. *)

From Stdlib Require Import QArith Qminmax Lqa ZArith String Ascii List.
From stdpp Require Import gmap strings list sorting.

Local Open Scope string_scope.
Local Open Scope Z_scope.

(** ** Strings *)

Module Str.

Definition lower_ascii (c : ascii) : ascii :=
  let n := nat_of_ascii c in
  if ((65 <=? n) && (n <=? 90))%nat then ascii_of_nat (n + 32) else c.

(** [s.lower()] *)
Fixpoint lower (s : string) : string :=
  match s with
  | EmptyString => EmptyString
  | String c r => String (lower_ascii c) (lower r)
  end.

(** [x in t] for two strings: [x] occurs in [t] as a substring. *)
Fixpoint contains (x t : string) : bool :=
  String.prefix x t ||
  match t with
  | EmptyString => false
  | String _ r => contains x r
  end.

(** [sep.join(parts)] *)
Fixpoint join (sep : string) (parts : list string) : string :=
  match parts with
  | [] => ""
  | [p] => p
  | p :: r => (p ++ sep ++ join sep r)%string
  end.

(** [any(x in t for x in keys)] *)
Definition any_in (keys : list string) (t : string) : bool :=
  existsb (fun x => contains x t) keys.

(** [list(dict.fromkeys(l))]: drop repeats, keep the first occurrence of
    each element, in order. *)
Fixpoint fromkeys (seen l : list string) : list string :=
  match l with
  | [] => []
  | x :: r =>
      if bool_decide (x ∈ seen) then fromkeys seen r
      else x :: fromkeys (x :: seen) r
  end.

(** [sorted(list(s))] for a set of strings. *)
Definition sorted_list (s : gset string) : list string :=
  merge_sort (fun a b => Is_true (String.leb a b)) (elements s).

End Str.

(** ** Data model *)

(** A [{"min": ..., "max": ...}] dict; a missing key and a [null] are [None]. *)
Record Range := mkRange { rmin : option Z; rmax : option Z }.

Definition no_range : Range := mkRange None None.

(** The fields of a company profile that [shortlist_pe_funds] reads. *)
Record CompanyProfile := mkProfile {
  p_industries : list string;
  p_locations : list (option string);
  p_revenue_range_usd : option Range;
  p_employee_count_range : option Range
}.

(** A record of the fund dataset. The optional keys are defaulted as
    [f.get(key, default)] does; ["name"] is required. *)
Record Fund := mkFund {
  f_name : string;
  f_industries : list string;
  f_regions : list string;
  f_revenue_focus_usd : Range;
  f_employee_focus : Range;
  f_deal_types : list string
}.

(** The criteria dict that [query_pe_db] receives. *)
Record Criteria := mkCriteria {
  c_industries : list string;
  c_regions : list string;
  c_revenue_usd : option Range;
  c_employees : option Range;
  c_deal_type : option string
}.

(** ** Region labels ([shortlist_pe_funds], lines 21-36) *)

Definition us_keys : list string :=
  ["united states"; "usa"; "us"; "california"; "texas"; "ny"; "new york"].
Definition canada_keys : list string := ["canada"; "ontario"; "quebec"].
Definition europe_keys : list string :=
  ["uk"; "united kingdom"; "england"; "london"; "europe"].

(** The body of the loop over the locations: the label appended for one
    location, if any. *)
Definition region_label (loc : option string) : option string :=
  let t := Str.lower (default "" loc) in
  if Str.any_in us_keys t then Some "US"
  else if Str.any_in canada_keys t then Some "Canada"
  else if Str.any_in europe_keys t then Some "Europe"
  else None.

Definition reg_labels (locations : list (option string)) : list string :=
  Str.fromkeys [] (omap region_label locations).

(** [reg_labels or ["US"]] *)
Definition or_default (l d : list string) : list string :=
  match l with [] => d | _ => l end.

Definition derive_regions (locations : list (option string)) : list string :=
  or_default (reg_labels locations) ["US"].

(** ** Numbers *)

Local Open Scope Q_scope.

(** The integer nearest to [q], ties to the even one. *)
Definition round_half_even (q : Q) : Z :=
  let n := Qnum q in
  let d := Zpos (Qden q) in
  let fl := (n / d)%Z in
  match (2 * (n mod d) ?= d)%Z with
  | Lt => fl
  | Gt => (fl + 1)%Z
  | Eq => if Z.even fl then fl else (fl + 1)%Z
  end.

(** [round(q, 4)] *)
Definition round4 (q : Q) : Q := round_half_even (q * 10000) # 10000.

Definition Qof_nat (n : nat) : Q := inject_Z (Z.of_nat n).

(** ** Subscores *)

(** The per-factor dicts stored in [subs]. The four shapes of the applied
    branches carry the keys the code writes; [NotApplied] is
    [{"applied": False, "weight": w}]. *)
Inductive Subscore :=
| NotApplied (weight : Q)
| IndustrySub (raw : Q) (overlap_count company_count : nat)
    (weight contribution : Q) (company_industries fund_industries : list string)
| RegionSub (raw : Q) (overlap_count : nat) (weight contribution : Q)
    (company_regions fund_regions : list string)
| RangeSub (raw binary_fit : Q) (coverage_ratio : option Q)
    (company_range fund_range : Range) (weight contribution : Q)
| DealSub (raw : Q) (company_deal_type : string)
    (fund_deal_types : list string) (weight contribution : Q).

(** [sub["applied"]] *)
Definition applied (s : Subscore) : bool :=
  match s with NotApplied _ => false | _ => true end.

(** [sub.get("raw")] *)
Definition raw_of (s : Subscore) : option Q :=
  match s with
  | NotApplied _ => None
  | IndustrySub r _ _ _ _ _ _ | RegionSub r _ _ _ _ _
  | RangeSub r _ _ _ _ _ _ | DealSub r _ _ _ _ => Some r
  end.

(** [sub["weight"]] *)
Definition weight_of (s : Subscore) : Q :=
  match s with
  | NotApplied w | IndustrySub _ _ _ w _ _ _ | RegionSub _ _ w _ _ _
  | RangeSub _ _ _ _ _ w _ | DealSub _ _ _ w _ => w
  end.

(** [sub.get("contribution")] *)
Definition contribution_of (s : Subscore) : option Q :=
  match s with
  | NotApplied _ => None
  | IndustrySub _ _ _ _ k _ _ | RegionSub _ _ _ k _ _
  | RangeSub _ _ _ _ _ _ k | DealSub _ _ _ _ k => Some k
  end.

(** [sub.get("binary_fit")] and [sub.get("coverage_ratio")]; the latter is
    [Some None] when the key holds Python's [None]. *)
Definition binary_fit_of (s : Subscore) : option Q :=
  match s with RangeSub _ b _ _ _ _ _ => Some b | _ => None end.

Definition coverage_ratio_of (s : Subscore) : option (option Q) :=
  match s with RangeSub _ _ c _ _ _ _ => Some c | _ => None end.

(** The [subs] dict: one entry per factor. *)
Record Subscores := mkSubs {
  industry : Subscore;
  region : Subscore;
  revenue : Subscore;
  employees : Subscore;
  deal : Subscore
}.

(** ** The scoring engine ([query_pe_db]) *)

(** The [weights] dict. *)
Module weights.
Definition industry : Q := 4 # 10.
Definition region : Q := 2 # 10.
Definition revenue : Q := 2 # 10.
Definition employees : Q := 1 # 10.
Definition deal : Q := 1 # 10.
End weights.

(** The variables [inds], [regs], [rev], [emp] and [deal] that
    [query_pe_db] derives from the criteria (lines 94-98) and that the two
    local functions close over. *)
Record Env := mkEnv {
  inds : gset string;
  regs : gset string;
  rev : option Range;
  emp : option Range;
  deal_ : string
}.

Definition env_of (c : Criteria) : Env :=
  {| inds := list_to_set (Str.lower <$> c_industries c);
     regs := list_to_set (Str.lower <$> c_regions c);
     rev := c_revenue_usd c;
     emp := c_employees c;
     deal_ := Str.lower (default "" (c_deal_type c)) |}.

(** [_range_coverage] (lines 100-110). [None] is Python's [None]. *)
Definition _range_coverage (cmin cmax fmin fmax : option Z) : option Q :=
  match cmin, cmax, fmin, fmax with
  | Some cmin, Some cmax, Some fmin, Some fmax =>
      if ((cmax <? cmin) || (fmax <? fmin))%Z then Some 0
      else
        let inter_min := Z.max cmin fmin in
        let inter_max := Z.min cmax fmax in
        let inter := Qmax 0 (inject_Z (inter_max - inter_min)) in
        let clen := Qmax (1 # 1000000000) (inject_Z (cmax - cmin)) in
        Some (Qmax 0 (Qmin 1 (inter / clen)))
  | _, _, _, _ => None
  end.

(** [a is None or b is None or a >= b] and its mirror image. *)
Definition bound_ge (a b : option Z) : bool :=
  match a, b with
  | Some a, Some b => (b <=? a)%Z
  | _, _ => true
  end.

Definition bound_le (a b : option Z) : bool :=
  match a, b with
  | Some a, Some b => (a <=? b)%Z
  | _, _ => true
  end.

Definition Qof_bool (b : bool) : Q := if b then 1 else 0.

Section Factors.
Variable env : Env.
Variable f : Fund.

(** Each factor is one [if]/[else] block of [score_with_breakdown]: it
    takes the running [total] and returns the subscore it stores in [subs]
    with the new [total]. *)

(** Lines 124-141. *)
Definition industry_factor (total : Q) : Subscore * Q :=
  if bool_decide (inds env ≠ ∅) then
    let fund_inds := Str.lower <$> f_industries f in
    let overlap := size (inds env ∩ list_to_set fund_inds) in
    let raw := Qmin 1 (Qof_nat overlap / Qof_nat (max 1 (size (inds env)))) in
    let contrib := weights.industry * raw in
    (IndustrySub raw overlap (size (inds env)) weights.industry
       (round4 contrib) (Str.sorted_list (inds env)) (f_industries f),
     total + contrib)
  else (NotApplied weights.industry, total).

(** Lines 144-160. *)
Definition region_factor (total : Q) : Subscore * Q :=
  if bool_decide (regs env ≠ ∅) then
    let fund_regs := Str.lower <$> f_regions f in
    let overlap := size (regs env ∩ list_to_set fund_regs) in
    let raw := Qof_bool (0 <? overlap)%nat in
    let contrib := weights.region * raw in
    (RegionSub raw overlap weights.region (round4 contrib)
       (Str.sorted_list (regs env)) (f_regions f),
     total + contrib)
  else (NotApplied weights.region, total).

(** The shared shape of lines 163-183 and 186-206: [crit] is [rev] or
    [emp], [focus] is [f_rev] or [f_emp], [w] the factor's weight. *)
Definition range_factor (crit : option Range) (focus : Range) (w : Q)
    (total : Q) : Subscore * Q :=
  match crit with
  | Some r =>
      let lo_ok := bound_ge (rmin r) (rmin focus) in
      let hi_ok := bound_le (rmax r) (rmax focus) in
      let binary_fit := Qof_bool (lo_ok && hi_ok) in
      let coverage :=
        _range_coverage (rmin r) (rmax r) (rmin focus) (rmax focus) in
      let raw := binary_fit in
      let contrib := w * raw in
      (RangeSub raw binary_fit coverage r focus w (round4 contrib),
       total + contrib)
  | None => (NotApplied w, total)
  end.

Definition revenue_factor : Q -> Subscore * Q :=
  range_factor (rev env) (f_revenue_focus_usd f) weights.revenue.

Definition employees_factor : Q -> Subscore * Q :=
  range_factor (emp env) (f_employee_focus f) weights.employees.

(** Lines 209-222. *)
Definition deal_factor (total : Q) : Subscore * Q :=
  if bool_decide (deal_ env ≠ "") then
    let raw :=
      Qof_bool (bool_decide (deal_ env ∈ Str.lower <$> f_deal_types f)) in
    let contrib := weights.deal * raw in
    (DealSub raw (deal_ env) (f_deal_types f) weights.deal (round4 contrib),
     total + contrib)
  else (NotApplied weights.deal, total).

(** The running [total] after the five blocks, with [subs]. *)
Definition run_factors : Subscores * Q :=
  let total := 0 in
  let '(s_ind, total) := industry_factor total in
  let '(s_reg, total) := region_factor total in
  let '(s_rev, total) := revenue_factor total in
  let '(s_emp, total) := employees_factor total in
  let '(s_deal, total) := deal_factor total in
  (mkSubs s_ind s_reg s_rev s_emp s_deal, total).

(** [score_with_breakdown] (lines 112-224): the pair of [s["score"]] and
    [s["subscores"]]. *)
Definition score_with_breakdown : Q * Subscores :=
  let '(subs, total) := run_factors in (round4 total, subs).

End Factors.

(** ** Ranking *)

(** [sorted(l, key=key, reverse=True)]: a stable sort into descending key
    order. An element is inserted in front of the first element whose key is
    not greater than its own, so that among equal keys the order of [l] is
    kept. *)
Section Sorted.
Context {A : Type} (key : A -> Q).

Definition key_lt (x y : A) : bool := negb (Qle_bool (key y) (key x)).

Fixpoint insert_desc (x : A) (l : list A) : list A :=
  match l with
  | [] => [x]
  | y :: r => if key_lt x y then y :: insert_desc x r else x :: y :: r
  end.

Definition sorted_desc (l : list A) : list A := foldr insert_desc [] l.

(** Descending key order, and the elements of [l] with key [q], in the
    order of [l]. *)
Definition key_ge (a b : A) : Prop := key b <= key a.

Definition with_key (q : Q) (l : list A) : list A :=
  List.filter (fun x => Qeq_bool (key x) q) l.
End Sorted.

(** One element of the list [query_pe_db] returns. [R] is what the ["match"]
    key holds: the fund record itself in the value model below. *)
Record Scored (R : Type) := mkScored {
  fund : string;
  score : Q;
  match_ : R;
  subscores : Subscores
}.
Arguments mkScored {R} _ _ _ _.
Arguments fund {R} _.
Arguments score {R} _.
Arguments match_ {R} _.
Arguments subscores {R} _.

(** The body of the loop of lines 227-234, for the fund [f] reached through
    [r]. *)
Definition score_fund {R : Type} (env : Env) (r : R) (f : Fund) : Scored R :=
  let s := score_with_breakdown env f in
  mkScored (f_name f) (fst s) r (snd s).

(** [query_pe_db] on the dataset that [json.load] returned. *)
Definition query_pe_db (criteria : Criteria) (funds : list Fund)
    : list (Scored Fund) :=
  let env := env_of criteria in
  let scored := (fun f => score_fund env f f) <$> funds in
  sorted_desc score scored.

(** ** Shortlist ([shortlist_pe_funds]) *)

Definition DEFAULT_TOP_K : Z := 5.

(** [l[:n]] for a Python [int] [n]: the first [n] elements, or all but the
    last [-n] when [n] is negative. *)
Definition slice_to {A : Type} (n : Z) (l : list A) : list A :=
  if (0 <=? n)%Z then take (Z.to_nat n) l
  else take (length l - Z.to_nat (- n)) l.

Record Rationale := mkRationale {
  summary : string;
  r_subscores : Subscores
}.

Record ShortlistEntry := mkEntry {
  e_fund : string;
  e_score : Q;
  e_rationale : Rationale
}.

(** [set(x.lower() for x in a).intersection(x.lower() for x in b)] as a
    condition: the two lists share an element, case apart. *)
Definition lower_overlap (a b : list string) : bool :=
  bool_decide
    ((list_to_set (Str.lower <$> a) : gset string)
       ∩ list_to_set (Str.lower <$> b) ≠ ∅).

Definition nonempty {A : Type} (l : list A) : bool :=
  match l with [] => false | _ => true end.

(** The truth value of an optional dict: a present, non-empty one. *)
Definition is_Some_b {A : Type} (o : option A) : bool :=
  match o with Some _ => true | None => false end.

Section Shortlist.
Variable company_profile : CompanyProfile.

Definition industries : list string := p_industries company_profile.
Definition labels : list string := reg_labels (p_locations company_profile).
Definition rev_ : option Range := p_revenue_range_usd company_profile.
Definition emp_ : option Range := p_employee_count_range company_profile.

(** Lines 33-47. *)
Definition criteria_of : Criteria :=
  {| c_industries := industries;
     c_regions := or_default labels ["US"];
     c_revenue_usd := rev_;
     c_employees := emp_;
     c_deal_type := Some "Buyout" |}.

(** Lines 55-64. *)
Definition reasons (f : Fund) : list string :=
  let reasons :=
    ((if nonempty industries && lower_overlap industries (f_industries f)
      then ["industry fit"] else [])
     ++ (if nonempty labels && lower_overlap labels (f_regions f)
         then ["region fit"] else [])
     ++ (if is_Some_b rev_ then ["revenue range compatible"] else [])
     ++ (if is_Some_b emp_ then ["employee range compatible"] else []))%list in
  or_default reasons ["generalist flexibility"].

(** Lines 54-75: the entry appended to [out] for one ranked fund. *)
Definition entry_of (r : Scored Fund) : ShortlistEntry :=
  let f := match_ r in
  mkEntry (fund r) (score r)
    (mkRationale (Str.join ", " (reasons f)) (subscores r)).

Definition above_threshold (x : ShortlistEntry) : bool :=
  Qle_bool (2 # 10) (e_score x).

Definition shortlist_pe_funds (funds : list Fund) (top_k : Z)
    : list ShortlistEntry :=
  let ranked := query_pe_db criteria_of funds in
  let out := entry_of <$> slice_to (top_k * 2) ranked in
  slice_to top_k (List.filter above_threshold out).

End Shortlist.

(** The pipeline the spec compares the code with: filter the whole ranking
    at the threshold, then keep the first [top_k]. *)
Definition shortlist_full_filter (company_profile : CompanyProfile)
    (funds : list Fund) (top_k : Z) : list ShortlistEntry :=
  let ranked := query_pe_db (criteria_of company_profile) funds in
  take (Z.to_nat top_k)
    (List.filter above_threshold (entry_of company_profile <$> ranked)).

(** ** The dataset as shared objects

    [json.load] builds one dict per fund record, and one list or dict for
    every key of the record that holds one. [query_pe_db] reads them, and
    what it builds refers to them: a result holds its record under
    ["match"], and a subscore holds the record's own list or dict under
    ["fund_industries"], ["fund_regions"], ["fund_range"] and
    ["fund_deal_types"] (lines 137, 156, 177, 195 and 216). Here the objects
    live in a heap, and the functions run in a state monad over it that can
    allocate, read and write; [None] is a read or a write at a reference
    that is not allocated, or at an object of another kind. *)

Definition loc := nat.

(** A fund dict: the name and, for each optional key that the record has,
    the reference under it. *)
Record FundDict := mkFundDict {
  d_name : string;
  d_industries : option loc;
  d_regions : option loc;
  d_revenue_focus_usd : option loc;
  d_employee_focus : option loc;
  d_deal_types : option loc
}.

(** A [subs[key]] dict: the keys of [Subscore], with the reference to the
    fund's object where [Subscore] has its value. *)
Inductive SubscoreDict :=
| NotAppliedD (weight : Q)
| IndustryD (raw : Q) (overlap_count company_count : nat)
    (weight contribution : Q) (company_industries : list string)
    (fund_industries : loc)
| RegionD (raw : Q) (overlap_count : nat) (weight contribution : Q)
    (company_regions : list string) (fund_regions : loc)
| RangeD (raw binary_fit : Q) (coverage_ratio : option Q)
    (company_range : Range) (fund_range : loc) (weight contribution : Q)
| DealD (raw : Q) (company_deal_type : string) (fund_deal_types : loc)
    (weight contribution : Q).

(** An element of [scored]. *)
Record ResultDict := mkResultDict {
  rd_fund : string;
  rd_score : Q;
  rd_match : loc;
  rd_subscores : loc
}.

Inductive Obj :=
| OStrings (items : list string)
| ORange (r : Range)
| OFund (d : FundDict)
| OSub (s : SubscoreDict)
| OSubs (entries : gmap string loc)
| OResult (r : ResultDict)
| OList (items : list loc).

Abbreviation Heap := (gmap loc Obj).

Definition M (A : Type) : Type := Heap -> option (A * Heap).

#[global] Instance M_ret : MRet M := fun A x h => Some (x, h).
#[global] Instance M_bind : MBind M := fun A B k m h =>
  match m h with
  | Some (x, h') => k x h'
  | None => None
  end.

Definition fails {A : Type} : M A := fun _ => None.

(** A new object. *)
Definition alloc (o : Obj) : M loc :=
  fun h => let l := fresh (dom h) in Some (l, <[l := o]> h).

(** Reading the object at [l], and replacing it. *)
Definition deref (l : loc) : M Obj :=
  fun h => match h !! l with Some o => Some (o, h) | None => None end.

Definition store (l : loc) (o : Obj) : M unit :=
  fun h => match h !! l with Some _ => Some (tt, <[l := o]> h) | None => None end.

Definition get_strings (l : loc) : M (list string) :=
  o ← deref l; match o with OStrings items => mret items | _ => fails end.

Definition get_range (l : loc) : M Range :=
  o ← deref l; match o with ORange r => mret r | _ => fails end.

Definition get_fund (l : loc) : M FundDict :=
  o ← deref l; match o with OFund d => mret d | _ => fails end.

Definition get_result (l : loc) : M ResultDict :=
  o ← deref l; match o with OResult r => mret r | _ => fails end.

Definition get_list (l : loc) : M (list loc) :=
  o ← deref l; match o with OList items => mret items | _ => fails end.

(** [d[key] = v] on the [subs] dict and [l.append(x)]. *)
Definition setitem (d : loc) (key : string) (v : loc) : M unit :=
  o ← deref d;
  match o with
  | OSubs entries => store d (OSubs (<[key := v]> entries))
  | _ => fails
  end.

Definition list_append (l : loc) (x : loc) : M unit :=
  o ← deref l;
  match o with
  | OList items => store l (OList (items ++ [x]))
  | _ => fails
  end.

(** A record of the dataset file: the required name and the optional
    keys. *)
Record FundJson := mkFundJson {
  j_name : string;
  j_industries : option (list string);
  j_regions : option (list string);
  j_revenue_focus_usd : option Range;
  j_employee_focus : option Range;
  j_deal_types : option (list string)
}.

(** The record in the value model, its missing keys defaulted. *)
Definition fund_of_json (j : FundJson) : Fund :=
  {| f_name := j_name j;
     f_industries := default [] (j_industries j);
     f_regions := default [] (j_regions j);
     f_revenue_focus_usd := default no_range (j_revenue_focus_usd j);
     f_employee_focus := default no_range (j_employee_focus j);
     f_deal_types := default [] (j_deal_types j) |}.

(** [json.load(f)]: the objects of one record, then the list of the
    records. *)
Definition load_key {A : Type} (mk : A -> Obj) (v : option A)
    : M (option loc) :=
  match v with
  | Some x => l ← alloc (mk x); mret (Some l)
  | None => mret None
  end.

Definition load_record (j : FundJson) : M loc :=
  i ← load_key OStrings (j_industries j);
  r ← load_key OStrings (j_regions j);
  rf ← load_key ORange (j_revenue_focus_usd j);
  ef ← load_key ORange (j_employee_focus j);
  dt ← load_key OStrings (j_deal_types j);
  alloc (OFund (mkFundDict (j_name j) i r rf ef dt)).

Fixpoint load_records (records : list FundJson) : M (list loc) :=
  match records with
  | [] => mret []
  | j :: rest => l ← load_record j; ls ← load_records rest; mret (l :: ls)
  end.

Definition json_load (records : list FundJson) : M loc :=
  items ← load_records records;
  alloc (OList items).

(** [f.get(key, default)]: the object under the key, or the new default
    object. *)
Definition f_get (f : loc) (key : FundDict -> option loc) (dflt : Obj)
    : M loc :=
  d ← get_fund f;
  match key d with
  | Some l => mret l
  | None => alloc dflt
  end.

(** [subs[key] = {...}] *)
Definition set_sub (subs : loc) (key : string) (s : SubscoreDict) : M unit :=
  l ← alloc (OSub s);
  setitem subs key l.

Section FactorsHeap.
Variable env : Env.
Variable f : loc.
Variable subs : loc.

(** Lines 124-141. *)
Definition industry_block (total : Q) : M Q :=
  if bool_decide (inds env ≠ ∅) then
    l ← f_get f d_industries (OStrings []);
    items ← get_strings l;
    let fund_inds := Str.lower <$> items in
    let overlap := size (inds env ∩ list_to_set fund_inds) in
    let raw := Qmin 1 (Qof_nat overlap / Qof_nat (max 1 (size (inds env)))) in
    let contrib := weights.industry * raw in
    fund_industries ← f_get f d_industries (OStrings []);
    set_sub subs "industry"
      (IndustryD raw overlap (size (inds env)) weights.industry
         (round4 contrib) (Str.sorted_list (inds env)) fund_industries);;
    mret (total + contrib)
  else
    set_sub subs "industry" (NotAppliedD weights.industry);;
    mret total.

(** Lines 144-160. *)
Definition region_block (total : Q) : M Q :=
  if bool_decide (regs env ≠ ∅) then
    l ← f_get f d_regions (OStrings []);
    items ← get_strings l;
    let fund_regs := Str.lower <$> items in
    let overlap := size (regs env ∩ list_to_set fund_regs) in
    let raw := Qof_bool (0 <? overlap)%nat in
    let contrib := weights.region * raw in
    fund_regions ← f_get f d_regions (OStrings []);
    set_sub subs "region"
      (RegionD raw overlap weights.region (round4 contrib)
         (Str.sorted_list (regs env)) fund_regions);;
    mret (total + contrib)
  else
    set_sub subs "region" (NotAppliedD weights.region);;
    mret total.

(** The shared shape of lines 163-183 and 186-206; [f_range] is [f_rev] or
    [f_emp], read before the [if]. *)
Definition range_block (crit : option Range) (field : FundDict -> option loc)
    (w : Q) (key : string) (total : Q) : M Q :=
  f_range ← f_get f field (ORange no_range);
  match crit with
  | Some r =>
      focus ← get_range f_range;
      let lo_ok := bound_ge (rmin r) (rmin focus) in
      let hi_ok := bound_le (rmax r) (rmax focus) in
      let binary_fit := Qof_bool (lo_ok && hi_ok) in
      let coverage :=
        _range_coverage (rmin r) (rmax r) (rmin focus) (rmax focus) in
      let raw := binary_fit in
      let contrib := w * raw in
      set_sub subs key
        (RangeD raw binary_fit coverage r f_range w (round4 contrib));;
      mret (total + contrib)
  | None =>
      set_sub subs key (NotAppliedD w);;
      mret total
  end.

(** Lines 209-222. *)
Definition deal_block (total : Q) : M Q :=
  if bool_decide (deal_ env ≠ "") then
    l ← f_get f d_deal_types (OStrings []);
    items ← get_strings l;
    let raw := Qof_bool (bool_decide (deal_ env ∈ Str.lower <$> items)) in
    let contrib := weights.deal * raw in
    fund_deal_types ← f_get f d_deal_types (OStrings []);
    set_sub subs "deal"
      (DealD raw (deal_ env) fund_deal_types weights.deal (round4 contrib));;
    mret (total + contrib)
  else
    set_sub subs "deal" (NotAppliedD weights.deal);;
    mret total.

End FactorsHeap.

(** [score_with_breakdown] (lines 112-224) on the fund dict at [f]:
    [s["score"]] and the reference to [subs]. *)
Definition score_with_breakdown_heap (env : Env) (f : loc) : M (Q * loc) :=
  subs ← alloc (OSubs ∅);
  let total := 0 in
  total ← industry_block env f subs total;
  total ← region_block env f subs total;
  total ← range_block f subs (rev env) d_revenue_focus_usd
             weights.revenue "revenue" total;
  total ← range_block f subs (emp env) d_employee_focus
             weights.employees "employees" total;
  total ← deal_block env f subs total;
  mret (round4 total, subs).

(** The loop of lines 226-234. *)
Fixpoint score_loop (env : Env) (funds : list loc) (scored : loc) : M unit :=
  match funds with
  | [] => mret tt
  | f :: rest =>
      s ← score_with_breakdown_heap env f;
      d ← get_fund f;
      r ← alloc (OResult (mkResultDict (d_name d) (fst s) f (snd s)));
      list_append scored r;;
      score_loop env rest scored
  end.

(** [sorted(scored, key=lambda x: x["score"], reverse=True)]: the scores
    are read, and the sorted references go into a new list. *)
Fixpoint read_scores (items : list loc) : M (list (loc * Q)) :=
  match items with
  | [] => mret []
  | l :: rest =>
      r ← get_result l;
      keyed ← read_scores rest;
      mret ((l, rd_score r) :: keyed)
  end.

Definition sorted_by_score (scored : loc) : M loc :=
  items ← get_list scored;
  keyed ← read_scores items;
  alloc (OList (fst <$> sorted_desc snd keyed)).

(** Lines 94-236, after the dataset is loaded into the list at [funds]. *)
Definition rank_loaded (criteria : Criteria) (funds : loc) : M loc :=
  let env := env_of criteria in
  scored ← alloc (OList []);
  items ← get_list funds;
  score_loop env items scored;;
  sorted_by_score scored.

Definition query_pe_db_heap (criteria : Criteria) (records : list FundJson)
    : M loc :=
  funds ← json_load records;
  rank_loaded criteria funds.

(** *** Reading values back

    What a reader of the heap [h] sees at a reference: the fund record, the
    subscores and the result of the value model. *)

Definition read_strings (h : Heap) (o : option loc) : option (list string) :=
  match o with
  | Some l => match h !! l with Some (OStrings x) => Some x | _ => None end
  | None => Some []
  end.

Definition read_range (h : Heap) (o : option loc) : option Range :=
  match o with
  | Some l => match h !! l with Some (ORange r) => Some r | _ => None end
  | None => Some no_range
  end.

Definition read_fund (h : Heap) (l : loc) : option Fund :=
  match h !! l with
  | Some (OFund d) =>
      i ← read_strings h (d_industries d);
      r ← read_strings h (d_regions d);
      rf ← read_range h (d_revenue_focus_usd d);
      ef ← read_range h (d_employee_focus d);
      dt ← read_strings h (d_deal_types d);
      Some (mkFund (d_name d) i r rf ef dt)
  | _ => None
  end.

Definition read_sub (h : Heap) (s : SubscoreDict) : option Subscore :=
  match s with
  | NotAppliedD w => Some (NotApplied w)
  | IndustryD raw oc cc w k ci l =>
      fi ← read_strings h (Some l); Some (IndustrySub raw oc cc w k ci fi)
  | RegionD raw oc w k cr l =>
      fr ← read_strings h (Some l); Some (RegionSub raw oc w k cr fr)
  | RangeD raw b c r l w k =>
      focus ← read_range h (Some l); Some (RangeSub raw b c r focus w k)
  | DealD raw cdt l w k =>
      dt ← read_strings h (Some l); Some (DealSub raw cdt dt w k)
  end.

Definition read_entry (h : Heap) (entries : gmap string loc) (key : string)
    : option Subscore :=
  l ← entries !! key;
  match h !! l with Some (OSub s) => read_sub h s | _ => None end.

Definition read_subs (h : Heap) (l : loc) : option Subscores :=
  match h !! l with
  | Some (OSubs entries) =>
      i ← read_entry h entries "industry";
      r ← read_entry h entries "region";
      rv ← read_entry h entries "revenue";
      e ← read_entry h entries "employees";
      d ← read_entry h entries "deal";
      Some (mkSubs i r rv e d)
  | _ => None
  end.

Definition read_result (h : Heap) (l : loc) : option (Scored Fund) :=
  match h !! l with
  | Some (OResult r) =>
      m ← read_fund h (rd_match r);
      s ← read_subs h (rd_subscores r);
      Some (mkScored (rd_fund r) (rd_score r) m s)
  | _ => None
  end.

(** ** Text cleaning ([_clean_text], tools.py lines 18-20)

    Whitespace is what [\s] and [str.isspace] take it to be. On ASCII
    characters ([is_space]): tab, line feed, vertical tab, form feed,
    carriage return, the four separators 0x1c-0x1f and the space. Beyond
    ASCII ([wide_spaces]): U+0085, U+00A0, U+1680, U+2000 to U+200A, U+2028,
    U+2029, U+202F, U+205F and U+3000, which a text holds as their UTF-8
    bytes. *)

Definition is_space (c : ascii) : bool :=
  let n := nat_of_ascii c in
  (((9 <=? n) && (n <=? 13)) || ((28 <=? n) && (n <=? 32)))%nat.

Definition utf8 (bytes : list nat) : string :=
  string_of_list_ascii (ascii_of_nat <$> bytes).

Definition wide_spaces : list string :=
  utf8 <$>
    [[194; 133]; [194; 160]; [225; 154; 128];
     [226; 128; 128]; [226; 128; 129]; [226; 128; 130]; [226; 128; 131];
     [226; 128; 132]; [226; 128; 133]; [226; 128; 134]; [226; 128; 135];
     [226; 128; 136]; [226; 128; 137]; [226; 128; 138];
     [226; 128; 168]; [226; 128; 169]; [226; 128; 175]; [226; 129; 159];
     [227; 128; 128]]%nat.

(** The number of bytes of the wide whitespace character that [s] starts
    with, if it starts with one. *)
Definition wide_prefix (s : string) : option nat :=
  String.length <$> List.find (fun w => String.prefix w s) wide_spaces.

(** The text with every wide whitespace character turned into a space;
    [skip] counts the bytes of such a character that are still to be
    dropped. *)
Fixpoint narrow_from (skip : nat) (s : string) : string :=
  match s with
  | EmptyString => EmptyString
  | String c r =>
      match skip with
      | S k => narrow_from k r
      | O =>
          match wide_prefix s with
          | Some n => String " " (narrow_from (n - 1) r)
          | None => String c (narrow_from 0 r)
          end
      end
  end.

Definition narrow (s : string) : string := narrow_from 0 s.

(** [re.sub(r"\s+", " ", s)] on a text whose whitespace is ASCII, read from
    left to right: [in_run] tells that the character before was whitespace,
    so that a run of whitespace gives one space. *)
Fixpoint sub_spaces (in_run : bool) (s : string) : string :=
  match s with
  | EmptyString => EmptyString
  | String c r =>
      if is_space c then
        if in_run then sub_spaces true r else String " " (sub_spaces true r)
      else String c (sub_spaces false r)
  end.

(** [s.lstrip()], [s.rstrip()] and [s.strip()] on a text whose whitespace
    is ASCII. *)
Fixpoint lstrip (s : string) : string :=
  match s with
  | EmptyString => EmptyString
  | String c r => if is_space c then lstrip r else s
  end.

Fixpoint rstrip (s : string) : string :=
  match s with
  | EmptyString => EmptyString
  | String c r =>
      match rstrip r with
      | EmptyString => if is_space c then EmptyString else String c EmptyString
      | r' => String c r'
      end
  end.

Definition strip (s : string) : string := rstrip (lstrip s).

(** A run of whitespace characters, wide or not, gives one space: the wide
    ones count as spaces. After the substitution the text holds no
    whitespace but single spaces, which is what [strip] then removes at the
    two ends. *)
Definition _clean_text (text : string) : string :=
  let text := sub_spaces false (narrow text) in
  strip text.

(** ** Python string methods

    The methods of [str] that the fetching and extracting code calls.
    Lengths and indices count bytes, which are the characters of ASCII
    text. *)

Module Py.

Definition upper_ascii (c : ascii) : ascii :=
  let n := nat_of_ascii c in
  if ((97 <=? n) && (n <=? 122))%nat then ascii_of_nat (n - 32) else c.

Definition is_letter (c : ascii) : bool :=
  let n := nat_of_ascii c in
  (((65 <=? n) && (n <=? 90)) || ((97 <=? n) && (n <=? 122)))%nat.

(** [s.title()]: a letter that follows a letter is lowered, any other
    letter is raised. *)
Fixpoint title_from (after_letter : bool) (s : string) : string :=
  match s with
  | EmptyString => EmptyString
  | String c r =>
      String (if after_letter then Str.lower_ascii c else upper_ascii c)
        (title_from (is_letter c) r)
  end.

Definition title (s : string) : string := title_from false s.

(** [s.capitalize()] *)
Definition capitalize (s : string) : string :=
  match s with
  | EmptyString => EmptyString
  | String c r => String (upper_ascii c) (Str.lower r)
  end.

(** [s.split(sep)[0]] for a non-empty [sep]: what comes before the first
    occurrence of [sep], all of [s] when there is none. *)
Fixpoint before_first (sep s : string) : string :=
  if String.prefix sep s then EmptyString
  else match s with
       | EmptyString => EmptyString
       | String c r => String c (before_first sep r)
       end.

(** [s.replace(pat, "")] for a non-empty [pat]: the occurrences of [pat]
    are dropped from left to right; [skip] counts the characters of an
    occurrence that are still to be dropped. *)
Fixpoint remove_from (pat : string) (skip : nat) (s : string) : string :=
  match s with
  | EmptyString => EmptyString
  | String c r =>
      match skip with
      | S k => remove_from pat k r
      | O =>
          if String.prefix pat s then remove_from pat (String.length pat - 1) r
          else String c (remove_from pat 0 r)
      end
  end.

Definition remove_all (pat s : string) : string := remove_from pat 0 s.

(** [s[:n]] and [s[a:b]] for indices that are not negative. *)
Definition slice_upto (n : nat) (s : string) : string := String.substring 0 n s.

Definition slice (a b : Z) (s : string) : string :=
  String.substring (Z.to_nat a) (Z.to_nat (b - a)) s.

(** [s.find(sub, start)]: the index of the first occurrence of [sub] at or
    after [start], or -1. [pos] is the index of the first character of
    [s]. *)
Fixpoint find_at (sub s : string) (pos : Z) : Z :=
  if String.prefix sub s then pos
  else match s with
       | EmptyString => (-1)%Z
       | String _ r => find_at sub r (pos + 1)
       end.

Definition find (sub s : string) (start : Z) : Z :=
  if (Z.of_nat (String.length s) <? start)%Z then (-1)%Z
  else find_at sub
         (String.substring (Z.to_nat start)
            (String.length s - Z.to_nat start) s)
         start.

(** [s.rfind(sub, 0, stop)]: the index of the last occurrence of [sub] that
    lies within [s[0:stop]], or -1. *)
Fixpoint rfind_at (sub s : string) (pos : Z) : Z :=
  match s with
  | EmptyString => if String.prefix sub s then pos else (-1)%Z
  | String _ r =>
      let later := rfind_at sub r (pos + 1) in
      if (later =? -1)%Z then (if String.prefix sub s then pos else (-1)%Z)
      else later
  end.

Definition rfind (sub s : string) (stop : Z) : Z :=
  rfind_at sub (slice_upto (Z.to_nat stop) s) 0.

End Py.

(** ** Fetching a page ([fetch_url], tools.py lines 23-73)

    The network and the HTML parser are outside the program: the outcome of
    [requests.get] is an argument, and what BeautifulSoup extracts from the
    HTML is given by three functions. The [meta] dict of a fetched page,
    which no modelled code reads, is left out. *)

(** What [fetch_url] reads of a [requests] response: the status code, the
    [content-type] header (empty when there is none) and [resp.text], which
    [requests] gives as a [str]. *)
Record Response := mkResponse {
  resp_status_code : Z;
  resp_content_type : string;
  resp_text : string
}.

Record FetchedPage := mkFetchedPage {
  fp_url : string;
  fp_status_code : Z;
  fp_title : option string;
  fp_text : string
}.

(** [a or b] for two strings. *)
Definition str_or (a b : string) : string :=
  match a with EmptyString => b | _ => a end.

Section Fetch.
(** [soup.title.string] when the page has a title with a string; the text
    of the [main], [article] or [body] element, whichever is found first,
    after the script and navigation tags are removed; the text of the whole
    document. *)
Variable title_string : string -> option string.
Variable main_text : string -> option string.
Variable soup_text : string -> string.

(** The result is [inr msg] when [FetchError(msg)] is raised. *)
Definition fetch_url (url : string) (got : Response + string)
    : FetchedPage + string :=
  match got with
  | inr e => inr e
  | inl resp =>
      let content_type := resp_content_type resp in
      if negb (Str.contains "text/html" content_type)
         && negb (Str.contains "application/xhtml+xml" content_type)
      then
        let text := _clean_text (str_or (resp_text resp) "") in
        inl (mkFetchedPage url (resp_status_code resp) None text)
      else
        let html := resp_text resp in
        let title :=
          match title_string html with
          | Some t => if bool_decide (t <> "") then Some (strip t) else None
          | None => None
          end in
        let text :=
          match main_text html with
          | Some t => _clean_text t
          | None => _clean_text (soup_text html)
          end in
        inl (mkFetchedPage url (resp_status_code resp) title text)
  end.
(** ** The offline extractor (agent.py lines 32-44 and 114-185) *)

(** [_first_sentence_with] (lines 176-185). *)
Definition _first_sentence_with (text_lower kw : string) : option string :=
  let i := Py.find kw text_lower 0 in
  if (i =? -1)%Z then None
  else
    let start := Z.max 0 (Py.rfind "." text_lower i + 1) in
    let end_ := Py.find "." text_lower i in
    let end_ :=
      if (end_ =? -1)%Z
      then Z.min (Z.of_nat (String.length text_lower)) (i + 240)
      else end_ in
    Some (Py.capitalize (strip (Py.slice start end_ text_lower))).

(** The profile dict that [_offline_extract_profile] builds. *)
Record OfflineProfile := mkOfflineProfile {
  op_company_name : string;
  op_url : string;
  op_industries : list string;
  op_locations : list string;
  op_employee_count_range : Range;
  op_revenue_range_usd : Range;
  op_offerings : list string;
  op_summary : string;
  op_confidence : Q
}.

Definition name_seps : list string := ["|"; "–"; "-"; "::"; ":"].

(** The loop of lines 123-126: the first separator of the list that occurs
    in [name] splits it. *)
Fixpoint split_name (seps : list string) (name : string) : string :=
  match seps with
  | [] => name
  | sep :: rest =>
      if Str.contains sep name then strip (Py.before_first sep name)
      else split_name rest name
  end.

Definition industry_map : list (string * list string) :=
  [("software", ["saas"; "software"; "platform"; "cloud"]);
   ("tech-enabled services", ["managed service"; "it services"; "digital"]);
   ("industrial", ["manufacturing"; "industrial"; "plant"; "fabrication"]);
   ("healthcare", ["clinic"; "patient"; "medical"; "healthcare"]);
   ("consumer", ["ecommerce"; "retail"; "brand"; "store"; "shop"]);
   ("business services", ["b2b"; "consulting"; "outsourcing"; "agency"])].

Definition location_tokens : list string :=
  ["United States"; "USA"; "US"; "Canada"; "United Kingdom"; "Europe"].

Definition offering_keywords : list string :=
  ["products"; "services"; "solutions"; "platform"].

(** Lines 118-173, on the page that [fetch_url] returned. *)
Definition extract_profile (url : string) (fetched : FetchedPage)
    : OfflineProfile :=
  let title := strip (str_or (default "" (fp_title fetched)) "") in
  let text := strip (str_or (fp_text fetched) "") in
  let name := split_name name_seps title in
  let name :=
    match name with
    | EmptyString =>
        Py.before_first "/"
          (Py.remove_all "http://" (Py.remove_all "https://" url))
    | _ => name
    end in
  let tl := Str.lower text in
  let industries :=
    omap (fun '(label, kws) =>
            if Str.any_in kws tl then Some (Py.title label) else None)
      industry_map in
  let industries := or_default industries ["Business Services"] in
  let locations :=
    List.filter (fun token => Str.contains (Str.lower token) tl)
      location_tokens in
  let locations := or_default (Str.fromkeys [] locations) ["United States"] in
  let offerings :=
    omap (fun kw =>
            match _first_sentence_with tl kw with
            | Some (String c m) => Some (Py.slice_upto 140 (String c m))
            | _ => None
            end)
      offering_keywords in
  let offerings := take 5 offerings in
  {| op_company_name := name;
     op_url := url;
     op_industries := industries;
     op_locations := locations;
     op_employee_count_range := mkRange (Some 10%Z) (Some 500%Z);
     op_revenue_range_usd := mkRange (Some 5000000%Z) (Some 80000000%Z);
     op_offerings := offerings;
     op_summary :=
       Py.slice_upto 280
         (str_or title (match offerings with m :: _ => m | [] => "" end));
     op_confidence := 45 # 100 |}.

(** [_offline_extract_profile] (lines 116-173): a [FetchError] of
    [fetch_url] is not caught. *)
Definition _offline_extract_profile (url : string) (got : Response + string)
    : OfflineProfile + string :=
  match fetch_url url got with
  | inl fetched => inl (extract_profile url fetched)
  | inr e => inr e
  end.

(** What [shortlist_pe_funds] reads of the offline profile. *)
Definition as_company_profile (o : OfflineProfile) : CompanyProfile :=
  {| p_industries := op_industries o;
     p_locations := Some <$> op_locations o;
     p_revenue_range_usd := Some (op_revenue_range_usd o);
     p_employee_count_range := Some (op_employee_count_range o) |}.

(** [run_agent] (agent.py lines 32-44) on the branch taken when [offline]
    is set or no API key is configured. The profile is extracted first, so
    a [FetchError] comes before anything is read. [dataset] is the outcome of
    reading the dataset in [query_pe_db] (tools.py lines 91-92 and 230):
    the records, or the message of the exception raised when the file cannot
    be opened or parsed or a record has no ["name"]; that exception is not
    caught either. *)
Definition run_agent (url : string) (got : Response + string)
    (dataset : list Fund + string) (top_k : Z)
    : OfflineProfile * list ShortlistEntry + string :=
  match _offline_extract_profile url got with
  | inl company_profile =>
      match dataset with
      | inl funds =>
          let shortlist :=
            shortlist_pe_funds (as_company_profile company_profile) funds
              top_k in
          inl (company_profile, shortlist)
      | inr e => inr e
      end
  | inr e => inr e
  end.

End Fetch.

(** ** The deal-type bullet of the dashboard (streamlit_app.py)

    [_deal_match_nuance] (lines 75-135) returns a dict with a ["long"] and
    a ["bullet"] text. The long text formats the weight and the contribution
    as floats and is left out; the function below is the ["bullet"] entry,
    which is made of strings only. The arguments [weight] and [contrib]
    appear in the long text alone. *)

(** The [synonyms] dict of sets. *)
Definition synonyms : gmap string (gset string) :=
  list_to_map
    [("buyout", list_to_set ["buyout"; "lbo"; "control"; "majority"]);
     ("majority", list_to_set ["majority"; "control"; "buyout"]);
     ("minority",
      list_to_set
        ["minority"; "non-control"; "growth minority"; "minority growth"]);
     ("growth", list_to_set ["growth"; "growth equity"; "minority"]);
     ("carve-out", list_to_set ["carve-out"; "carveout"; "divestiture"]);
     ("roll-up",
      list_to_set ["roll-up"; "rollup"; "buy-and-build"; "add-on"; "platform"]);
     ("recap", list_to_set ["recap"; "recapitalization"])].

(** The truth value of a string: it is not empty. *)
Definition str_true (s : string) : bool :=
  match s with EmptyString => false | _ => true end.

Definition _deal_match_nuance (cdt : option string) (fdt_list : list string)
    (raw : option Q) : string :=
  let cdt_norm := Str.lower (strip (str_or (default "" cdt) "")) in
  let fund_norm := (fun x => Str.lower (strip x)) <$> fdt_list in
  let syn_set : gset string :=
    default (if str_true cdt_norm then {[ cdt_norm ]} else ∅)
      (synonyms !! cdt_norm) in
  let synonym_overlap :=
    if str_true cdt_norm
    then bool_decide (syn_set ∩ list_to_set fund_norm ≠ ∅)
    else false in
  let fdt_disp := str_or (Str.join ", " fdt_list) "—" in
  let is_match := negb (Qle_bool (default 0 raw) 0) in
  let cdt := default "" cdt in
  if negb (str_true cdt_norm) then
    "Deal type: not specified (factor ignored)"
  else if is_match then
    "Deal type: MATCH — requested '" +:+ cdt +:+ "' supported (fund: "
    +:+ fdt_disp +:+ ")"
  else if synonym_overlap then
    "Deal type: NEAR MATCH — requested '" +:+ cdt
    +:+ "' not listed; adjacent options present (fund: " +:+ fdt_disp +:+ ")"
  else
    "Deal type: MISMATCH — requested '" +:+ cdt
    +:+ "' not in fund mandate (fund: " +:+ fdt_disp +:+ ")".

(** [deal.get("company_deal_type")] and
    [deal.get("fund_deal_types", []) or []] *)
Definition company_deal_type_of (s : Subscore) : option string :=
  match s with DealSub _ c _ _ _ => Some c | _ => None end.

Definition fund_deal_types_of (s : Subscore) : list string :=
  match s with DealSub _ _ l _ _ => l | _ => [] end.

(** The bullet that [_nl_bulleted_summary_for_fund] appends for the deal
    factor (lines 265-273), if any, and the condition of line 276 under
    which its conclusion reports a deal-type misalignment. *)
Definition deal_bullet (deal : Subscore) : option string :=
  if applied deal then
    Some (_deal_match_nuance (company_deal_type_of deal)
            (fund_deal_types_of deal) (raw_of deal))
  else None.

Definition deal_misaligned (deal : Subscore) : bool :=
  applied deal && Qle_bool (default 0 (raw_of deal)) 0.

(** ** Notions used in the statements *)

(** What a subscore adds to the composite score: [weight * raw] when the
    factor is applied, nothing otherwise. *)
Definition factor_contribution (s : Subscore) : Q :=
  match raw_of s with
  | Some r => weight_of s * r
  | None => 0
  end.

Definition contribution_sum (subs : Subscores) : Q :=
  factor_contribution (industry subs) + factor_contribution (region subs)
  + factor_contribution (revenue subs) + factor_contribution (employees subs)
  + factor_contribution (deal subs).

(** What every block of [score_with_breakdown] does to the running total: it
    adds the contribution of the subscore it stores, which lies between 0 and
    the factor's weight. *)
Definition step_ok (w : Q) (step : Q -> Subscore * Q) : Prop :=
  forall t,
    snd (step t) == t + factor_contribution (fst (step t)) /\
    0 <= factor_contribution (fst (step t)) <= w /\
    weight_of (fst (step t)) = w.

(** The company's range lies within the fund's focus range on both bounds; a
    bound that is unset on either side constrains nothing. *)
Definition lower_bound_ok (company focus : Range) : Prop :=
  match rmin company, rmin focus with
  | Some c, Some f => (f <= c)%Z
  | _, _ => True
  end.

Definition upper_bound_ok (company focus : Range) : Prop :=
  match rmax company, rmax focus with
  | Some c, Some f => (c <= f)%Z
  | _, _ => True
  end.

Definition fits_within (company focus : Range) : Prop :=
  lower_bound_ok company focus /\ upper_bound_ok company focus.

(** The ranked funds that clear the 0.2 threshold, as shortlist entries. *)
Definition ranked_above_threshold (p : CompanyProfile) (funds : list Fund)
    : list ShortlistEntry :=
  List.filter above_threshold
    (entry_of p <$> query_pe_db (criteria_of p) funds).

(** The shortlist for [top_k] has at most [top_k] entries, each scoring at
    least 0.2, and is a subsequence of the ranking above the threshold. *)
Definition shortlist_within_top_k (p : CompanyProfile) (funds : list Fund)
    (top_k : Z) : Prop :=
  let out := shortlist_pe_funds p funds top_k in
  (Z.of_nat (length out) <= top_k)%Z /\
  Forall (fun x => 2 # 10 <= e_score x) out /\
  sublist out (ranked_above_threshold p funds).

(** A profile from which nothing was extracted. *)
Definition empty_profile : CompanyProfile := mkProfile [] [] None None.

(** No factor of a ranked fund is applied and its score is 0. *)
Definition nothing_applied (r : Scored Fund) : Prop :=
  applied (industry (subscores r)) = false /\
  applied (region (subscores r)) = false /\
  applied (revenue (subscores r)) = false /\
  applied (employees (subscores r)) = false /\
  applied (deal (subscores r)) = false /\
  score r == 0.

(** The degenerate outcome for the empty profile: nothing applied for any
    fund, and an empty shortlist. *)
Definition degenerate_outcome (funds : list Fund) (top_k : Z) : Prop :=
  Forall nothing_applied (query_pe_db (criteria_of empty_profile) funds) /\
  shortlist_pe_funds empty_profile funds top_k = [].

(** The fund lists a region, or a deal type, up to case. *)
Definition lists_region (name : string) (f : Fund) : bool :=
  bool_decide (name ∈ Str.lower <$> f_regions f).

Definition lists_deal_type (name : string) (f : Fund) : bool :=
  bool_decide (name ∈ Str.lower <$> f_deal_types f).

(** What the scoring engine does with a ranked fund under the criteria of
    the empty profile. *)
Definition empty_profile_scored (r : Scored Fund) : Prop :=
  applied (industry (subscores r)) = false /\
  applied (revenue (subscores r)) = false /\
  applied (employees (subscores r)) = false /\
  applied (region (subscores r)) = true /\
  applied (deal (subscores r)) = true /\
  score r == (2 # 10) * Qof_bool (lists_region "us" (match_ r))
             + (1 # 10) * Qof_bool (lists_deal_type "buyout" (match_ r)).

(** The sum of the ["contribution"] fields that the subscores display; a
    subscore that is not applied has none. *)
Definition displayed_contribution (s : Subscore) : Q :=
  default 0 (contribution_of s).

Definition displayed_sum (subs : Subscores) : Q :=
  displayed_contribution (industry subs) + displayed_contribution (region subs)
  + displayed_contribution (revenue subs)
  + displayed_contribution (employees subs)
  + displayed_contribution (deal subs).

(** Half-way between two neighbouring multiples of 1/10000: where the
    rounding to four decimals is decided by the last bit of the binary
    float, which exact rationals do not have. *)
Definition decimal_tie (q : Q) : Prop :=
  exists n : Z, 2 * (q * 10000) == inject_Z (2 * n + 1).

(** The weight of a factor if it is applied, 0 otherwise. *)
Definition applied_weight (s : Subscore) : Q :=
  if applied s then weight_of s else 0.

Definition applied_weight_sum (subs : Subscores) : Q :=
  applied_weight (industry subs) + applied_weight (region subs)
  + applied_weight (revenue subs) + applied_weight (employees subs)
  + applied_weight (deal subs).

(** A block with a 0-or-1 raw score adds to the total what its subscore
    displays, an even number of ten-thousandths. *)
Definition binary_step (step : Q -> Subscore * Q) : Prop :=
  forall t, exists m : Z,
    Z.even m = true /\
    displayed_contribution (fst (step t)) == m # 10000 /\
    snd (step t) == t + (m # 10000).

(** The funds of a dataset that clear the 0.2 threshold under the criteria of
    a profile, in dataset order. *)
Definition clears_threshold (p : CompanyProfile) (f : Fund) : bool :=
  Qle_bool (2 # 10) (fst (score_with_breakdown (env_of (criteria_of p)) f)).

(** Descending order of the entries' scores. *)
Definition entry_ge (a b : ShortlistEntry) : Prop := e_score b <= e_score a.

(** A text in the form [_clean_text] leaves it in: its only whitespace
    characters are single spaces between other characters. *)
Definition starts_space (s : string) : bool :=
  match s with
  | EmptyString => false
  | String c _ => is_space c
  end.

Fixpoint ends_space (s : string) : bool :=
  match s with
  | EmptyString => false
  | String c EmptyString => is_space c
  | String _ r => ends_space r
  end.

Fixpoint single_spaced (s : string) : bool :=
  match s with
  | EmptyString => true
  | String c r =>
      (if is_space c then Ascii.eqb c " " && negb (starts_space r) else true)
      && single_spaced r
  end.

Definition clean (s : string) : bool :=
  single_spaced s && negb (starts_space s) && negb (ends_space s).

(** The characters of a text that are not whitespace, in order. *)
Fixpoint non_space (s : string) : string :=
  match s with
  | EmptyString => EmptyString
  | String c r => if is_space c then non_space r else String c (non_space r)
  end.

(** The text holds no wide whitespace character. *)
Definition no_wide_space (s : string) : bool :=
  forallb (fun w => negb (Str.contains w s)) wide_spaces.

(** The normal form of [_clean_text]: the only whitespace characters are
    single spaces between other characters. *)
Definition normal_form (s : string) : bool := clean s && no_wide_space s.

(** The characters of a text that are not whitespace, wide or not, in
    order. *)
Definition visible (s : string) : string := non_space (narrow s).

(** No byte of the text is an ASCII whitespace character. *)
Fixpoint tight (w : string) : bool :=
  match w with
  | EmptyString => true
  | String c r => negb (is_space c) && tight r
  end.

(** A text that is empty or starts with a slash: what follows the host in a
    url. *)
Definition path_like (rest : string) : Prop :=
  rest = "" \/ exists r, rest = String "/" r.

(** No occurrence of [pat] in [u +:+ v] starts within [u]. *)
Fixpoint clear_of (pat u v : string) : Prop :=
  match u with
  | EmptyString => True
  | String c u' =>
      String.prefix pat (String c (u' +:+ v)) = false /\ clear_of pat u' v
  end.

(** *** Notions of the heap model *)

(** The fund dict at [l] in [h] holds the record [j]: the name, and under
    each key that the record has an object with the record's value. *)
Definition key_holds {A : Type} (h : Heap) (mk : A -> Obj) (o : option loc)
    (v : option A) : Prop :=
  match o, v with
  | Some l, Some x => h !! l = Some (mk x)
  | None, None => True
  | _, _ => False
  end.

Definition holds (h : Heap) (l : loc) (j : FundJson) : Prop :=
  exists d,
    h !! l = Some (OFund d) /\
    d_name d = j_name j /\
    key_holds h OStrings (d_industries d) (j_industries j) /\
    key_holds h OStrings (d_regions d) (j_regions j) /\
    key_holds h ORange (d_revenue_focus_usd d) (j_revenue_focus_usd j) /\
    key_holds h ORange (d_employee_focus d) (j_employee_focus j) /\
    key_holds h OStrings (d_deal_types d) (j_deal_types j).

(** The reference that a subscore dict stores, if it stores one. *)
Definition fund_ref (s : SubscoreDict) : option loc :=
  match s with
  | NotAppliedD _ => None
  | IndustryD _ _ _ _ _ _ l | RegionD _ _ _ _ _ l
  | RangeD _ _ _ _ l _ _ | DealD _ _ l _ _ => Some l
  end.

(** The subscore under [key] in the [subs] dict at [subs] refers to the
    object that the fund dict has under [field], when the fund dict has
    one and the subscore refers to anything. *)
Definition shares (h : Heap) (subs : loc) (key : string) (d : FundDict)
    (field : FundDict -> option loc) : Prop :=
  exists entries l s,
    h !! subs = Some (OSubs entries) /\ entries !! key = Some l /\
    h !! l = Some (OSub s) /\
    forall own ref, field d = Some own -> fund_ref s = Some ref -> ref = own.

(** The result at [r] belongs to the fund dict at its ["match"] key: its
    subscores refer to that dict's own lists and dicts. *)
Definition aliases (h : Heap) (r : loc) : Prop :=
  exists rd d,
    h !! r = Some (OResult rd) /\ h !! rd_match rd = Some (OFund d) /\
    shares h (rd_subscores rd) "industry" d d_industries /\
    shares h (rd_subscores rd) "region" d d_regions /\
    shares h (rd_subscores rd) "revenue" d d_revenue_focus_usd /\
    shares h (rd_subscores rd) "employees" d d_employee_focus /\
    shares h (rd_subscores rd) "deal" d d_deal_types.

(** The run of [m] from [h] returns, with a result and a heap that satisfy
    [post]. *)
Definition wp {A : Type} (m : M A) (h : Heap) (post : A -> Heap -> Prop)
    : Prop :=
  exists a h', m h = Some (a, h') /\ post a h'.

(** Every object of [g] but the one at [l0] is in [g'] as it is in [g]. *)
Definition keeps (l0 : loc) (g g' : Heap) : Prop :=
  forall l o, l <> l0 -> g !! l = Some o -> g' !! l = Some o.

(** The [subs] dict at [l0] has under [key] a subscore dict that reads as
    [sub] and that refers to the fund dict's own object under [field]. *)
Definition sub_ok (g : Heap) (l0 : loc) (d : FundDict) (key : string)
    (field : FundDict -> option loc) (sub : Subscore) : Prop :=
  exists es l s,
    g !! l0 = Some (OSubs es) /\ es !! key = Some l /\ l <> l0 /\
    g !! l = Some (OSub s) /\ read_sub g s = Some sub /\
    forall own ref, field d = Some own -> fund_ref s = Some ref -> ref = own.

(** The result at [r] is the one of the fund dict at [f], which holds [j]:
    it reads as the result of the value model, and its subscores refer to
    the fund dict's own objects. *)
Definition result_ok (env : Env) (g : Heap) (r : loc) (f : loc)
    (j : FundJson) : Prop :=
  exists rd,
    g !! r = Some (OResult rd) /\ rd_match rd = f /\
    rd_score rd = fst (score_with_breakdown env (fund_of_json j)) /\
    read_result g r
    = Some (score_fund env (fund_of_json j) (fund_of_json j)) /\
    aliases g r.

(** What a block of [score_with_breakdown] leaves: the new [total], the
    heap [g] but for the [subs] dict at [l0], and in that dict the
    subscore of the value model under [key]; [r] is the block of the value
    model. *)
Definition block_post (g : Heap) (l0 : loc) (es : gmap string loc)
    (d : FundDict) (key : string) (field : FundDict -> option loc)
    (r : Subscore * Q) (total' : Q) (g' : Heap) : Prop :=
  total' = snd r /\ keeps l0 g g' /\
  (exists l', g' !! l0 = Some (OSubs (<[key := l']> es))) /\
  sub_ok g' l0 d key field (fst r).

(** What the blocks of [score_with_breakdown] rely on: the fund dict at
    [f] holds [j], and the [subs] dict at [l0] has the entries [es]. *)
Definition scoring (g : Heap) (f l0 : loc) (d : FundDict) (j : FundJson)
    (es : gmap string loc) : Prop :=
  g !! f = Some (OFund d) /\ g !! l0 = Some (OSubs es) /\
  key_holds g OStrings (d_industries d) (j_industries j) /\
  key_holds g OStrings (d_regions d) (j_regions j) /\
  key_holds g ORange (d_revenue_focus_usd d) (j_revenue_focus_usd j) /\
  key_holds g ORange (d_employee_focus d) (j_employee_focus j) /\
  key_holds g OStrings (d_deal_types d) (j_deal_types j).

(** Every object of [g] that is not a list of references is in [g'] as it
    is in [g]. *)
Definition keeps_dicts (g g' : Heap) : Prop :=
  forall l o, g !! l = Some o -> (forall a, o <> OList a) -> g' !! l = Some o.

(** ** Example data *)

Module Examples.
Definition fundA : Fund :=
  mkFund "FundA" ["Software"] ["US"] no_range no_range ["Buyout"].
Definition fundB : Fund :=
  mkFund "FundB" ["Industrial"] ["Europe"] no_range no_range ["Growth"].
(** A fund with the focus range of the spec's revenue example. *)
Definition fundC : Fund :=
  mkFund "FundC" [] [] (mkRange (Some 10000000%Z) (Some 50000000%Z))
    no_range [].
Definition point_revenue : Range :=
  mkRange (Some 20000000%Z) (Some 20000000%Z).
Definition point_criteria : Criteria :=
  mkCriteria [] [] (Some point_revenue) (Some (mkRange (Some 50%Z) None))
    None.
(** Four funds that all match [software_profile] below. *)
Definition us_buyout (name : string) : Fund :=
  mkFund name ["Software"] ["US"] no_range no_range ["Buyout"].
Definition us_funds : list Fund :=
  [us_buyout "F1"; us_buyout "F2"; us_buyout "F3"; us_buyout "F4"].
Definition software_profile : CompanyProfile :=
  mkProfile ["Software"] [Some "Austin, Texas"] (Some point_revenue) None.
End Examples.

(** * Properties *)

(** ** Rounding *)

Lemma round_half_even_bounds (q : Q) (a b : Z) :
  inject_Z a <= q -> q <= inject_Z b ->
  (a <= round_half_even q <= b)%Z.
Proof.
  destruct q as [n d]. unfold Qle, round_half_even. cbn [Qnum Qden inject_Z].
  rewrite !Z.mul_1_r. intros Ha Hb.
  pose proof (Z.div_mod n (Zpos d) ltac:(lia)) as Hdm.
  pose proof (Z.mod_pos_bound n (Zpos d) ltac:(lia)) as Hm.
  assert (a <= n / Zpos d)%Z by (apply Z.div_le_lower_bound; lia).
  assert (n / Zpos d <= b)%Z by (apply Z.div_le_upper_bound; lia).
  assert (0 < n mod Zpos d -> n / Zpos d < b)%Z by nia.
  destruct (Z.compare_spec (2 * (n mod Zpos d)) (Zpos d));
    [destruct (Z.even _)|..]; lia.
Qed.

Lemma round4_bounds (q : Q) : 0 <= q -> q <= 1 -> 0 <= round4 q <= 1.
Proof.
  intros H0 H1. unfold round4.
  destruct (round_half_even_bounds (q * 10000) 0 10000) as [Hl Hu].
  - change (inject_Z 0) with 0. nra.
  - change (inject_Z 10000) with 10000. nra.
  - unfold Qle. cbn [Qnum Qden]. lia.
Qed.

Lemma round_half_even_proper (q q' : Q) :
  q == q' -> round_half_even q = round_half_even q'.
Proof.
  destruct q as [n d], q' as [n' d']. unfold Qeq, round_half_even.
  cbn [Qnum Qden]. intros E.
  assert (n / Zpos d = n' / Zpos d')%Z as Hfl.
  { rewrite <- (Z.div_mul_cancel_r n (Zpos d) (Zpos d')) by lia.
    rewrite <- (Z.div_mul_cancel_r n' (Zpos d') (Zpos d)) by lia.
    rewrite E. f_equal. lia. }
  rewrite !Z.mod_eq by lia. rewrite <- Hfl.
  set (fl := (n / Zpos d)%Z).
  assert ((2 * (n - Zpos d * fl) ?= Zpos d)
          = (2 * (n' - Zpos d' * fl) ?= Zpos d'))%Z as ->; [|done].
  rewrite <- (Zcompare_mult_compat d' (2 * (n - _)) (Zpos d)).
  rewrite <- (Zcompare_mult_compat d (2 * (n' - _)) (Zpos d')).
  f_equal; lia.
Qed.

#[global] Instance round4_proper : Proper (Qeq ==> Qeq) round4.
Proof.
  intros q q' E. unfold round4.
  rewrite (round_half_even_proper (q * 10000) (q' * 10000)); [done|].
  by rewrite E.
Qed.

(** ** The five factors *)

Lemma Qof_bool_bounds (b : bool) : 0 <= Qof_bool b <= 1.
Proof. destruct b; cbn; split; discriminate. Qed.

Lemma Qof_nat_nonneg (n : nat) : 0 <= Qof_nat n.
Proof. unfold Qof_nat, Qle. cbn. lia. Qed.

Lemma Qof_nat_pos (n : nat) : (0 < n)%nat -> 0 < Qof_nat n.
Proof. unfold Qof_nat, Qlt. cbn. lia. Qed.

Lemma industry_raw_bounds (o n : nat) :
  0 <= Qmin 1 (Qof_nat o / Qof_nat (max 1 n)) <= 1.
Proof.
  split; [apply Q.min_glb; [discriminate|] | apply Q.le_min_l].
  apply Qle_shift_div_l; [apply Qof_nat_pos; lia|].
  rewrite Qmult_0_l. apply Qof_nat_nonneg.
Qed.

Lemma scaled_bounds (w r : Q) : 0 <= w -> 0 <= r <= 1 -> 0 <= w * r <= w.
Proof. intros ? [? ?]. split; nra. Qed.

Lemma industry_factor_ok env f : step_ok weights.industry (industry_factor env f).
Proof.
  intros t. unfold industry_factor. case_bool_decide; cbn [fst snd].
  - unfold factor_contribution. cbn [raw_of weight_of].
    split; [reflexivity|]. split; [|reflexivity].
    apply scaled_bounds; [discriminate | apply industry_raw_bounds].
  - unfold factor_contribution. cbn. split; [ring|]. split; [|reflexivity].
    split; discriminate.
Qed.

Lemma region_factor_ok env f : step_ok weights.region (region_factor env f).
Proof.
  intros t. unfold region_factor. case_bool_decide; cbn [fst snd].
  - unfold factor_contribution. cbn [raw_of weight_of].
    split; [reflexivity|]. split; [|reflexivity].
    apply scaled_bounds; [discriminate | apply Qof_bool_bounds].
  - unfold factor_contribution. cbn. split; [ring|]. split; [|reflexivity].
    split; discriminate.
Qed.

Lemma range_factor_ok crit focus w :
  0 <= w -> step_ok w (range_factor crit focus w).
Proof.
  intros Hw t. unfold range_factor. destruct crit as [r|]; cbn [fst snd].
  - unfold factor_contribution. cbn [raw_of weight_of].
    split; [reflexivity|]. split; [|reflexivity].
    apply scaled_bounds; [done | apply Qof_bool_bounds].
  - unfold factor_contribution. cbn. split; [ring|]. split; [|reflexivity].
    split; [discriminate | done].
Qed.

Lemma deal_factor_ok env f : step_ok weights.deal (deal_factor env f).
Proof.
  intros t. unfold deal_factor. case_bool_decide; cbn [fst snd].
  - unfold factor_contribution. cbn [raw_of weight_of].
    split; [reflexivity|]. split; [|reflexivity].
    apply scaled_bounds; [discriminate | apply Qof_bool_bounds].
  - unfold factor_contribution. cbn. split; [ring|]. split; [|reflexivity].
    split; discriminate.
Qed.

(** [run_factors] spelled out block by block. *)
Lemma run_factors_eq env f :
  run_factors env f =
    let a := industry_factor env f 0 in
    let b := region_factor env f (snd a) in
    let c := revenue_factor env f (snd b) in
    let d := employees_factor env f (snd c) in
    let e := deal_factor env f (snd d) in
    (mkSubs (fst a) (fst b) (fst c) (fst d) (fst e), snd e).
Proof.
  unfold run_factors.
  destruct (industry_factor env f 0) as [a ta]. cbn [fst snd].
  destruct (region_factor env f ta) as [b tb]. cbn [fst snd].
  destruct (revenue_factor env f tb) as [c tc]. cbn [fst snd].
  destruct (employees_factor env f tc) as [d td]. cbn [fst snd].
  destruct (deal_factor env f td) as [e te]. reflexivity.
Qed.

(** The total is the sum of the five contributions, and lies in [0, 1]. *)
Lemma run_factors_total env f :
  snd (run_factors env f) == contribution_sum (fst (run_factors env f)) /\
  0 <= snd (run_factors env f) <= 1.
Proof.
  rewrite run_factors_eq. cbv zeta. cbn [fst snd]. unfold contribution_sum.
  cbn [industry region revenue employees deal].
  pose proof (industry_factor_ok env f 0) as (Ea & Ba & _).
  set (a := industry_factor env f 0) in *.
  pose proof (region_factor_ok env f (snd a)) as (Eb & Bb & _).
  set (b := region_factor env f (snd a)) in *.
  pose proof (range_factor_ok (rev env) (f_revenue_focus_usd f)
                weights.revenue ltac:(discriminate) (snd b)) as (Ec & Bc & _).
  fold (revenue_factor env f) in Ec, Bc.
  set (c := revenue_factor env f (snd b)) in *.
  pose proof (range_factor_ok (emp env) (f_employee_focus f)
                weights.employees ltac:(discriminate) (snd c)) as (Ed & Bd & _).
  fold (employees_factor env f) in Ed, Bd.
  set (d := employees_factor env f (snd c)) in *.
  pose proof (deal_factor_ok env f (snd d)) as (Ee & Be & _).
  set (e := deal_factor env f (snd d)) in *.
  unfold weights.industry, weights.region, weights.revenue,
    weights.employees, weights.deal in *.
  split; [|split]; lra.
Qed.

(** ** The stable descending sort *)

Section SortedFacts.
Context {A : Type} (key : A -> Q).

Lemma key_lt_spec x y : key_lt key x y = true <-> key x < key y.
Proof.
  unfold key_lt. rewrite negb_true_iff, <- not_true_iff_false, Qle_bool_iff.
  split; [apply Qnot_le_lt | apply Qlt_not_le].
Qed.

Lemma key_lt_false x y : key_lt key x y = false <-> key y <= key x.
Proof.
  unfold key_lt. rewrite negb_false_iff. apply Qle_bool_iff.
Qed.

Lemma insert_desc_perm x l : insert_desc key x l ≡ₚ x :: l.
Proof.
  induction l as [|y r IH]; cbn; [done|].
  destruct (key_lt key x y); [|done].
  rewrite IH. apply Permutation_swap.
Qed.

Lemma sorted_desc_perm l : sorted_desc key l ≡ₚ l.
Proof.
  induction l as [|x r IH]; cbn; [done|].
  fold (sorted_desc key r). by rewrite insert_desc_perm, IH.
Qed.

Lemma insert_desc_HdRel a x l :
  key_ge key a x -> HdRel (key_ge key) a l -> HdRel (key_ge key) a (insert_desc key x l).
Proof.
  intros Hax Hal. destruct l as [|y r]; cbn; [by constructor|].
  destruct (key_lt key x y); constructor; [|done].
  by inversion Hal.
Qed.

Lemma insert_desc_Sorted x l :
  Sorted (key_ge key) l -> Sorted (key_ge key) (insert_desc key x l).
Proof.
  induction 1 as [|y r Hr IH Hy]; cbn; [by repeat constructor|].
  destruct (key_lt key x y) eqn:E.
  - constructor; [done|]. apply insert_desc_HdRel; [|done].
    apply key_lt_spec in E. by apply Qlt_le_weak.
  - apply key_lt_false in E. repeat constructor; done.
Qed.

Lemma sorted_desc_Sorted l : Sorted (key_ge key) (sorted_desc key l).
Proof.
  induction l as [|x r IH]; cbn; [constructor|].
  by apply insert_desc_Sorted.
Qed.

#[local] Instance key_ge_trans : Transitive (key_ge key).
Proof. intros a b c Hab Hbc. unfold key_ge in *. by eapply Qle_trans. Qed.

Lemma sorted_desc_StronglySorted l :
  StronglySorted (key_ge key) (sorted_desc key l).
Proof. apply Sorted_StronglySorted; [apply _ | apply sorted_desc_Sorted]. Qed.

(** Stability: the elements with a given key come out in the order they
    went in. *)
Lemma insert_desc_with_key q x l :
  with_key key q (insert_desc key x l) = with_key key q (x :: l).
Proof.
  induction l as [|y r IH]; [done|]. cbn [insert_desc].
  destruct (key_lt key x y) eqn:E; [|done].
  unfold with_key in *. cbn [List.filter] in *. rewrite IH.
  destruct (Qeq_bool (key x) q) eqn:Ex, (Qeq_bool (key y) q) eqn:Ey; try done.
  apply Qeq_bool_iff in Ex, Ey. apply key_lt_spec in E.
  rewrite Ex, Ey in E. by apply Qlt_irrefl in E.
Qed.

Lemma sorted_desc_with_key q l : with_key key q (sorted_desc key l) = with_key key q l.
Proof.
  induction l as [|x r IH]; [done|]. cbn [sorted_desc foldr].
  fold (sorted_desc key r). rewrite insert_desc_with_key.
  unfold with_key in *. cbn [List.filter]. by rewrite IH.
Qed.

Lemma sorted_desc_length l : length (sorted_desc key l) = length l.
Proof. by rewrite sorted_desc_perm. Qed.
End SortedFacts.

(** ** The composite score *)

Lemma score_with_breakdown_eq env f :
  score_with_breakdown env f
  = (round4 (snd (run_factors env f)), fst (run_factors env f)).
Proof. unfold score_with_breakdown. by destruct (run_factors env f). Qed.

Lemma score_with_breakdown_sum env f :
  fst (score_with_breakdown env f)
  == round4 (contribution_sum (snd (score_with_breakdown env f))).
Proof.
  rewrite score_with_breakdown_eq. cbn [fst snd].
  apply round4_proper, run_factors_total.
Qed.

Lemma score_with_breakdown_bounds env f :
  0 <= fst (score_with_breakdown env f) <= 1.
Proof.
  rewrite score_with_breakdown_eq. cbn [fst].
  apply round4_bounds; apply run_factors_total.
Qed.

(** The subscores do not depend on the running total. *)
Lemma subscores_eq env f :
  snd (score_with_breakdown env f)
  = mkSubs (fst (industry_factor env f 0)) (fst (region_factor env f 0))
      (fst (revenue_factor env f 0)) (fst (employees_factor env f 0))
      (fst (deal_factor env f 0)).
Proof.
  rewrite score_with_breakdown_eq, run_factors_eq. cbv zeta. cbn [fst snd].
  f_equal.
  - unfold region_factor. by case_bool_decide.
  - unfold revenue_factor, range_factor. by destruct (rev env).
  - unfold employees_factor, range_factor. by destruct (emp env).
  - unfold deal_factor. by case_bool_decide.
Qed.

(** C3: for every criteria and every fund record the composite score lies in
    [0, 1]; so does the score of every element of the ranking. *)
Theorem composite_score_in_unit_interval (criteria : Criteria)
    (funds : list Fund) :
  (forall f : Fund,
      0 <= fst (score_with_breakdown (env_of criteria) f) <= 1) /\
  Forall (fun r => 0 <= score r <= 1) (query_pe_db criteria funds).
Proof.
  split; [intros f; apply score_with_breakdown_bounds|].
  unfold query_pe_db. rewrite sorted_desc_perm.
  apply Forall_fmap, Forall_forall. intros f _. cbn.
  apply score_with_breakdown_bounds.
Qed.

(** ** Range factors *)

Lemma bound_ge_spec (r focus : Range) :
  bound_ge (rmin r) (rmin focus) = true <-> lower_bound_ok r focus.
Proof.
  unfold bound_ge, lower_bound_ok.
  destruct (rmin r), (rmin focus); rewrite ?Z.leb_le; tauto.
Qed.

Lemma bound_le_spec (r focus : Range) :
  bound_le (rmax r) (rmax focus) = true <-> upper_bound_ok r focus.
Proof.
  unfold bound_le, upper_bound_ok.
  destruct (rmax r), (rmax focus); rewrite ?Z.leb_le; tauto.
Qed.

Lemma range_factor_raw (r focus : Range) (w t : Q) :
  let s := fst (range_factor (Some r) focus w t) in
  applied s = true /\
  (raw_of s = Some 1 <-> fits_within r focus) /\
  (raw_of s = Some 0 <-> ~ fits_within r focus).
Proof.
  cbn. unfold fits_within.
  rewrite <- bound_ge_spec, <- bound_le_spec.
  destruct (bound_ge _ _), (bound_le _ _); cbn;
    (split; [done|]); split; split; intros H;
    solve [ done | discriminate H | destruct H; done
          | intros []; done | exfalso; apply H; done ].
Qed.

(** C4: when the criteria hold a revenue range, the revenue factor is applied
    and its raw score is 1 if and only if the company's range lies within the
    fund's focus range on both bounds, an unset bound on either side
    constraining nothing; otherwise it is 0. The same holds for the employee
    range. *)
Theorem range_raw_iff_within (criteria : Criteria) (f : Fund) :
  let subs := snd (score_with_breakdown (env_of criteria) f) in
  (forall r, c_revenue_usd criteria = Some r ->
     applied (revenue subs) = true /\
     (raw_of (revenue subs) = Some 1
        <-> fits_within r (f_revenue_focus_usd f)) /\
     (raw_of (revenue subs) = Some 0
        <-> ~ fits_within r (f_revenue_focus_usd f))) /\
  (forall r, c_employees criteria = Some r ->
     applied (employees subs) = true /\
     (raw_of (employees subs) = Some 1
        <-> fits_within r (f_employee_focus f)) /\
     (raw_of (employees subs) = Some 0
        <-> ~ fits_within r (f_employee_focus f))).
Proof.
  cbv zeta. rewrite subscores_eq. cbn [revenue employees].
  unfold revenue_factor, employees_factor. cbn [env_of rev emp].
  split; intros r ->; apply range_factor_raw.
Qed.

(** The theorem at the criteria and fund of the spec's revenue example. *)
Lemma range_raw_iff_within_witness :
  c_revenue_usd Examples.point_criteria = Some Examples.point_revenue /\
  raw_of (revenue (snd (score_with_breakdown
                          (env_of Examples.point_criteria) Examples.fundC)))
  = Some 1.
Proof.
  split; [reflexivity|].
  destruct (range_raw_iff_within Examples.point_criteria Examples.fundC)
    as [Hrev _].
  destruct (Hrev Examples.point_revenue eq_refl) as (_ & Hfit & _).
  apply Hfit. vm_compute. split; discriminate.
Defined.

(** C2: the revenue scorer on the point range 20000000..20000000 against the
    focus 10000000..50000000: [binary_fit] is 1 and the coverage ratio is 0,
    not close to 1: the intersection of a point interval has length 0, and
    the epsilon only replaces the zero length in the denominator. *)
Theorem point_revenue_coverage :
  let s := revenue (snd (score_with_breakdown
                           (env_of Examples.point_criteria) Examples.fundC)) in
  binary_fit_of s = Some 1 /\ coverage_ratio_of s = Some (Some 0).
Proof. vm_compute. split; reflexivity. Qed.

(** The coverage of a point interval is 0 against every fund range. *)
Lemma point_coverage_zero (x fmin fmax : Z) :
  exists c, _range_coverage (Some x) (Some x) (Some fmin) (Some fmax) = Some c
            /\ c == 0.
Proof.
  unfold _range_coverage. rewrite Z.ltb_irrefl. cbn [orb].
  destruct (fmax <? fmin)%Z; [by exists 0|].
  eexists; split; [reflexivity|].
  rewrite Z.sub_diag.
  assert (Qmax 0 (inject_Z (Z.min x fmax - Z.max x fmin)) == 0) as ->.
  { apply Q.max_l. unfold Qle. cbn. lia. }
  assert (0 / Qmax (1 # 1000000000) (inject_Z 0) == 0) as -> by (unfold Qdiv; ring).
  done.
Qed.

(** ** Factors that are absent from the criteria *)

Lemma not_applied_contribution (s : Subscore) :
  applied s = false -> factor_contribution s = 0.
Proof. by destruct s. Qed.

(** C7: a factor whose criterion is absent (no industries, no regions, no
    revenue range, no employee range, no deal type) gets the subscore
    [{"applied": False, "weight": w}], its block leaves the running total as
    it found it, and the composite score is the rounded sum of the
    contributions, in which a subscore that is not applied counts for 0. *)
Theorem absent_factor_contributes_nothing (criteria : Criteria) (f : Fund) :
  let env := env_of criteria in
  let subs := snd (score_with_breakdown env f) in
  (c_industries criteria = [] ->
     industry subs = NotApplied weights.industry /\
     forall t, snd (industry_factor env f t) = t) /\
  (c_regions criteria = [] ->
     region subs = NotApplied weights.region /\
     forall t, snd (region_factor env f t) = t) /\
  (c_revenue_usd criteria = None ->
     revenue subs = NotApplied weights.revenue /\
     forall t, snd (revenue_factor env f t) = t) /\
  (c_employees criteria = None ->
     employees subs = NotApplied weights.employees /\
     forall t, snd (employees_factor env f t) = t) /\
  (default "" (c_deal_type criteria) = "" ->
     deal subs = NotApplied weights.deal /\
     forall t, snd (deal_factor env f t) = t) /\
  (forall s, applied s = false -> factor_contribution s = 0) /\
  fst (score_with_breakdown env f) == round4 (contribution_sum subs).
Proof.
  cbv zeta.
  split; [|split; [|split; [|split; [|split; [|split]]]]];
    [..| apply not_applied_contribution | apply score_with_breakdown_sum].
  all: rewrite subscores_eq; cbn [industry region revenue employees deal].
  all: unfold industry_factor, region_factor, revenue_factor,
         employees_factor, range_factor, deal_factor.
  all: cbn [env_of inds regs rev emp deal_].
  all: intros ->; cbn; done.
Qed.

(** The theorem at criteria with nothing in them. *)
Lemma absent_factor_contributes_nothing_witness :
  let criteria := mkCriteria [] [] None None None in
  (c_industries criteria = [] /\ c_regions criteria = [] /\
   c_revenue_usd criteria = None /\ c_employees criteria = None /\
   default "" (c_deal_type criteria) = "") /\
  snd (score_with_breakdown (env_of criteria) Examples.fundA)
  = mkSubs (NotApplied weights.industry) (NotApplied weights.region)
      (NotApplied weights.revenue) (NotApplied weights.employees)
      (NotApplied weights.deal).
Proof.
  cbv zeta. split; [repeat split|].
  destruct (absent_factor_contributes_nothing
              (mkCriteria [] [] None None None) Examples.fundA)
    as (Hi & Hr & Hv & He & Hd & _).
  destruct (Hi eq_refl) as [Ei _], (Hr eq_refl) as [Er _],
    (Hv eq_refl) as [Ev _], (He eq_refl) as [Ee _], (Hd eq_refl) as [Ed _].
  destruct (snd (score_with_breakdown _ _)); cbn in *. congruence.
Defined.

(** ** The ranking *)

(** C5: the ranking holds every fund of the dataset once, in descending order
    of the composite score, and among the funds with one score the order of
    the dataset is kept. *)
Theorem ranking_sorted_stable (criteria : Criteria) (funds : list Fund) :
  let scored := (fun f => score_fund (env_of criteria) f f) <$> funds in
  let ranked := query_pe_db criteria funds in
  ranked ≡ₚ scored /\
  match_ <$> ranked ≡ₚ funds /\
  StronglySorted (key_ge score) ranked /\
  forall q, with_key score q ranked = with_key score q scored.
Proof.
  cbv zeta. unfold query_pe_db. repeat split.
  - apply sorted_desc_perm.
  - rewrite sorted_desc_perm, <- list_fmap_compose.
    induction funds as [|f r IH]; cbn; [done | by constructor].
  - apply sorted_desc_StronglySorted.
  - intros q. apply sorted_desc_with_key.
Qed.

(** ** The shortlist *)

Section ListFacts.
Context {A B : Type}.

Lemma filter_sublist (p : A -> bool) (l1 l2 : list A) :
  sublist l1 l2 -> sublist (List.filter p l1) (List.filter p l2).
Proof.
  induction 1 as [|x l1 l2 _ IH|x l1 l2 _ IH]; cbn.
  - constructor.
  - destruct (p x); [by constructor | done].
  - destruct (p x); [by constructor | done].
Qed.

Lemma fmap_sublist (g : A -> B) (l1 l2 : list A) :
  sublist l1 l2 -> sublist (g <$> l1) (g <$> l2).
Proof. induction 1; cbn; by constructor. Qed.

Lemma filter_Forall (p : A -> bool) (l : list A) :
  Forall (fun x => p x = true) (List.filter p l).
Proof.
  induction l as [|x r IH]; cbn; [constructor|].
  destruct (p x) eqn:E; [by constructor | done].
Qed.

Lemma filter_none (p : A -> bool) (l : list A) :
  Forall (fun x => p x = false) l -> List.filter p l = [].
Proof. induction 1 as [|x r E _ IH]; cbn; [done|]. by rewrite E. Qed.

(** On a list in which [p] can only turn from true to false, filtering
    commutes with taking a prefix. *)
Lemma filter_take_sorted (p : A -> bool) (l : list A) (n : nat) :
  StronglySorted (fun a b => p b = true -> p a = true) l ->
  List.filter p (take n l) = take n (List.filter p l).
Proof.
  intros Hs. revert n. induction Hs as [|x r Hr IH Hx]; intros n.
  - by destruct n.
  - destruct n as [|n]; [done|]. cbn. destruct (p x) eqn:E.
    + cbn. by rewrite IH.
    + assert (Forall (fun y => p y = false) r) as Hnone.
      { eapply Forall_impl; [exact Hx|]. cbn. intros y Hy.
        destruct (p y); [|done]. specialize (Hy eq_refl). congruence. }
      rewrite (filter_none p r Hnone), take_nil.
      apply filter_none, Forall_take, Hnone.
Qed.
End ListFacts.

Lemma slice_to_nonneg {A : Type} (n : Z) (l : list A) :
  (0 <= n)%Z -> slice_to n l = take (Z.to_nat n) l.
Proof. intros H. unfold slice_to. by rewrite (proj2 (Z.leb_le 0 n) H). Qed.

Lemma slice_to_sublist {A : Type} (n : Z) (l : list A) :
  sublist (slice_to n l) l.
Proof. unfold slice_to. destruct (0 <=? n)%Z; apply sublist_take. Qed.

Lemma above_threshold_entry_of p r :
  above_threshold (entry_of p r) = Qle_bool (2 # 10) (score r).
Proof. reflexivity. Qed.

(** Along the ranking, the entries above the threshold come first. *)
Lemma ranked_entries_sorted p criteria funds :
  StronglySorted
    (fun a b => above_threshold b = true -> above_threshold a = true)
    (entry_of p <$> query_pe_db criteria funds).
Proof.
  pose proof (sorted_desc_StronglySorted score
    ((fun f => score_fund (env_of criteria) f f) <$> funds)) as Hs.
  fold (query_pe_db criteria funds) in Hs.
  induction Hs as [|x r Hr IH Hx]; cbn; constructor; [done|].
  apply Forall_fmap. eapply Forall_impl; [exact Hx|].
  intros y Hy. unfold key_ge in Hy. cbn.
  rewrite !above_threshold_entry_of, !Qle_bool_iff.
  intros. by eapply Qle_trans.
Qed.

(** Filtering the over-fetched prefix and cutting at [top_k] is the same as
    cutting the filtered ranking at [top_k]. *)
Lemma shortlist_as_prefix p funds top_k :
  (0 <= top_k)%Z ->
  shortlist_pe_funds p funds top_k
  = take (Z.to_nat top_k) (ranked_above_threshold p funds).
Proof.
  intros Hk. unfold shortlist_pe_funds, ranked_above_threshold.
  rewrite !slice_to_nonneg by lia.
  rewrite fmap_take, filter_take_sorted by apply ranked_entries_sorted.
  rewrite take_take. f_equal. lia.
Qed.

(** C6: the shortlist holds only entries with score at least 0.2 and is a
    subsequence, in ranking order, of the ranking restricted to those
    scores, for every [top_k]; it has at most [top_k] entries when [top_k] is
    not negative. *)
Theorem shortlist_subsequence_bounded (p : CompanyProfile)
    (funds : list Fund) (top_k : Z) :
  let out := shortlist_pe_funds p funds top_k in
  Forall (fun x => 2 # 10 <= e_score x) out /\
  sublist out (ranked_above_threshold p funds) /\
  ((0 <= top_k)%Z -> shortlist_within_top_k p funds top_k).
Proof.
  cbv zeta.
  assert (sublist (shortlist_pe_funds p funds top_k)
            (ranked_above_threshold p funds)) as Hsub.
  { unfold shortlist_pe_funds, ranked_above_threshold.
    etransitivity; [apply slice_to_sublist|].
    apply filter_sublist, fmap_sublist, slice_to_sublist. }
  assert (Forall (fun x => 2 # 10 <= e_score x)
            (shortlist_pe_funds p funds top_k)) as Hall.
  { apply Forall_forall. intros x Hx.
    apply (elem_of_sublist _ _ _ Hx) in Hsub.
    unfold ranked_above_threshold in Hsub.
    pose proof (filter_Forall above_threshold
      (entry_of p <$> query_pe_db (criteria_of p) funds)) as Hf.
    rewrite Forall_forall in Hf. by apply Qle_bool_iff, Hf. }
  repeat split; try done.
  rewrite shortlist_as_prefix, length_take by done. lia.
Qed.

(** The theorem at the default [top_k]. *)
Lemma shortlist_subsequence_bounded_witness :
  (0 <= DEFAULT_TOP_K)%Z /\
  shortlist_within_top_k Examples.software_profile
    [Examples.fundB; Examples.fundA] DEFAULT_TOP_K.
Proof.
  split; [done|].
  apply (shortlist_subsequence_bounded Examples.software_profile
           [Examples.fundB; Examples.fundA] DEFAULT_TOP_K).
  done.
Defined.

(** Outside the counts: a negative [top_k] is not rejected, and Python's
    slices then drop elements from the end; with [top_k = -1] and four
    matching funds one entry is left. *)
Lemma shortlist_negative_top_k :
  ~ shortlist_within_top_k Examples.software_profile Examples.us_funds (-1).
Proof.
  unfold shortlist_within_top_k. cbv zeta. intros [Hlen _]. revert Hlen.
  vm_compute. intros H. by apply H.
Qed.

(** C9: for [top_k >= 1] the over-fetch pipeline of the code returns the
    same entries as filtering the whole ranking at 0.2 and keeping the first
    [top_k]. *)
Theorem overfetch_equals_full_filter (p : CompanyProfile) (funds : list Fund)
    (top_k : Z) :
  (1 <= top_k)%Z ->
  shortlist_pe_funds p funds top_k = shortlist_full_filter p funds top_k.
Proof. intros Hk. apply shortlist_as_prefix. lia. Qed.

Lemma overfetch_equals_full_filter_witness :
  (1 <= DEFAULT_TOP_K)%Z /\
  shortlist_pe_funds Examples.software_profile
    [Examples.fundB; Examples.fundA] DEFAULT_TOP_K
  = shortlist_full_filter Examples.software_profile
      [Examples.fundB; Examples.fundA] DEFAULT_TOP_K.
Proof.
  split; [done|].
  apply (overfetch_equals_full_filter Examples.software_profile
           [Examples.fundB; Examples.fundA] DEFAULT_TOP_K).
  done.
Defined.

(** ** The empty profile *)

Lemma env_empty_profile :
  env_of (criteria_of empty_profile) = mkEnv ∅ {["us"]} None None "buyout".
Proof.
  unfold env_of, criteria_of, empty_profile. cbn. by f_equal.
Qed.

Lemma singleton_overlap (x : string) (X : gset string) :
  (0 <? size ({[x]} ∩ X))%nat = bool_decide (x ∈ X).
Proof.
  case_bool_decide as Hx.
  - assert ({[x]} ∩ X = {[x]}) as E.
    { apply set_eq. intros y.
      rewrite elem_of_intersection, elem_of_singleton.
      split; [by intros [-> _] | by intros ->]. }
    by rewrite E, size_singleton.
  - assert ({[x]} ∩ X = ∅) as E.
    { apply set_eq. intros y.
      rewrite elem_of_intersection, elem_of_singleton, elem_of_empty.
      split; [by intros [-> ?] | done]. }
    by rewrite E, size_empty.
Qed.

Lemma industry_factor_absent env f t :
  inds env = ∅ -> industry_factor env f t = (NotApplied weights.industry, t).
Proof. intros E. unfold industry_factor. by case_bool_decide. Qed.

Lemma region_factor_applied env f t :
  regs env ≠ ∅ ->
  snd (region_factor env f t)
  = t + weights.region
        * Qof_bool (0 <? size (regs env
                                 ∩ list_to_set (Str.lower <$> f_regions f)))%nat
  /\ applied (fst (region_factor env f t)) = true.
Proof. intros E. unfold region_factor. by case_bool_decide. Qed.

Lemma deal_factor_applied env f t :
  deal_ env ≠ "" ->
  snd (deal_factor env f t)
  = t + weights.deal
        * Qof_bool (bool_decide (deal_ env ∈ Str.lower <$> f_deal_types f))
  /\ applied (fst (deal_factor env f t)) = true.
Proof. intros E. unfold deal_factor. by case_bool_decide. Qed.

Lemma empty_profile_score_fund (f : Fund) :
  let r := score_fund (env_of (criteria_of empty_profile)) f f in
  applied (industry (subscores r)) = false /\
  applied (revenue (subscores r)) = false /\
  applied (employees (subscores r)) = false /\
  applied (region (subscores r)) = true /\
  applied (deal (subscores r)) = true /\
  score r == (2 # 10) * Qof_bool (lists_region "us" f)
             + (1 # 10) * Qof_bool (lists_deal_type "buyout" f).
Proof.
  cbv zeta. unfold score_fund. cbn [subscores score].
  rewrite env_empty_profile.
  set (env := mkEnv ∅ {["us"]} None None "buyout").
  assert (regs env ≠ ∅) as Hregs by (cbn; apply non_empty_singleton_L).
  assert (deal_ env ≠ "") as Hdeal by done.
  rewrite subscores_eq. cbn [industry region revenue employees deal].
  rewrite (industry_factor_absent env f 0 eq_refl).
  split; [done|]. split; [done|]. split; [done|].
  split; [apply (region_factor_applied env f 0 Hregs)|].
  split; [apply (deal_factor_applied env f 0 Hdeal)|].
  rewrite score_with_breakdown_eq, run_factors_eq. cbv zeta. cbn [fst snd].
  rewrite (proj1 (deal_factor_applied env f _ Hdeal)).
  unfold employees_factor, revenue_factor, range_factor. cbn [rev emp env snd].
  rewrite (proj1 (region_factor_applied env f _ Hregs)).
  rewrite (industry_factor_absent env f 0 eq_refl). cbn [snd regs deal_ env].
  rewrite singleton_overlap.
  rewrite (bool_decide_ext _ _ (elem_of_list_to_set "us" _)).
  unfold lists_region, lists_deal_type.
  destruct (bool_decide ("us" ∈ _)), (bool_decide ("buyout" ∈ _));
    vm_compute; reflexivity.
Qed.

Lemma empty_profile_ranked (funds : list Fund) :
  Forall (fun r => empty_profile_scored r /\ match_ r ∈ funds)
    (query_pe_db (criteria_of empty_profile) funds).
Proof.
  unfold query_pe_db. rewrite sorted_desc_perm.
  apply Forall_fmap, Forall_forall. intros f Hf. split; [|done].
  apply empty_profile_score_fund.
Qed.

Lemma slice_to_nil {A : Type} (n : Z) : slice_to n (@nil A) = [].
Proof. unfold slice_to. destruct (0 <=? n)%Z; apply take_nil. Qed.

(** C1: a profile with no extracted field gives the criteria regions ["US"]
    and deal type "Buyout": for every fund the industry, revenue and employees
    factors are not applied, the region and deal factors are, and the score
    is 0.2 if the fund lists the US plus 0.1 if it lists buyouts; the
    shortlist is empty when no fund of the dataset lists the US. *)
Theorem empty_profile_outcome (funds : list Fund) (top_k : Z) :
  criteria_of empty_profile = mkCriteria [] ["US"] None None (Some "Buyout") /\
  Forall empty_profile_scored (query_pe_db (criteria_of empty_profile) funds) /\
  (Forall (fun f => lists_region "us" f = false) funds ->
   shortlist_pe_funds empty_profile funds top_k = []).
Proof.
  split; [reflexivity|]. split.
  - eapply Forall_impl; [apply empty_profile_ranked|]. by intros r [? _].
  - intros Hno. unfold shortlist_pe_funds.
    rewrite filter_none; [apply slice_to_nil|].
    apply Forall_fmap.
    pose proof (empty_profile_ranked funds) as Hr.
    rewrite Forall_forall in Hr. rewrite Forall_forall in Hno.
    apply Forall_forall. intros r Hin.
    destruct (Hr r) as [(_ & _ & _ & _ & _ & Hs) Hm].
    { eapply elem_of_sublist; [exact Hin | apply slice_to_sublist]. }
    cbn. rewrite above_threshold_entry_of.
    apply not_true_is_false. rewrite Qle_bool_iff, Hs, (Hno _ Hm).
    destruct (lists_deal_type "buyout" (match_ r)); cbn; intros H;
      vm_compute in H; by apply H.
Qed.

(** The theorem at a dataset whose only fund is European. *)
Lemma empty_profile_outcome_witness :
  Forall (fun f => lists_region "us" f = false) [Examples.fundB] /\
  shortlist_pe_funds empty_profile [Examples.fundB] DEFAULT_TOP_K = [].
Proof.
  assert (Forall (fun f => lists_region "us" f = false) [Examples.fundB])
    as Hno by (repeat constructor).
  split; [exact Hno|].
  by apply (empty_profile_outcome [Examples.fundB] DEFAULT_TOP_K).
Defined.

(** The degenerate outcome fails on a dataset with a US buyout fund: its
    region and deal factors are applied, it scores 0.3 and is shortlisted. *)
Lemma empty_profile_not_degenerate :
  ~ degenerate_outcome [Examples.fundA] DEFAULT_TOP_K.
Proof.
  intros [_ Hempty]. vm_compute in Hempty. discriminate Hempty.
Qed.

(** Sorting two lists that agree on the keys, element by element, keeps them
    in step. *)
Section SortedForall2.
Context {A B : Type} (ka : A -> Q) (kb : B -> Q) (P : A -> B -> Prop).
Hypothesis same_key : forall a b, P a b -> ka a = kb b.

Lemma insert_desc_Forall2 a b la lb :
  P a b -> Forall2 P la lb ->
  Forall2 P (insert_desc ka a la) (insert_desc kb b lb).
Proof.
  intros Hab Hl. induction Hl as [|x y la lb Hxy Hl IH]; cbn.
  - by repeat constructor.
  - unfold key_lt. rewrite (same_key _ _ Hab), (same_key _ _ Hxy).
    destruct (negb _); by repeat constructor.
Qed.

Lemma sorted_desc_Forall2 la lb :
  Forall2 P la lb -> Forall2 P (sorted_desc ka la) (sorted_desc kb lb).
Proof.
  induction 1; cbn; [constructor|]. by apply insert_desc_Forall2.
Qed.
End SortedForall2.

(** ** The dataset in the heap *)

(** *** Running a program *)

Lemma wp_ret {A : Type} (a : A) (h : Heap) (post : A -> Heap -> Prop) :
  post a h -> wp (mret a) h post.
Proof. intros H. by exists a, h. Qed.

Lemma wp_bind {A B : Type} (m : M A) (k : A -> M B) (h : Heap)
    (post : B -> Heap -> Prop) :
  wp m h (fun a h' => wp (k a) h' post) -> wp (m ≫= k) h post.
Proof.
  intros (a & h' & E & b & h'' & E' & H). exists b, h''. split; [|done].
  unfold mbind, M_bind. by rewrite E.
Qed.

Lemma wp_mono {A : Type} (m : M A) (h : Heap) (post post' : A -> Heap -> Prop) :
  wp m h post -> (forall a h', post a h' -> post' a h') -> wp m h post'.
Proof. intros (a & h' & E & H) Himp. exists a, h'. auto. Qed.

Lemma wp_alloc (o : Obj) (h : Heap) (post : loc -> Heap -> Prop) :
  (forall l, h !! l = None -> post l (<[l := o]> h)) -> wp (alloc o) h post.
Proof.
  intros H. exists (fresh (dom h)), (<[fresh (dom h) := o]> h).
  split; [done|]. apply H, not_elem_of_dom, is_fresh.
Qed.

Lemma wp_deref (l : loc) (o : Obj) (h : Heap) (post : Obj -> Heap -> Prop) :
  h !! l = Some o -> post o h -> wp (deref l) h post.
Proof. intros E H. exists o, h. split; [|done]. unfold deref. by rewrite E. Qed.

Lemma wp_store (l : loc) (o o' : Obj) (h : Heap) (post : unit -> Heap -> Prop) :
  h !! l = Some o' -> post tt (<[l := o]> h) -> wp (store l o) h post.
Proof.
  intros E H. exists tt, (<[l := o]> h). split; [|done].
  unfold store. by rewrite E.
Qed.

Lemma wp_get_strings l x h (post : list string -> Heap -> Prop) :
  h !! l = Some (OStrings x) -> post x h -> wp (get_strings l) h post.
Proof.
  intros E H. apply wp_bind, (wp_deref _ _ _ _ E). by apply wp_ret.
Qed.

Lemma wp_get_range l x h (post : Range -> Heap -> Prop) :
  h !! l = Some (ORange x) -> post x h -> wp (get_range l) h post.
Proof.
  intros E H. apply wp_bind, (wp_deref _ _ _ _ E). by apply wp_ret.
Qed.

Lemma wp_get_fund l x h (post : FundDict -> Heap -> Prop) :
  h !! l = Some (OFund x) -> post x h -> wp (get_fund l) h post.
Proof.
  intros E H. apply wp_bind, (wp_deref _ _ _ _ E). by apply wp_ret.
Qed.

Lemma wp_get_result l x h (post : ResultDict -> Heap -> Prop) :
  h !! l = Some (OResult x) -> post x h -> wp (get_result l) h post.
Proof.
  intros E H. apply wp_bind, (wp_deref _ _ _ _ E). by apply wp_ret.
Qed.

Lemma wp_get_list l x h (post : list loc -> Heap -> Prop) :
  h !! l = Some (OList x) -> post x h -> wp (get_list l) h post.
Proof.
  intros E H. apply wp_bind, (wp_deref _ _ _ _ E). by apply wp_ret.
Qed.

(** *** What a step keeps *)

Lemma keeps_refl l0 g : keeps l0 g g.
Proof. by intros l o. Qed.

Lemma keeps_trans l0 g1 g2 g3 :
  keeps l0 g1 g2 -> keeps l0 g2 g3 -> keeps l0 g1 g3.
Proof. intros H1 H2 l o Hl E. by apply H2, H1. Qed.

Lemma subseteq_keeps l0 (g g' : Heap) : g ⊆ g' -> keeps l0 g g'.
Proof. intros H l o _ E. by eapply lookup_weaken. Qed.

Lemma keeps_insert l0 (g : Heap) o : keeps l0 g (<[l0 := o]> g).
Proof. intros l o' Hl E. by rewrite lookup_insert_ne. Qed.

Lemma keeps_subseteq l0 (h g : Heap) :
  h !! l0 = None -> keeps l0 h g -> h ⊆ g.
Proof.
  intros Hn Hk. apply map_subseteq_spec. intros l o E. apply Hk; [|done].
  intros ->. congruence.
Qed.

Lemma key_holds_keeps {A : Type} l0 es (g g' : Heap) (mk : A -> Obj) o v :
  (forall x, mk x <> OSubs es) ->
  g !! l0 = Some (OSubs es) -> keeps l0 g g' ->
  key_holds g mk o v -> key_holds g' mk o v.
Proof.
  intros Hmk E0 Hk. destruct o as [l|], v as [x|]; cbn; try done.
  intros E. apply Hk; [|done]. intros ->. rewrite E0 in E.
  injection E as E. by apply (Hmk x).
Qed.

Lemma holds_keeps l0 es (g g' : Heap) f j :
  g !! l0 = Some (OSubs es) -> keeps l0 g g' ->
  holds g f j -> holds g' f j.
Proof.
  intros E0 Hk (d & Ef & Hn & H1 & H2 & H3 & H4 & H5). exists d.
  split; [apply Hk; [intros ->; congruence|done]|]. split; [done|].
  repeat split; eapply key_holds_keeps; eauto; done.
Qed.

Lemma holds_subseteq (g g' : Heap) f j :
  g ⊆ g' -> holds g f j -> holds g' f j.
Proof.
  intros Hs (d & Ef & Hn & H1 & H2 & H3 & H4 & H5). exists d.
  split; [by eapply lookup_weaken|]. split; [done|].
  assert (forall A (mk : A -> Obj) o v,
            key_holds g mk o v -> key_holds g' mk o v) as Hk.
  { intros A mk [l|] [x|]; cbn; try done. intros E. by eapply lookup_weaken. }
  repeat split; by apply Hk.
Qed.

Lemma read_sub_keeps l0 es (g g' : Heap) s sub :
  g !! l0 = Some (OSubs es) -> keeps l0 g g' ->
  read_sub g s = Some sub -> read_sub g' s = Some sub.
Proof.
  intros E0 Hk.
  assert (forall l o, g !! l = Some o -> (forall e, o <> OSubs e) ->
            g' !! l = Some o) as Hl.
  { intros l o E Ho. apply Hk; [|done]. intros ->. rewrite E0 in E.
    injection E as <-. by apply (Ho es). }
  destruct s as [w|raw oc cc w k ci l|raw oc w k cr l|raw b c r l w k
                 |raw cdt l w k]; cbn; [done|..];
    destruct (g !! l) as [[]|] eqn:E; try done;
    by rewrite (Hl _ _ E).
Qed.

Lemma sub_ok_keeps l0 d key key' field sub l' es (g g' : Heap) :
  g !! l0 = Some (OSubs es) -> keeps l0 g g' ->
  g' !! l0 = Some (OSubs (<[key' := l']> es)) -> key <> key' ->
  sub_ok g l0 d key field sub -> sub_ok g' l0 d key field sub.
Proof.
  intros E0 Hk E0' Hne (es0 & l & s & E1 & E2 & Hl & E3 & E4 & Ha).
  rewrite E0 in E1. injection E1 as <-.
  exists (<[key' := l']> es), l, s. split; [done|].
  split; [rewrite lookup_insert_ne; [done|congruence]|]. split; [done|].
  split; [by apply Hk|]. split; [|done].
  exact (read_sub_keeps l0 es g g' s sub E0 Hk E4).
Qed.

(** *** The blocks of [score_with_breakdown] *)

Lemma key_holds_subseteq {A : Type} (g g' : Heap) (mk : A -> Obj) o v :
  g ⊆ g' -> key_holds g mk o v -> key_holds g' mk o v.
Proof.
  intros Hs. destruct o as [l|], v as [x|]; cbn; try done.
  intros E. by eapply lookup_weaken.
Qed.

(** [f.get(key, default)] gives an object with the record's value: the
    fund dict's own when it has the key, a new one otherwise. *)
Lemma wp_f_get {A : Type} (mk : A -> Obj) (dv : A) (g : Heap) f d
    (field : FundDict -> option loc) (v : option A)
    (post : loc -> Heap -> Prop) :
  g !! f = Some (OFund d) -> key_holds g mk (field d) v ->
  (forall l g', g ⊆ g' -> g' !! l = Some (mk (default dv v)) ->
     (forall own, field d = Some own -> l = own) -> post l g') ->
  wp (f_get f field (mk dv)) g post.
Proof.
  intros Ef Hk Hpost. apply wp_bind, (wp_get_fund _ _ _ _ Ef).
  destruct (field d) as [l|] eqn:E, v as [x|]; cbn in Hk; try done.
  - apply wp_ret, Hpost; [done|done|]. by intros own [= <-].
  - apply wp_alloc. intros l Hl. apply Hpost.
    + by apply insert_subseteq.
    + apply lookup_insert_eq.
    + done.
Qed.

(** [subs[key] = {...}], with what follows it in a block. *)
Lemma wp_set_sub (g0 g : Heap) l0 es d key field s sub (total : Q)
    (post : Q -> Heap -> Prop) :
  g !! l0 = Some (OSubs es) -> g0 ⊆ g ->
  read_sub g s = Some sub ->
  (forall own ref, field d = Some own -> fund_ref s = Some ref -> ref = own) ->
  (forall g', keeps l0 g0 g' ->
     (exists l', g' !! l0 = Some (OSubs (<[key := l']> es))) ->
     sub_ok g' l0 d key field sub -> post total g') ->
  wp (set_sub l0 key s;; mret total) g post.
Proof.
  intros E0 Hs Hr Ha Hpost. apply wp_bind. unfold set_sub.
  apply wp_bind, wp_alloc. intros l Hl.
  assert (l <> l0) as Hne by (intros ->; congruence).
  unfold setitem. apply wp_bind.
  apply (wp_deref l0 (OSubs es)); [by rewrite lookup_insert_ne|].
  apply (wp_store l0 _ (OSubs es)); [by rewrite lookup_insert_ne|].
  apply wp_ret.
  set (g1 := <[l := OSub s]> g).
  assert (keeps l0 g (<[l0 := OSubs (<[key := l]> es)]> g1)) as Hk.
  { apply (keeps_trans _ _ g1); [|apply keeps_insert].
    apply subseteq_keeps. by apply insert_subseteq. }
  apply Hpost.
  - apply (keeps_trans _ _ g); [by apply subseteq_keeps|done].
  - exists l. apply lookup_insert_eq.
  - exists (<[key := l]> es), l, s. split; [apply lookup_insert_eq|].
    split; [apply lookup_insert_eq|]. split; [done|].
    split; [rewrite lookup_insert_ne by done; apply lookup_insert_eq|].
    split; [|done]. by apply (read_sub_keeps l0 es g).
Qed.

Section Blocks.
Variable env : Env.
Variable f : loc.
Variable l0 : loc.
Variable d : FundDict.
Variable j : FundJson.
Variable g : Heap.
Variable es : gmap string loc.
Hypothesis fund_at : g !! f = Some (OFund d).
Hypothesis subs_at : g !! l0 = Some (OSubs es).

Lemma industry_block_spec (total : Q) :
  key_holds g OStrings (d_industries d) (j_industries j) ->
  wp (industry_block env f l0 total) g
    (block_post g l0 es d "industry" d_industries
       (industry_factor env (fund_of_json j) total)).
Proof.
  intros Hk. unfold industry_block, industry_factor.
  cbn [fund_of_json f_industries]. case_bool_decide.
  - apply wp_bind, (wp_f_get OStrings [] g f d _ _ _ fund_at Hk).
    intros l1 g1 Hs1 E1 _.
    apply wp_bind, (wp_get_strings _ _ _ _ E1). cbv zeta.
    apply wp_bind.
    apply (wp_f_get OStrings [] g1 f d _ (j_industries j));
      [by eapply lookup_weaken | by eapply key_holds_subseteq |].
    intros l2 g2 Hs2 E2 Hown.
    eapply (wp_set_sub g g2 l0 es d _ d_industries).
    + eapply lookup_weaken; [|exact Hs2]. by eapply lookup_weaken.
    + by etransitivity.
    + cbn. rewrite E2. reflexivity.
    + intros own ref Ho [= <-]. by apply Hown.
    + intros g' H1 H2 H3. by repeat split.
  - eapply (wp_set_sub g g l0 es d _ d_industries);
      [done|done|reflexivity|done|].
    intros g' H1 H2 H3. by repeat split.
Qed.

Lemma region_block_spec (total : Q) :
  key_holds g OStrings (d_regions d) (j_regions j) ->
  wp (region_block env f l0 total) g
    (block_post g l0 es d "region" d_regions
       (region_factor env (fund_of_json j) total)).
Proof.
  intros Hk. unfold region_block, region_factor.
  cbn [fund_of_json f_regions]. case_bool_decide.
  - apply wp_bind, (wp_f_get OStrings [] g f d _ _ _ fund_at Hk).
    intros l1 g1 Hs1 E1 _.
    apply wp_bind, (wp_get_strings _ _ _ _ E1). cbv zeta.
    apply wp_bind.
    apply (wp_f_get OStrings [] g1 f d _ (j_regions j));
      [by eapply lookup_weaken | by eapply key_holds_subseteq |].
    intros l2 g2 Hs2 E2 Hown.
    eapply (wp_set_sub g g2 l0 es d _ d_regions).
    + eapply lookup_weaken; [|exact Hs2]. by eapply lookup_weaken.
    + by etransitivity.
    + cbn. rewrite E2. reflexivity.
    + intros own ref Ho [= <-]. by apply Hown.
    + intros g' H1 H2 H3. by repeat split.
  - eapply (wp_set_sub g g l0 es d _ d_regions);
      [done|done|reflexivity|done|].
    intros g' H1 H2 H3. by repeat split.
Qed.

Lemma range_block_spec (crit : option Range)
    (field : FundDict -> option loc) (v : option Range) (w : Q)
    (key : string) (total : Q) :
  key_holds g ORange (field d) v ->
  wp (range_block f l0 crit field w key total) g
    (block_post g l0 es d key field
       (range_factor crit (default no_range v) w total)).
Proof.
  intros Hk. unfold range_block, range_factor.
  apply wp_bind, (wp_f_get ORange no_range g f d _ _ _ fund_at Hk).
  intros l1 g1 Hs1 E1 Hown. destruct crit as [r|].
  - apply wp_bind, (wp_get_range _ _ _ _ E1). cbv zeta.
    eapply (wp_set_sub g g1 l0 es d _ field).
    + by eapply lookup_weaken.
    + done.
    + cbn. rewrite E1. reflexivity.
    + intros own ref Ho [= <-]. by apply Hown.
    + intros g' H1 H2 H3. by repeat split.
  - eapply (wp_set_sub g g1 l0 es d _ field);
      [by eapply lookup_weaken|done|reflexivity|done|].
    intros g' H1 H2 H3. by repeat split.
Qed.

Lemma deal_block_spec (total : Q) :
  key_holds g OStrings (d_deal_types d) (j_deal_types j) ->
  wp (deal_block env f l0 total) g
    (block_post g l0 es d "deal" d_deal_types
       (deal_factor env (fund_of_json j) total)).
Proof.
  intros Hk. unfold deal_block, deal_factor.
  cbn [fund_of_json f_deal_types]. case_bool_decide.
  - apply wp_bind, (wp_f_get OStrings [] g f d _ _ _ fund_at Hk).
    intros l1 g1 Hs1 E1 _.
    apply wp_bind, (wp_get_strings _ _ _ _ E1). cbv zeta.
    apply wp_bind.
    apply (wp_f_get OStrings [] g1 f d _ (j_deal_types j));
      [by eapply lookup_weaken | by eapply key_holds_subseteq |].
    intros l2 g2 Hs2 E2 Hown.
    eapply (wp_set_sub g g2 l0 es d _ d_deal_types).
    + eapply lookup_weaken; [|exact Hs2]. by eapply lookup_weaken.
    + by etransitivity.
    + cbn. rewrite E2. reflexivity.
    + intros own ref Ho [= <-]. by apply Hown.
    + intros g' H1 H2 H3. by repeat split.
  - eapply (wp_set_sub g g l0 es d _ d_deal_types);
      [done|done|reflexivity|done|].
    intros g' H1 H2 H3. by repeat split.
Qed.

End Blocks.

(** *** [score_with_breakdown] *)

Lemma scoring_keeps g g' f l0 d j es es' :
  scoring g f l0 d j es -> keeps l0 g g' ->
  g' !! l0 = Some (OSubs es') -> scoring g' f l0 d j es'.
Proof.
  intros (Ef & E0 & K1 & K2 & K3 & K4 & K5) Hk E0'.
  split; [apply Hk; [intros ->; congruence|done]|]. split; [done|].
  assert (forall A (mk : A -> Obj) o v, (forall x, mk x <> OSubs es) ->
            key_holds g mk o v -> key_holds g' mk o v) as HK.
  { intros A mk o v Hmk. by apply (key_holds_keeps l0 es). }
  repeat split; by apply HK.
Qed.

Lemma sub_ok_entry g l0 d key field sub es :
  sub_ok g l0 d key field sub -> g !! l0 = Some (OSubs es) ->
  read_entry g es key = Some sub.
Proof.
  intros (es0 & l & s & E1 & E2 & _ & E3 & E4 & _) E0.
  rewrite E0 in E1. injection E1 as <-.
  unfold read_entry. rewrite E2. cbn. by rewrite E3.
Qed.

Lemma sub_ok_shares g l0 d key field sub :
  sub_ok g l0 d key field sub -> shares g l0 key d field.
Proof.
  intros (es & l & s & E1 & E2 & _ & E3 & _ & Ha). by exists es, l, s.
Qed.

(** The run of [score_with_breakdown] on a fund dict that holds [j]
    changes no object: it returns the score of the value model and a
    [subs] dict that is new, reads as the subscores of the value model,
    and refers to the fund dict's own objects. *)
Lemma score_with_breakdown_heap_spec env f j (h : Heap) d :
  h !! f = Some (OFund d) -> holds h f j ->
  wp (score_with_breakdown_heap env f) h (fun s h' =>
    h ⊆ h' /\ h !! snd s = None /\
    fst s = fst (score_with_breakdown env (fund_of_json j)) /\
    read_subs h' (snd s)
    = Some (snd (score_with_breakdown env (fund_of_json j))) /\
    shares h' (snd s) "industry" d d_industries /\
    shares h' (snd s) "region" d d_regions /\
    shares h' (snd s) "revenue" d d_revenue_focus_usd /\
    shares h' (snd s) "employees" d d_employee_focus /\
    shares h' (snd s) "deal" d d_deal_types).
Proof.
  intros Ef (d' & Ef' & _ & K). rewrite Ef in Ef'. injection Ef' as <-.
  unfold score_with_breakdown_heap.
  apply wp_bind, wp_alloc. intros l0 Hl0. cbv zeta.
  set (g0 := <[l0 := OSubs ∅]> h).
  assert (h ⊆ g0) as Hh0 by by apply insert_subseteq.
  assert (scoring g0 f l0 d j ∅) as I0.
  { split; [by eapply lookup_weaken|]. split; [apply lookup_insert_eq|].
    destruct K as (K1 & K2 & K3 & K4 & K5).
    repeat split; by eapply key_holds_subseteq. }
  set (fv := fund_of_json j).
  (* industry *)
  apply wp_bind. eapply wp_mono.
  { destruct I0 as (Ef0 & E0 & K1 & _).
    exact (industry_block_spec env f l0 d j g0 ∅ Ef0 E0 0 K1). }
  intros t1 g1 (-> & Hk1 & [l1 E1] & S1).
  pose proof (scoring_keeps _ _ _ _ _ _ _ _ I0 Hk1 E1) as I1.
  (* region *)
  apply wp_bind. eapply wp_mono.
  { destruct I1 as (Ef1 & E1' & _ & K2 & _).
    exact (region_block_spec env f l0 d j g1 _ Ef1 E1' _ K2). }
  intros t2 g2 (-> & Hk2 & [l2 E2] & S2).
  pose proof (scoring_keeps _ _ _ _ _ _ _ _ I1 Hk2 E2) as I2.
  (* revenue *)
  apply wp_bind. eapply wp_mono.
  { destruct I2 as (Ef2 & E2' & _ & _ & K3 & _).
    exact (range_block_spec f l0 d g2 _ Ef2 E2' (rev env)
             d_revenue_focus_usd (j_revenue_focus_usd j) weights.revenue
             "revenue" _ K3). }
  intros t3 g3 (-> & Hk3 & [l3 E3] & S3).
  pose proof (scoring_keeps _ _ _ _ _ _ _ _ I2 Hk3 E3) as I3.
  (* employees *)
  apply wp_bind. eapply wp_mono.
  { destruct I3 as (Ef3 & E3' & _ & _ & _ & K4 & _).
    exact (range_block_spec f l0 d g3 _ Ef3 E3' (emp env)
             d_employee_focus (j_employee_focus j) weights.employees
             "employees" _ K4). }
  intros t4 g4 (-> & Hk4 & [l4 E4] & S4).
  pose proof (scoring_keeps _ _ _ _ _ _ _ _ I3 Hk4 E4) as I4.
  (* deal *)
  apply wp_bind. eapply wp_mono.
  { destruct I4 as (Ef4 & E4' & _ & _ & _ & _ & K5).
    exact (deal_block_spec env f l0 d j g4 _ Ef4 E4' _ K5). }
  intros t5 g5 (-> & Hk5 & [l5 E5] & S5).
  apply wp_ret. cbn [fst snd].
  (* the subscores stored by the earlier blocks are still there *)
  destruct I1 as (_ & E1' & _), I2 as (_ & E2' & _), I3 as (_ & E3' & _),
    I4 as (_ & E4' & _).
  eapply (sub_ok_keeps _ _ _ _ _ _ _ _ _ _ E1' Hk2 E2) in S1; [|done].
  eapply (sub_ok_keeps _ _ _ _ _ _ _ _ _ _ E2' Hk3 E3) in S1; [|done].
  eapply (sub_ok_keeps _ _ _ _ _ _ _ _ _ _ E3' Hk4 E4) in S1; [|done].
  eapply (sub_ok_keeps _ _ _ _ _ _ _ _ _ _ E4' Hk5 E5) in S1; [|done].
  eapply (sub_ok_keeps _ _ _ _ _ _ _ _ _ _ E2' Hk3 E3) in S2; [|done].
  eapply (sub_ok_keeps _ _ _ _ _ _ _ _ _ _ E3' Hk4 E4) in S2; [|done].
  eapply (sub_ok_keeps _ _ _ _ _ _ _ _ _ _ E4' Hk5 E5) in S2; [|done].
  eapply (sub_ok_keeps _ _ _ _ _ _ _ _ _ _ E3' Hk4 E4) in S3; [|done].
  eapply (sub_ok_keeps _ _ _ _ _ _ _ _ _ _ E4' Hk5 E5) in S3; [|done].
  eapply (sub_ok_keeps _ _ _ _ _ _ _ _ _ _ E4' Hk5 E5) in S4; [|done].
  split.
  { apply (keeps_subseteq l0); [done|].
    apply (keeps_trans _ _ g0); [by apply subseteq_keeps|].
    apply (keeps_trans _ _ g1); [done|].
    apply (keeps_trans _ _ g2); [done|].
    apply (keeps_trans _ _ g3); [done|].
    by apply (keeps_trans _ _ g4). }
  split; [done|]. split.
  { rewrite score_with_breakdown_eq, run_factors_eq. reflexivity. }
  split.
  { unfold read_subs. rewrite E5.
    rewrite (sub_ok_entry _ _ _ _ _ _ _ S1 E5),
      (sub_ok_entry _ _ _ _ _ _ _ S2 E5),
      (sub_ok_entry _ _ _ _ _ _ _ S3 E5),
      (sub_ok_entry _ _ _ _ _ _ _ S4 E5),
      (sub_ok_entry _ _ _ _ _ _ _ S5 E5).
    rewrite score_with_breakdown_eq, run_factors_eq. reflexivity. }
  repeat split; by eapply sub_ok_shares.
Qed.

(** *** What a reader sees is kept *)

Lemma subseteq_keeps_dicts (g g' : Heap) : g ⊆ g' -> keeps_dicts g g'.
Proof. intros H l o E _. by eapply lookup_weaken. Qed.

Lemma keeps_keeps_dicts l0 a (g g' : Heap) :
  g !! l0 = Some (OList a) -> keeps l0 g g' -> keeps_dicts g g'.
Proof.
  intros E0 Hk l o E Ho. apply Hk; [|done]. intros ->.
  rewrite E0 in E. injection E as <-. by apply (Ho a).
Qed.

Lemma keeps_dicts_trans g1 g2 g3 :
  keeps_dicts g1 g2 -> keeps_dicts g2 g3 -> keeps_dicts g1 g3.
Proof. intros H1 H2 l o E Ho. apply H2; [|done]. by apply H1. Qed.

Section KeepsDicts.
Variables g g' : Heap.
Hypothesis kept : keeps_dicts g g'.

Lemma read_strings_kept o x :
  read_strings g o = Some x -> read_strings g' o = Some x.
Proof.
  destruct o as [l|]; cbn; [|done].
  destruct (g !! l) as [[]|] eqn:E; try done.
  by rewrite (kept _ _ E).
Qed.

Lemma read_range_kept o x :
  read_range g o = Some x -> read_range g' o = Some x.
Proof.
  destruct o as [l|]; cbn; [|done].
  destruct (g !! l) as [[]|] eqn:E; try done.
  by rewrite (kept _ _ E).
Qed.

Lemma read_fund_kept l x : read_fund g l = Some x -> read_fund g' l = Some x.
Proof.
  unfold read_fund. destruct (g !! l) as [[| |d| | | |]|] eqn:E; try done.
  rewrite (kept _ _ E) by done.
  destruct (read_strings g (d_industries d)) as [i|] eqn:E1; [|done].
  destruct (read_strings g (d_regions d)) as [r|] eqn:E2; [|done].
  destruct (read_range g (d_revenue_focus_usd d)) as [rf|] eqn:E3; [|done].
  destruct (read_range g (d_employee_focus d)) as [ef|] eqn:E4; [|done].
  destruct (read_strings g (d_deal_types d)) as [dt|] eqn:E5; [|done].
  by rewrite (read_strings_kept _ _ E1), (read_strings_kept _ _ E2),
    (read_range_kept _ _ E3), (read_range_kept _ _ E4),
    (read_strings_kept _ _ E5).
Qed.

Lemma read_sub_kept s x : read_sub g s = Some x -> read_sub g' s = Some x.
Proof.
  destruct s as [w|raw oc cc w k ci l|raw oc w k cr l|raw b c r l w k
                 |raw cdt l w k]; cbn; [done|..];
    destruct (g !! l) as [[]|] eqn:E; try done;
    by rewrite (kept _ _ E).
Qed.

Lemma read_entry_kept es key x :
  read_entry g es key = Some x -> read_entry g' es key = Some x.
Proof.
  unfold read_entry. destruct (es !! key) as [l|]; cbn; [|done].
  destruct (g !! l) as [[| | |s| | |]|] eqn:E; try done.
  rewrite (kept _ _ E) by done. apply read_sub_kept.
Qed.

Lemma read_subs_kept l x : read_subs g l = Some x -> read_subs g' l = Some x.
Proof.
  unfold read_subs. destruct (g !! l) as [[| | | |es| |]|] eqn:E; try done.
  rewrite (kept _ _ E) by done.
  destruct (read_entry g es "industry") as [a|] eqn:E1; [|done].
  destruct (read_entry g es "region") as [b|] eqn:E2; [|done].
  destruct (read_entry g es "revenue") as [c|] eqn:E3; [|done].
  destruct (read_entry g es "employees") as [d|] eqn:E4; [|done].
  destruct (read_entry g es "deal") as [e|] eqn:E5; [|done].
  by rewrite (read_entry_kept _ _ _ E1), (read_entry_kept _ _ _ E2),
    (read_entry_kept _ _ _ E3), (read_entry_kept _ _ _ E4),
    (read_entry_kept _ _ _ E5).
Qed.

Lemma read_result_kept l x :
  read_result g l = Some x -> read_result g' l = Some x.
Proof.
  unfold read_result. destruct (g !! l) as [[| | | | |r|]|] eqn:E; try done.
  rewrite (kept _ _ E) by done.
  destruct (read_fund g (rd_match r)) as [m|] eqn:E1; [|done].
  destruct (read_subs g (rd_subscores r)) as [s|] eqn:E2; [|done].
  by rewrite (read_fund_kept _ _ E1), (read_subs_kept _ _ E2).
Qed.

Lemma shares_kept subs key d field :
  shares g subs key d field -> shares g' subs key d field.
Proof.
  intros (es & l & s & E1 & E2 & E3 & Ha). exists es, l, s.
  split; [by apply kept|]. split; [done|]. split; [by apply kept|done].
Qed.

Lemma aliases_kept r : aliases g r -> aliases g' r.
Proof.
  intros (rd & d & E1 & E2 & S1 & S2 & S3 & S4 & S5). exists rd, d.
  split; [by apply kept|]. split; [by apply kept|].
  repeat split; by apply shares_kept.
Qed.

Lemma result_ok_kept env r f j : result_ok env g r f j -> result_ok env g' r f j.
Proof.
  intros (rd & E1 & E2 & E3 & E4 & Ha). exists rd.
  split; [by apply kept|]. split; [done|]. split; [done|].
  split; [by apply read_result_kept|by apply aliases_kept].
Qed.

End KeepsDicts.

Lemma key_holds_read_strings (g : Heap) o v :
  key_holds g OStrings o v -> read_strings g o = Some (default [] v).
Proof. destruct o as [l|], v as [x|]; cbn; try done. by intros ->. Qed.

Lemma key_holds_read_range (g : Heap) o v :
  key_holds g ORange o v -> read_range g o = Some (default no_range v).
Proof. destruct o as [l|], v as [x|]; cbn; try done. by intros ->. Qed.

(** A fund dict that holds [j] reads as the record of the value model. *)
Lemma holds_read_fund (g : Heap) l j :
  holds g l j -> read_fund g l = Some (fund_of_json j).
Proof.
  intros (d & E & Hn & K1 & K2 & K3 & K4 & K5). unfold read_fund.
  rewrite E, (key_holds_read_strings _ _ _ K1),
    (key_holds_read_strings _ _ _ K2), (key_holds_read_range _ _ _ K3),
    (key_holds_read_range _ _ _ K4), (key_holds_read_strings _ _ _ K5).
  cbn. by rewrite Hn.
Qed.

(** *** Loading *)

Lemma load_key_spec {A : Type} (mk : A -> Obj) (v : option A) (h : Heap)
    (post : option loc -> Heap -> Prop) :
  (forall o h', h ⊆ h' -> key_holds h' mk o v -> post o h') ->
  wp (load_key mk v) h post.
Proof.
  intros Hpost. destruct v as [x|]; cbn [load_key].
  - apply wp_bind, wp_alloc. intros l Hl. apply wp_ret, Hpost.
    + by apply insert_subseteq.
    + cbn. apply lookup_insert_eq.
  - by apply wp_ret, Hpost.
Qed.

Lemma load_record_spec (j : FundJson) (h : Heap)
    (post : loc -> Heap -> Prop) :
  (forall l h', h ⊆ h' -> h !! l = None -> holds h' l j -> post l h') ->
  wp (load_record j) h post.
Proof.
  intros Hpost. unfold load_record.
  apply wp_bind, load_key_spec. intros o1 h1 S1 K1.
  apply wp_bind, load_key_spec. intros o2 h2 S2 K2.
  apply wp_bind, load_key_spec. intros o3 h3 S3 K3.
  apply wp_bind, load_key_spec. intros o4 h4 S4 K4.
  apply wp_bind, load_key_spec. intros o5 h5 S5 K5.
  apply wp_alloc. intros l Hl.
  assert (h5 ⊆ <[l := OFund (mkFundDict (j_name j) o1 o2 o3 o4 o5)]> h5)
    as S6 by by apply insert_subseteq.
  pose proof (transitivity S5 S6) as T4.
  pose proof (transitivity S4 T4) as T3.
  pose proof (transitivity S3 T3) as T2.
  pose proof (transitivity S2 T2) as T1.
  pose proof (transitivity S1 T1) as T0.
  apply Hpost; [done| |].
  - eapply lookup_weaken_None; [exact Hl|].
    exact (transitivity S1 (transitivity S2 (transitivity S3
             (transitivity S4 S5)))).
  - eexists. split; [apply lookup_insert_eq|]. cbn. split; [done|].
    split; [exact (key_holds_subseteq _ _ _ _ _ T1 K1)|].
    split; [exact (key_holds_subseteq _ _ _ _ _ T2 K2)|].
    split; [exact (key_holds_subseteq _ _ _ _ _ T3 K3)|].
    split; [exact (key_holds_subseteq _ _ _ _ _ T4 K4)|].
    exact (key_holds_subseteq _ _ _ _ _ S6 K5).
Qed.

Lemma load_records_spec (records : list FundJson) (h : Heap) :
  wp (load_records records) h (fun ls h' =>
    h ⊆ h' /\ Forall2 (holds h') ls records).
Proof.
  revert h. induction records as [|j rest IH]; intros h; cbn [load_records].
  - by apply wp_ret.
  - apply wp_bind, load_record_spec. intros l h1 S1 _ H1.
    apply wp_bind. eapply wp_mono; [apply IH|].
    intros ls h2 [S2 H2]. apply wp_ret. split; [by etransitivity|].
    constructor; [by eapply holds_subseteq|done].
Qed.

Lemma json_load_spec (records : list FundJson) (h : Heap) :
  wp (json_load records) h (fun funds h1 =>
    h ⊆ h1 /\ exists items,
      h1 !! funds = Some (OList items) /\ Forall2 (holds h1) items records).
Proof.
  unfold json_load. apply wp_bind. eapply wp_mono; [apply load_records_spec|].
  intros items h0 [S0 H0]. apply wp_alloc. intros l Hl.
  assert (h0 ⊆ <[l := OList items]> h0) as S1 by by apply insert_subseteq.
  split; [by etransitivity|]. exists items.
  split; [apply lookup_insert_eq|].
  eapply Forall2_impl; [exact H0|]. intros f j. by apply holds_subseteq.
Qed.

(** *** The loop *)

(** The loop over the fund dicts at [fs], which hold [js], appends one
    result per fund to the list at [scored] and changes nothing else that
    was there; [h1] is the heap as loaded, which has no [scored]. *)
Lemma score_loop_spec env (scored : loc) (h1 : Heap) (fs : list loc)
    (js : list FundJson) (g : Heap) (acc : list loc) :
  h1 ⊆ g -> h1 !! scored = None -> g !! scored = Some (OList acc) ->
  Forall2 (holds h1) fs js ->
  wp (score_loop env fs scored) g (fun _ g' =>
    keeps scored g g' /\ h1 ⊆ g' /\
    exists new,
      g' !! scored = Some (OList (acc ++ new)%list) /\
      Forall2 (fun r fj => result_ok env g' r (fst fj) (snd fj))
        new (zip fs js)).
Proof.
  intros Hs Hn Esc Hall. revert g acc Hs Esc.
  induction Hall as [|f j fs js Hf _ IH]; intros g acc Hs Esc;
    cbn [score_loop].
  { apply wp_ret. split; [apply keeps_refl|]. split; [done|]. exists [].
    rewrite app_nil_r. split; [done|constructor]. }
  pose proof (holds_subseteq _ _ _ _ Hs Hf) as Hg.
  destruct Hg as (d & Ef & Hname & HK).
  assert (holds g f j) as Hg by (exists d; done).
  apply wp_bind. eapply wp_mono;
    [exact (score_with_breakdown_heap_spec env f j g d Ef Hg)|].
  intros [sc l0] g1 (S1 & Hl0 & Hsc & Hsubs & A1 & A2 & A3 & A4 & A5).
  cbn [fst snd] in *.
  apply wp_bind, (wp_get_fund f d); [by eapply lookup_weaken|].
  apply wp_bind, wp_alloc. intros r Hr.
  set (rd := mkResultDict (d_name d) sc f l0).
  set (g2 := <[r := OResult rd]> g1).
  assert (g1 ⊆ g2) as S2 by by apply insert_subseteq.
  assert (g2 !! scored = Some (OList acc)) as Esc2.
  { eapply lookup_weaken; [|exact S2]. by eapply lookup_weaken. }
  assert (r <> scored) as Hrs.
  { intros ->. apply (lookup_weaken _ _ _ _ Esc) in S1. congruence. }
  apply wp_bind. unfold list_append. apply wp_bind, (wp_deref _ _ _ _ Esc2).
  apply (wp_store _ _ _ _ _ Esc2).
  set (g3 := <[scored := OList (acc ++ [r])]> g2).
  assert (keeps scored g g3) as K3.
  { apply (keeps_trans _ _ g2); [|apply keeps_insert].
    apply subseteq_keeps. by etransitivity. }
  assert (h1 ⊆ g3) as S3.
  { apply insert_subseteq_r; [done|].
    etransitivity; [exact Hs|]. by etransitivity. }
  assert (keeps_dicts g1 g3) as D3.
  { apply (keeps_dicts_trans _ g2); [by apply subseteq_keeps_dicts|].
    apply (keeps_keeps_dicts scored acc); [done|apply keeps_insert]. }
  assert (result_ok env g3 r f j) as Hres.
  { exists rd. split; [|split; [done|split; [done|split]]].
    - unfold g3. rewrite lookup_insert_ne by done. apply lookup_insert_eq.
    - apply (read_result_kept g2).
      { apply (keeps_keeps_dicts scored acc); [done|apply keeps_insert]. }
      unfold read_result, g2. rewrite lookup_insert_eq. cbn [rd_match rd].
      assert (keeps_dicts g1 (<[r := OResult rd]> g1)) as D2
        by by apply subseteq_keeps_dicts.
      rewrite (read_fund_kept _ _ D2 f (fund_of_json j)).
      2:{ apply holds_read_fund. by eapply holds_subseteq. }
      cbn [rd_subscores rd].
      rewrite (read_subs_kept _ _ D2 _ _ Hsubs). cbn.
      unfold score_fund. cbn [fund_of_json f_name]. by rewrite Hname, Hsc.
    - exists rd, d. split.
      { unfold g3. rewrite lookup_insert_ne by done. apply lookup_insert_eq. }
      split.
      { apply D3; [by eapply lookup_weaken|done]. }
      cbn [rd_subscores rd rd_match].
      repeat split; by apply (shares_kept g1). }
  eapply wp_mono; [apply (IH g3 (acc ++ [r])%list S3)|].
  { apply lookup_insert_eq. }
  intros _ g' (K' & S' & new & Enew & Hnew).
  split; [by apply (keeps_trans _ _ g3)|]. split; [done|].
  exists (r :: new). split; [by rewrite <- app_assoc in Enew|].
  cbn [zip zip_with]. constructor; [|done]. cbn [fst snd].
  apply (result_ok_kept g3); [|done].
  apply (keeps_keeps_dicts scored (acc ++ [r])%list); [|done].
  apply lookup_insert_eq.
Qed.

(** *** Sorting *)

Lemma read_scores_spec (g : Heap) (items : list loc) (rds : list ResultDict) :
  Forall2 (fun l rd => g !! l = Some (OResult rd)) items rds ->
  read_scores items g = Some (zip items (rd_score <$> rds), g).
Proof.
  induction 1 as [|l rd items rds E _ IH]; [done|].
  cbn [read_scores]. unfold get_result, mbind, M_bind, deref.
  rewrite E. cbn. by rewrite IH.
Qed.

Lemma wp_run {A : Type} (m : M A) (h h' : Heap) (a : A)
    (post : A -> Heap -> Prop) :
  m h = Some (a, h') -> post a h' -> wp m h post.
Proof. intros E H. by exists a, h'. Qed.

(** The results of the loop, in the order of the funds: the result dicts,
    what they read as, and the fund dicts under their ["match"] keys. *)
Lemma results_summary env (g : Heap) (new : list loc)
    (fjs : list (loc * FundJson)) :
  Forall2 (fun r fj => result_ok env g r (fst fj) (snd fj)) new fjs ->
  exists rds,
    Forall2 (fun l rd => g !! l = Some (OResult rd)) new rds /\
    rd_match <$> rds = fst <$> fjs /\
    Forall2 (fun (p : loc * Q) (s : Scored Fund) =>
               read_result g (fst p) = Some s /\ snd p = score s)
      (zip new (rd_score <$> rds))
      ((fun j => score_fund env (fund_of_json j) (fund_of_json j))
         <$> (snd <$> fjs)).
Proof.
  induction 1 as [|r fj new fjs (rd & E1 & E2 & E3 & E4 & _) _ IH].
  { exists []. by repeat constructor. }
  destruct IH as (rds & H1 & H2 & H3). exists (rd :: rds).
  split; [by constructor|]. split; [cbn; by rewrite E2, H2|].
  cbn. constructor; [|done]. by split.
Qed.

Lemma matches_of_results (g : Heap) (new : list loc) (rds : list ResultDict) :
  Forall2 (fun r rd => g !! r = Some (OResult rd)) new rds ->
  (fun r => match g !! r with
            | Some (OResult rd) => rd_match rd
            | _ => 0%nat
            end) <$> new = rd_match <$> rds.
Proof.
  induction 1 as [|r rd new rds E _ IH]; [done|]. cbn. by rewrite E, IH.
Qed.

(** C10: [query_pe_db] loads the dataset, scores every fund and returns
    the sorted list of the results. The program allocates and writes: it
    fills one [subs] dict per fund and appends to the list [scored]. Every
    object of the heap as loaded [h1] is in the final heap [h2] as it was
    loaded: the fund dicts, and the lists and dicts under their keys, hold
    the records still. The ["match"] keys of the results are the references
    to the loaded fund dicts, one result per fund; the subscores of a
    result refer to its fund dict's own lists and dicts; and what the
    results read as is the ranking of the value model. *)
Theorem scoring_preserves_records (criteria : Criteria)
    (records : list FundJson) (h : Heap) :
  exists (funds : loc) (items : list loc) (h1 : Heap)
         (out : loc) (ranked matches : list loc) (h2 : Heap),
    json_load records h = Some (funds, h1) /\
    h1 !! funds = Some (OList items) /\
    Forall2 (holds h1) items records /\
    query_pe_db_heap criteria records h = Some (out, h2) /\
    h2 !! out = Some (OList ranked) /\
    h ⊆ h1 /\ h1 ⊆ h2 /\
    Forall2 (holds h2) items records /\
    Forall2 (fun r m => exists rd,
               h2 !! r = Some (OResult rd) /\ rd_match rd = m)
      ranked matches /\
    matches ≡ₚ items /\
    Forall (aliases h2) ranked /\
    mapM (read_result h2) ranked
    = Some (query_pe_db criteria (fund_of_json <$> records)).
Proof.
  destruct (json_load_spec records h)
    as (funds & h1 & Eload & S01 & items & Ef & Hall).
  set (env := env_of criteria).
  assert (wp (rank_loaded criteria funds) h1 (fun out h2 =>
    exists ranked matches,
      h2 !! out = Some (OList ranked) /\ h1 ⊆ h2 /\
      Forall2 (fun r m => exists rd,
                 h2 !! r = Some (OResult rd) /\ rd_match rd = m)
        ranked matches /\
      matches ≡ₚ items /\
      Forall (aliases h2) ranked /\
      mapM (read_result h2) ranked
      = Some (query_pe_db criteria (fund_of_json <$> records)))) as Hrank.
  { unfold rank_loaded. fold env. cbv zeta.
    apply wp_bind, wp_alloc. intros scored Hsc.
    assert (scored <> funds) as Hsf by (intros ->; congruence).
    apply wp_bind, (wp_get_list funds items);
      [by rewrite lookup_insert_ne|].
    apply wp_bind. eapply wp_mono.
    { apply (score_loop_spec env scored h1 items records _ []);
        [by apply insert_subseteq | done | apply lookup_insert_eq | done]. }
    intros _ g' (_ & S1 & new & Enew & Hnew). cbn [app] in Enew.
    destruct (results_summary env g' new _ Hnew) as (rds & Hr & Hm & Hp).
    assert (length items = length records) as Hlen
      by by eapply Forall2_length.
    rewrite fst_zip in Hm by lia. rewrite snd_zip in Hp by lia.
    unfold sorted_by_score.
    apply wp_bind, (wp_get_list scored new); [done|].
    apply wp_bind, (wp_run _ _ _ _ _ (read_scores_spec g' new rds Hr)).
    set (keyed := zip new (rd_score <$> rds)).
    apply wp_alloc. intros out Hout.
    set (ranked := fst <$> sorted_desc snd keyed).
    set (h2 := <[out := OList ranked]> g').
    assert (g' ⊆ h2) as S2 by by apply insert_subseteq.
    assert (ranked ≡ₚ new) as Hperm.
    { unfold ranked. rewrite sorted_desc_perm. unfold keyed.
      rewrite fst_zip; [done|]. rewrite length_fmap.
      by rewrite (Forall2_length _ _ _ Hr). }
    set (mf := fun r => match h2 !! r with
                        | Some (OResult rd) => rd_match rd
                        | _ => 0%nat
                        end).
    assert (Forall2 (fun r rd => h2 !! r = Some (OResult rd)) new rds) as Hr2.
    { eapply Forall2_impl; [exact Hr|]. intros r rd E.
      exact (lookup_weaken _ _ _ _ E S2). }
    exists ranked, (mf <$> ranked).
    split; [apply lookup_insert_eq|]. split; [by etransitivity|].
    split; [|split; [|split]].
    - apply Forall2_fmap_r, Forall_Forall2_diag.
      rewrite Hperm. apply Forall_forall. intros r Hin.
      apply list_elem_of_lookup in Hin as [i Hi].
      destruct (Forall2_lookup_l _ _ _ _ _ Hr2 Hi) as (rd & _ & E).
      exists rd. split; [done|]. unfold mf. by rewrite E.
    - rewrite Hperm, <- Hm. unfold mf.
      by rewrite (matches_of_results h2 new rds Hr2).
    - rewrite Hperm. apply Forall_forall. intros r Hin.
      apply list_elem_of_lookup in Hin as [i Hi].
      destruct (Forall2_lookup_l _ _ _ _ _ Hnew Hi) as (fj & _ & Hok).
      apply (aliases_kept g'); [by apply subseteq_keeps_dicts|].
      by destruct Hok as (rd & _ & _ & _ & _ & Ha).
    - apply mapM_Some. unfold query_pe_db. fold env. unfold ranked.
      apply Forall2_fmap_l.
      apply (Forall2_impl
               (fun p s => read_result h2 (fst p) = Some s /\ snd p = score s));
        [|by intros p s [E _]].
      apply (sorted_desc_Forall2 snd score).
      { by intros a b [_ ?]. }
      rewrite <- list_fmap_compose.
      eapply Forall2_impl; [exact Hp|]. intros p s [E ?]. split; [|done].
      apply (read_result_kept g'); [by apply subseteq_keeps_dicts|done]. }
  destruct Hrank as (out & h2 & Erank & ranked & matches & H1 & H2 & H3
                     & H4 & H5 & H6).
  exists funds, items, h1, out, ranked, matches, h2.
  split; [done|]. split; [done|]. split; [done|]. split.
  { unfold query_pe_db_heap, mbind, M_bind. by rewrite Eload. }
  split; [done|]. split; [done|]. split; [done|]. split.
  { eapply Forall2_impl; [exact Hall|]. intros f j. by apply holds_subseteq. }
  done.
Qed.

(** The heap tells a write from a read: a program that empties the list of
    industries of a loaded record leaves a heap that no longer holds the
    heap as loaded. *)
Example write_is_seen :
  let j := mkFundJson "F" (Some ["Software"]) None None None None in
  exists funds h1 l h2,
    json_load [j] ∅ = Some (funds, h1) /\
    h1 !! l = Some (OStrings ["Software"]) /\
    store l (OStrings []) h1 = Some (tt, h2) /\
    ~ h1 ⊆ h2.
Proof.
  cbv zeta. eexists _, _, 0%nat, _.
  split; [by vm_compute|]. split; [by vm_compute|].
  split; [by vm_compute|]. intros H.
  apply (lookup_weaken _ _ 0%nat (OStrings ["Software"])) in H;
    [|by vm_compute].
  vm_compute in H. discriminate H.
Qed.

(** ** Region derivation *)

(** C8: the region labels derived from the locations of the spec's three
    examples: a Californian address gives US, a London address gives
    Europe, and no location at all gives the default US. *)
Theorem region_derivation_examples :
  derive_regions [Some "San Francisco, California, USA"] = ["US"] /\
  derive_regions [Some "London, UK"] = ["Europe"] /\
  derive_regions [] = ["US"] /\
  c_regions (criteria_of (mkProfile [] [Some "London, UK"] None None))
  = ["Europe"].
Proof. repeat split; vm_compute; reflexivity. Qed.

(** ** The end-to-end example of the spec *)

(** Criteria with industry Software, region US and deal type Buyout: FundA
    scores 0.4 + 0.2 + 0.1, FundB scores 0, and the shortlist for the default
    [top_k] holds FundA only. *)
Example end_to_end :
  let p := mkProfile ["Software"] [] None None in
  (fun r => (fund r, score r))
    <$> query_pe_db (criteria_of p) [Examples.fundB; Examples.fundA]
  = [("FundA", 7000 # 10000); ("FundB", 0 # 10000)] /\
  e_fund <$> shortlist_pe_funds p [Examples.fundB; Examples.fundA]
               DEFAULT_TOP_K
  = ["FundA"].
Proof. vm_compute. split; reflexivity. Qed.

(** * Further properties of the scoring code *)

(** ** The coverage ratio *)

Lemma Zfrac_spec (o d : Z) :
  (0 < d)%Z ->
  (0 <= inject_Z o / inject_Z d <-> (0 <= o)%Z) /\
  (inject_Z o / inject_Z d <= 1 <-> (o <= d)%Z) /\
  (inject_Z o / inject_Z d == 1 <-> o = d) /\
  (inject_Z o / inject_Z d == 0 <-> o = 0%Z).
Proof.
  intros Hd. destruct d as [|p|p]; try lia.
  rewrite <- (Qmake_Qdiv o p). unfold Qle, Qeq. cbn [Qnum Qden].
  repeat split; lia.
Qed.

Lemma Qmax_inject_Z (a b : Z) :
  Qmax (inject_Z a) (inject_Z b) == inject_Z (Z.max a b).
Proof.
  destruct (Z.max_spec a b) as [[Hlt ->]|[Hle ->]].
  - apply Q.max_r. rewrite <- Zle_Qle. lia.
  - apply Q.max_l. rewrite <- Zle_Qle. lia.
Qed.

(** The value of the coverage ratio on a company range of positive length
    and a fund range that is not inverted: none of the clamps binds. *)
Lemma range_coverage_value (cmin cmax fmin fmax : Z) :
  (cmin < cmax)%Z -> (fmin <= fmax)%Z ->
  exists c,
    _range_coverage (Some cmin) (Some cmax) (Some fmin) (Some fmax) = Some c /\
    c == inject_Z (Z.max 0 (Z.min cmax fmax - Z.max cmin fmin))
         / inject_Z (cmax - cmin).
Proof.
  intros Hc Hf. unfold _range_coverage.
  rewrite (proj2 (Z.ltb_ge cmax cmin)), (proj2 (Z.ltb_ge fmax fmin)) by lia.
  cbn [orb]. eexists; split; [reflexivity|].
  set (t := (Z.min cmax fmax - Z.max cmin fmin)%Z).
  set (d := (cmax - cmin)%Z).
  destruct (Zfrac_spec (Z.max 0 t) d ltac:(lia)) as (H0 & H1 & _).
  assert (Qmax (1 # 1000000000) (inject_Z d) == inject_Z d) as ->.
  { apply Q.max_r. unfold Qle. cbn. lia. }
  change 0 with (inject_Z 0) at 2. rewrite Qmax_inject_Z.
  rewrite Q.min_r by (apply H1; lia).
  apply Q.max_r, H0. lia.
Qed.

(** X1: [_range_coverage] returns [None] exactly when one of the four
    bounds is missing, and otherwise a ratio between 0 and 1, whatever the
    bounds are (inverted and empty ranges included). *)
Theorem range_coverage_bounds (cmin cmax fmin fmax : option Z) :
  (_range_coverage cmin cmax fmin fmax = None
     <-> cmin = None \/ cmax = None \/ fmin = None \/ fmax = None) /\
  (forall c, _range_coverage cmin cmax fmin fmax = Some c -> 0 <= c <= 1).
Proof.
  split.
  - destruct cmin, cmax, fmin, fmax; cbn;
      try (split; [intros _; tauto | done]).
    destruct (_ || _)%bool; split; try done;
      intros [H|[H|[H|H]]]; discriminate H.
  - intros c. destruct cmin as [a|], cmax as [b|], fmin as [x|], fmax as [y|];
      cbn; try done.
    destruct (_ || _)%bool; intros [= <-].
    + split; discriminate.
    + split; [apply Q.le_max_l|].
      apply Q.max_lub; [discriminate | apply Q.le_min_l].
Qed.

(** X2: on a company range of positive length and a fund range that is not
    inverted, the coverage ratio is the length of the intersection divided
    by the length of the company range; it is 0 exactly when the two ranges
    share at most one point. *)
Theorem range_coverage_on_proper_ranges (cmin cmax fmin fmax : Z) :
  (cmin < cmax)%Z -> (fmin <= fmax)%Z ->
  exists c,
    _range_coverage (Some cmin) (Some cmax) (Some fmin) (Some fmax) = Some c /\
    c == inject_Z (Z.max 0 (Z.min cmax fmax - Z.max cmin fmin))
         / inject_Z (cmax - cmin) /\
    (c == 0 <-> (cmax <= fmin)%Z \/ (fmax <= cmin)%Z \/ fmin = fmax).
Proof.
  intros Hc Hf.
  destruct (range_coverage_value cmin cmax fmin fmax Hc Hf) as (c & Hv & E).
  exists c. split; [done|]. split; [done|]. rewrite E.
  destruct (Zfrac_spec (Z.max 0 (Z.min cmax fmax - Z.max cmin fmin))
              (cmax - cmin) ltac:(lia)) as (_ & _ & _ & ->).
  lia.
Qed.

(** The theorem on the ranges 10..30 and 20..50: half of the company range
    is covered. *)
Lemma range_coverage_on_proper_ranges_witness :
  (10 < 30)%Z /\ (20 <= 50)%Z /\
  exists c, _range_coverage (Some 10%Z) (Some 30%Z) (Some 20%Z) (Some 50%Z)
            = Some c /\ c == 1 # 2.
Proof.
  split; [lia|]. split; [lia|].
  destruct (range_coverage_on_proper_ranges 10 30 20 50 ltac:(lia) ltac:(lia))
    as (c & Hv & E & _).
  exists c. split; [exact Hv|]. rewrite E. reflexivity.
Defined.

(** X3: when all four bounds are set, the company range has positive length
    and the fund range is not inverted, the two diagnostics of the revenue
    subscore agree: [binary_fit] is 1 when the coverage ratio is 1, and 0
    when it is less. *)
Theorem binary_fit_agrees_with_coverage (criteria : Criteria) (f : Fund)
    (cmin cmax fmin fmax : Z) :
  c_revenue_usd criteria = Some (mkRange (Some cmin) (Some cmax)) ->
  f_revenue_focus_usd f = mkRange (Some fmin) (Some fmax) ->
  (cmin < cmax)%Z -> (fmin <= fmax)%Z ->
  let s := revenue (snd (score_with_breakdown (env_of criteria) f)) in
  exists c,
    coverage_ratio_of s = Some (Some c) /\
    (binary_fit_of s = Some 1 <-> c == 1) /\
    (binary_fit_of s = Some 0 <-> ~ c == 1).
Proof.
  intros Hrev Hfocus Hc Hf. cbv zeta. rewrite subscores_eq. cbn [revenue].
  unfold revenue_factor, range_factor. cbn [env_of rev]. rewrite Hrev, Hfocus.
  cbn [fst rmin rmax coverage_ratio_of binary_fit_of bound_ge bound_le].
  destruct (range_coverage_value cmin cmax fmin fmax Hc Hf) as (c & -> & E).
  exists c. split; [done|]. rewrite E.
  destruct (Zfrac_spec (Z.max 0 (Z.min cmax fmax - Z.max cmin fmin))
              (cmax - cmin) ltac:(lia)) as (_ & _ & -> & _).
  destruct (fmin <=? cmin)%Z eqn:E1, (cmax <=? fmax)%Z eqn:E2;
    rewrite ?Z.leb_le, ?Z.leb_gt in E1, E2; cbn;
    (split; (split; [intros H; try discriminate H; try lia
                    | intros H; try reflexivity; exfalso; lia])).
Qed.

(** The theorem on a company range inside the focus of [fundC]. *)
Lemma binary_fit_agrees_with_coverage_witness :
  let criteria :=
    mkCriteria [] []
      (Some (mkRange (Some 20000000%Z) (Some 30000000%Z))) None None in
  binary_fit_of
    (revenue (snd (score_with_breakdown (env_of criteria) Examples.fundC)))
  = Some 1.
Proof.
  cbv zeta.
  destruct (binary_fit_agrees_with_coverage
              (mkCriteria [] []
                 (Some (mkRange (Some 20000000%Z) (Some 30000000%Z)))
                 None None)
              Examples.fundC 20000000 30000000 10000000 50000000
              eq_refl eq_refl ltac:(lia) ltac:(lia)) as (c & Hc & Hfit & _).
  apply Hfit. vm_compute in Hc. injection Hc as <-. reflexivity.
Defined.

(** ** The industry factor *)

Lemma inds_nonempty (criteria : Criteria) :
  c_industries criteria <> [] -> inds (env_of criteria) <> ∅.
Proof.
  unfold env_of. cbn [inds]. destruct (c_industries criteria) as [|x l];
    [done|]. intros _ E.
  assert (Str.lower x ∈ (∅ : gset string)) as H; [|by apply elem_of_empty in H].
  rewrite <- E. cbn. apply elem_of_union_l, elem_of_singleton. done.
Qed.

(** X4: when the criteria name industries, the raw industry score is the
    number of (lower-cased) company industries that the fund lists, divided
    by the number of company industries; neither [min(1.0, ...)] nor
    [max(1, ...)] binds. It is 1 exactly when the fund lists every company
    industry and 0 exactly when it lists none. *)
Theorem industry_raw_is_overlap_fraction (criteria : Criteria) (f : Fund) :
  c_industries criteria <> [] ->
  let company : gset string := inds (env_of criteria) in
  let listed : gset string := list_to_set (Str.lower <$> f_industries f) in
  let s := industry (snd (score_with_breakdown (env_of criteria) f)) in
  exists raw,
    raw_of s = Some raw /\
    (0 < size company)%nat /\
    (size (company ∩ listed) <= size company)%nat /\
    raw == Qof_nat (size (company ∩ listed)) / Qof_nat (size company) /\
    (raw == 1 <-> company ⊆ listed) /\
    (raw == 0 <-> company ∩ listed = ∅).
Proof.
  intros Hne. cbv zeta. apply inds_nonempty in Hne.
  set (env := env_of criteria) in *.
  set (listed := list_to_set (Str.lower <$> f_industries f) : gset string).
  rewrite subscores_eq. cbn [industry]. unfold industry_factor.
  rewrite bool_decide_eq_true_2 by done. cbn [fst raw_of]. fold listed.
  assert (0 < size (inds env))%nat as Hpos.
  { apply Nat.neq_0_lt_0. intros E.
    apply size_empty_iff, leibniz_equiv in E. done. }
  assert (size (inds env ∩ listed) <= size (inds env))%nat as Hle.
  { apply subseteq_size, intersection_subseteq_l. }
  rewrite Nat.max_r by lia. unfold Qof_nat.
  assert (0 < Z.of_nat (size (inds env)))%Z as HposZ by lia.
  destruct (Zfrac_spec (Z.of_nat (size (inds env ∩ listed)))
              (Z.of_nat (size (inds env))) HposZ) as (_ & H1 & Heq1 & Heq0).
  eexists. split; [reflexivity|]. split; [done|]. split; [done|].
  rewrite Q.min_r by (apply H1; lia). split; [reflexivity|].
  rewrite Heq1, Heq0. split.
  - split.
    + intros E. apply Nat2Z.inj in E.
      assert (inds env ∩ listed = inds env) as Hi.
      { apply set_subseteq_size_eq; [apply intersection_subseteq_l | lia]. }
      intros x Hx. rewrite <- Hi in Hx. by apply elem_of_intersection in Hx as [_ ?].
    + intros Hsub. f_equal. f_equal. apply leibniz_equiv.
      apply subseteq_intersection_1. done.
  - split.
    + intros E. apply leibniz_equiv, size_empty_iff. lia.
    + intros ->. by rewrite size_empty.
Qed.

(** The theorem on a company in two industries, one of which FundA lists. *)
Lemma industry_raw_is_overlap_fraction_witness :
  let criteria := mkCriteria ["Software"; "Retail"] [] None None None in
  c_industries criteria <> [] /\
  exists raw,
    raw_of (industry (snd (score_with_breakdown (env_of criteria)
                             Examples.fundA))) = Some raw /\
    raw == 1 # 2.
Proof.
  cbv zeta. split; [done|].
  destruct (industry_raw_is_overlap_fraction
              (mkCriteria ["Software"; "Retail"] [] None None None)
              Examples.fundA ltac:(done)) as (raw & Hraw & _ & _ & E & _).
  exists raw. split; [exact Hraw|]. rewrite E. vm_compute. reflexivity.
Defined.

(** ** What the score depends on *)

Lemma list_to_set_ext (l k : list string) :
  (forall x, x ∈ l <-> x ∈ k) ->
  (list_to_set l : gset string) = list_to_set k.
Proof.
  intros H. apply set_eq. intros x. by rewrite !elem_of_list_to_set.
Qed.

Lemma lower_ascii_idemp (c : ascii) :
  Str.lower_ascii (Str.lower_ascii c) = Str.lower_ascii c.
Proof.
  destruct c as [[] [] [] [] [] [] [] []]; reflexivity.
Qed.

Lemma lower_idemp (s : string) : Str.lower (Str.lower s) = Str.lower s.
Proof.
  induction s as [|c r IH]; cbn; [done|]. by rewrite lower_ascii_idemp, IH.
Qed.

(** X5: the score and the raw scores of a fund depend on its industries,
    regions and deal types only through the sets of their lower-cased
    names: case, order and repeats in the fund record do not matter. *)
Theorem score_ignores_case_order_repeats (env : Env) (f f' : Fund) :
  (forall x, x ∈ Str.lower <$> f_industries f
             <-> x ∈ Str.lower <$> f_industries f') ->
  (forall x, x ∈ Str.lower <$> f_regions f
             <-> x ∈ Str.lower <$> f_regions f') ->
  (forall x, x ∈ Str.lower <$> f_deal_types f
             <-> x ∈ Str.lower <$> f_deal_types f') ->
  f_revenue_focus_usd f = f_revenue_focus_usd f' ->
  f_employee_focus f = f_employee_focus f' ->
  let s := score_with_breakdown env f in
  let s' := score_with_breakdown env f' in
  fst s = fst s' /\
  raw_of (industry (snd s)) = raw_of (industry (snd s')) /\
  raw_of (region (snd s)) = raw_of (region (snd s')) /\
  raw_of (revenue (snd s)) = raw_of (revenue (snd s')) /\
  raw_of (employees (snd s)) = raw_of (employees (snd s')) /\
  raw_of (deal (snd s)) = raw_of (deal (snd s')).
Proof.
  intros Hi Hr Hd Hrev Hemp. cbv zeta.
  apply list_to_set_ext in Hi, Hr.
  pose proof (bool_decide_ext _ _ (Hd (deal_ env))) as Hdeal.
  rewrite !subscores_eq, !score_with_breakdown_eq, !run_factors_eq.
  cbv zeta. cbn [fst snd industry region revenue employees deal].
  unfold deal_factor, employees_factor, revenue_factor, range_factor,
    region_factor, industry_factor.
  rewrite Hi, Hr, Hdeal, Hrev, Hemp.
  destruct (bool_decide (inds env ≠ ∅)), (bool_decide (regs env ≠ ∅)),
    (rev env), (emp env), (bool_decide (deal_ env ≠ "")); cbn; done.
Qed.

(** The theorem on FundA and a copy of it written in other cases, with
    repeats. *)
Lemma score_ignores_case_order_repeats_witness :
  let f' := mkFund "FundA2" ["SOFTWARE"; "software"] ["us"; "US"]
              no_range no_range ["BUYOUT"] in
  let env := env_of (criteria_of Examples.software_profile) in
  fst (score_with_breakdown env Examples.fundA)
  = fst (score_with_breakdown env f').
Proof.
  cbv zeta.
  apply (score_ignores_case_order_repeats
           (env_of (criteria_of Examples.software_profile)) Examples.fundA
           (mkFund "FundA2" ["SOFTWARE"; "software"] ["us"; "US"]
              no_range no_range ["BUYOUT"]));
    try reflexivity; intros x; cbn; rewrite !elem_of_cons;
    rewrite ?elem_of_nil; tauto.
Defined.

(** X6: two criteria whose industries and regions have the same lower-cased
    names, whose ranges are equal and whose deal types are equal up to case
    give the same output of [query_pe_db], subscores included. *)
Theorem query_ignores_criteria_case (c c' : Criteria) (funds : list Fund) :
  (forall x, x ∈ Str.lower <$> c_industries c
             <-> x ∈ Str.lower <$> c_industries c') ->
  (forall x, x ∈ Str.lower <$> c_regions c
             <-> x ∈ Str.lower <$> c_regions c') ->
  c_revenue_usd c = c_revenue_usd c' ->
  c_employees c = c_employees c' ->
  Str.lower (default "" (c_deal_type c))
  = Str.lower (default "" (c_deal_type c')) ->
  query_pe_db c funds = query_pe_db c' funds.
Proof.
  intros Hi Hr Hrev Hemp Hdeal. unfold query_pe_db.
  assert (env_of c = env_of c') as ->; [|done].
  unfold env_of. apply list_to_set_ext in Hi, Hr.
  by rewrite Hi, Hr, Hrev, Hemp, Hdeal.
Qed.

(** The theorem on criteria written in lower and in upper case. *)
Lemma query_ignores_criteria_case_witness :
  query_pe_db (mkCriteria ["software"] ["us"] None None (Some "buyout"))
    [Examples.fundA; Examples.fundB]
  = query_pe_db (mkCriteria ["SOFTWARE"; "Software"] ["US"] None None
                   (Some "BUYOUT"))
      [Examples.fundA; Examples.fundB].
Proof.
  apply query_ignores_criteria_case; try reflexivity;
    intros x; cbn; rewrite !elem_of_cons; rewrite ?elem_of_nil; tauto.
Defined.

(** ** The displayed contributions *)

Lemma round_half_even_add_even (q : Q) (m : Z) :
  Z.even m = true ->
  round_half_even (q + inject_Z m) = (round_half_even q + m)%Z.
Proof.
  intros Hm. destruct q as [n d]. unfold round_half_even, Qplus, inject_Z.
  cbn [Qnum Qden]. rewrite Pos.mul_1_r, Z.mul_1_r.
  rewrite Z.div_add, Z.mod_add by lia.
  rewrite Z.even_add, Hm.
  destruct (2 * (n mod Z.pos d) ?= Z.pos d)%Z; [|lia..].
  destruct (Z.even (n / Z.pos d)); cbn; lia.
Qed.

(** Rounding to four decimals commutes with adding an even number of
    ten-thousandths. *)
Lemma round4_add_even (x e : Q) (m : Z) :
  Z.even m = true -> e == m # 10000 -> round4 (x + e) == round4 x + e.
Proof.
  intros Hm He. unfold round4.
  rewrite (round_half_even_proper ((x + e) * 10000) (x * 10000 + inject_Z m)).
  - rewrite round_half_even_add_even by done. rewrite He.
    unfold Qeq, Qplus. cbn [Qnum Qden]. lia.
  - rewrite He, (Qmake_Qdiv m 10000). field.
Qed.

Lemma weighted_bool_step (w : Q) (b : bool) (m : Z) :
  Z.even m = true -> w == m # 10000 ->
  exists k : Z, Z.even k = true /\
    round4 (w * Qof_bool b) == k # 10000 /\ w * Qof_bool b == k # 10000.
Proof.
  intros Hm Hw. destruct b; cbn [Qof_bool].
  - exists m. split; [done|]. split; [|by rewrite Hw, Qmult_1_r].
    rewrite (round4_proper (w * 1) (0 + w)) by ring.
    rewrite (round4_add_even 0 w m Hm Hw), Hw.
    change (round4 0) with (0 # 10000). unfold Qeq, Qplus. cbn. lia.
  - exists 0%Z. split; [done|]. split; [|by rewrite Qmult_0_r].
    rewrite (round4_proper (w * 0) 0) by ring. reflexivity.
Qed.

Lemma region_factor_binary env f : binary_step (region_factor env f).
Proof.
  intros t. unfold region_factor. case_bool_decide.
  - destruct (weighted_bool_step weights.region
                (0 <? size (regs env
                              ∩ list_to_set (Str.lower <$> f_regions f)))%nat
                2000 eq_refl ltac:(reflexivity)) as (k & Hk & Hd & Hc).
    exists k. split; [done|]. cbn [fst snd]. split; [exact Hd|].
    by rewrite Hc.
  - exists 0%Z. split; [done|]. cbn. split; [reflexivity | ring].
Qed.

Lemma range_factor_binary crit focus (w : Q) (m : Z) :
  Z.even m = true -> w == m # 10000 ->
  binary_step (range_factor crit focus w).
Proof.
  intros Hm Hw t. unfold range_factor. destruct crit as [r|].
  - destruct (weighted_bool_step w
                (bound_ge (rmin r) (rmin focus)
                 && bound_le (rmax r) (rmax focus)) m Hm Hw)
      as (k & Hk & Hd & Hc).
    exists k. split; [done|]. cbn [fst snd]. split; [exact Hd|].
    by rewrite Hc.
  - exists 0%Z. split; [done|]. cbn. split; [reflexivity | ring].
Qed.

Lemma deal_factor_binary env f : binary_step (deal_factor env f).
Proof.
  intros t. unfold deal_factor. case_bool_decide.
  - destruct (weighted_bool_step weights.deal
                (bool_decide (deal_ env ∈ Str.lower <$> f_deal_types f))
                1000 eq_refl ltac:(reflexivity)) as (k & Hk & Hd & Hc).
    exists k. split; [done|]. cbn [fst snd]. split; [exact Hd|].
    by rewrite Hc.
  - exists 0%Z. split; [done|]. cbn. split; [reflexivity | ring].
Qed.

Lemma industry_factor_displayed env f :
  displayed_contribution (fst (industry_factor env f 0))
  == round4 (snd (industry_factor env f 0)).
Proof.
  unfold industry_factor. case_bool_decide; cbn [fst snd].
  - unfold displayed_contribution. cbn. apply round4_proper. ring.
  - reflexivity.
Qed.

(** X7: unless the industry contribution lies half-way between two
    four-decimal values, the composite score is exactly the sum of the
    ["contribution"] fields displayed in the five subscores (a factor that is
    not applied displays none): rounding each contribution to four decimals
    and rounding their sum give the same total. At such a tie (64 company
    industries of which one overlaps, say) the binary rounding of the
    program decides, and the two can differ in the last digit. *)
Theorem score_is_sum_of_displayed_contributions (env : Env) (f : Fund) :
  ~ decimal_tie
      (factor_contribution (industry (snd (score_with_breakdown env f)))) ->
  fst (score_with_breakdown env f)
  == displayed_sum (snd (score_with_breakdown env f)).
Proof.
  intros _.
  rewrite score_with_breakdown_eq, run_factors_eq. cbv zeta. cbn [fst snd].
  unfold displayed_sum. cbn [industry region revenue employees deal].
  pose proof (industry_factor_displayed env f) as D0.
  set (a := industry_factor env f 0) in *.
  destruct (region_factor_binary env f (snd a)) as (m1 & E1 & D1 & T1).
  set (b := region_factor env f (snd a)) in *.
  destruct (range_factor_binary (rev env) (f_revenue_focus_usd f)
              weights.revenue 2000 eq_refl ltac:(reflexivity) (snd b))
    as (m2 & E2 & D2 & T2).
  fold (revenue_factor env f) in D2, T2.
  set (c := revenue_factor env f (snd b)) in *.
  destruct (range_factor_binary (emp env) (f_employee_focus f)
              weights.employees 1000 eq_refl ltac:(reflexivity) (snd c))
    as (m3 & E3 & D3 & T3).
  fold (employees_factor env f) in D3, T3.
  set (d := employees_factor env f (snd c)) in *.
  destruct (deal_factor_binary env f (snd d)) as (m4 & E4 & D4 & T4).
  set (e := deal_factor env f (snd d)) in *.
  rewrite D0, D1, D2, D3, D4.
  rewrite (round4_proper (snd e)
             (snd a + ((m1 + m2 + m3 + m4)%Z # 10000))).
  - rewrite (round4_add_even (snd a) _ (m1 + m2 + m3 + m4)%Z);
      [|by rewrite !Z.even_add, E1, E2, E3, E4 | reflexivity].
    rewrite !(Qmake_Qdiv _ 10000), !inject_Z_plus. field.
  - rewrite T4, T3, T2, T1.
    rewrite !(Qmake_Qdiv _ 10000), !inject_Z_plus. field.
Qed.

(** The theorem at the software profile and a fund that matches it: the
    industry contribution is 0.4, and the score 0.9 is
    0.4 + 0.2 + 0.2 + 0.1. *)
Lemma score_is_sum_of_displayed_contributions_witness :
  let env := env_of (criteria_of Examples.software_profile) in
  let r := score_with_breakdown env (Examples.us_buyout "F1") in
  fst r == 9 # 10 /\ fst r == displayed_sum (snd r).
Proof.
  cbv zeta. split; [by vm_compute|].
  apply score_is_sum_of_displayed_contributions.
  intros [n Hn]. change (factor_contribution _) with (4 # 10 * 1) in Hn.
  unfold Qeq in Hn. cbn in Hn. lia.
Defined.

(** ** The weight of the applied factors *)

Lemma round4_le_decimal (q : Q) (k : Z) :
  0 <= q -> q <= k # 10000 -> round4 q <= k # 10000.
Proof.
  intros H0 Hk. unfold round4.
  destruct (round_half_even_bounds (q * 10000) 0 k) as [_ Hu].
  - change (inject_Z 0) with 0. nra.
  - rewrite (Qmake_Qdiv k 10000) in Hk.
    apply (Qmult_le_compat_r _ _ 10000) in Hk; [|discriminate].
    eapply Qle_trans; [exact Hk|]. apply Qle_lteq. right. field.
  - unfold Qle. cbn [Qnum Qden]. lia.
Qed.

Lemma decimal_plus (a b : Z) : (a # 10000) + (b # 10000) == (a + b)%Z # 10000.
Proof. unfold Qeq, Qplus. cbn [Qnum Qden]. lia. Qed.

(** What a block adds is at most the weight its subscore counts as
    applied. *)
Lemma step_applied_weight (w : Q) (k : Z) (step : Q -> Subscore * Q) (t : Q) :
  step_ok w step -> w == k # 10000 ->
  0 <= factor_contribution (fst (step t)) <= applied_weight (fst (step t)) /\
  applied_weight (fst (step t))
  == (if applied (fst (step t)) then k else 0%Z) # 10000.
Proof.
  intros Hok Hw. destruct (Hok t) as (_ & [H0 H1] & Hweight).
  unfold applied_weight. rewrite Hweight.
  destruct (applied (fst (step t))) eqn:E.
  - by rewrite Hw in *.
  - rewrite (not_applied_contribution _ E).
    split; [split; apply Qle_refl | reflexivity].
Qed.

(** X8: the composite score is at most the sum of the weights of the
    factors that are applied: the weight of a factor that is absent from the
    criteria is not given to the others. *)
Theorem score_at_most_applied_weight (env : Env) (f : Fund) :
  fst (score_with_breakdown env f)
  <= applied_weight_sum (snd (score_with_breakdown env f)).
Proof.
  rewrite score_with_breakdown_eq. cbn [fst snd].
  destruct (run_factors_total env f) as [Hsum [H0 _]].
  revert Hsum H0. rewrite run_factors_eq. cbv zeta. cbn [fst snd].
  unfold applied_weight_sum, contribution_sum.
  cbn [industry region revenue employees deal].
  set (a := industry_factor env f 0).
  set (b := region_factor env f (snd a)).
  set (c := revenue_factor env f (snd b)).
  set (d := employees_factor env f (snd c)).
  set (e := deal_factor env f (snd d)).
  destruct (step_applied_weight _ 4000 _ 0 (industry_factor_ok env f)
              ltac:(reflexivity)) as [Ba Wa].
  destruct (step_applied_weight _ 2000 _ (snd a) (region_factor_ok env f)
              ltac:(reflexivity)) as [Bb Wb].
  destruct (step_applied_weight _ 2000 _ (snd b)
              (range_factor_ok (rev env) (f_revenue_focus_usd f)
                 weights.revenue ltac:(discriminate))
              ltac:(reflexivity)) as [Bc Wc].
  destruct (step_applied_weight _ 1000 _ (snd c)
              (range_factor_ok (emp env) (f_employee_focus f)
                 weights.employees ltac:(discriminate))
              ltac:(reflexivity)) as [Bd Wd].
  destruct (step_applied_weight _ 1000 _ (snd d) (deal_factor_ok env f)
              ltac:(reflexivity)) as [Be We].
  fold (revenue_factor env f) in Bc, Wc.
  fold (employees_factor env f) in Bd, Wd.
  fold a in Ba, Wa. fold b in Bb, Wb. fold c in Bc, Wc.
  fold d in Bd, Wd. fold e in Be, We.
  intros Hsum H0.
  assert (snd e <= applied_weight (fst a) + applied_weight (fst b)
                   + applied_weight (fst c) + applied_weight (fst d)
                   + applied_weight (fst e)) as Hle by lra.
  revert Hle. rewrite Wa, Wb, Wc, Wd, We, !decimal_plus.
  by apply round4_le_decimal.
Qed.

(** ** More on the ranking and the shortlist *)

Lemma filter_fmap {A B : Type} (g : A -> B) (p : B -> bool) (l : list A) :
  List.filter p (g <$> l) = g <$> List.filter (fun x => p (g x)) l.
Proof.
  induction l as [|x r IH]; cbn; [done|].
  destruct (p (g x)); cbn; by rewrite IH.
Qed.

Lemma filter_length_perm {A : Type} (p : A -> bool) (l k : list A) :
  l ≡ₚ k -> length (List.filter p l) = length (List.filter p k).
Proof.
  induction 1 as [|x l k _ IH|x y l|l k m _ IH1 _ IH2]; cbn.
  - done.
  - destruct (p x); cbn; by rewrite IH.
  - destruct (p x), (p y); done.
  - by rewrite IH1.
Qed.

Lemma StronglySorted_sublist {A : Type} (R : relation A) (l1 l2 : list A) :
  sublist l1 l2 -> StronglySorted R l2 -> StronglySorted R l1.
Proof.
  induction 1 as [|x l1 l2 Hsub IH|x l1 l2 Hsub IH]; intros Hs.
  - constructor.
  - apply StronglySorted_inv in Hs as [Hs Hx]. constructor; [by apply IH|].
    rewrite Forall_forall in Hx. apply Forall_forall. intros y Hy.
    apply Hx. by eapply elem_of_sublist.
  - apply StronglySorted_inv in Hs as [Hs _]. by apply IH.
Qed.

Lemma entries_sorted p criteria funds :
  StronglySorted entry_ge (entry_of p <$> query_pe_db criteria funds).
Proof.
  pose proof (sorted_desc_StronglySorted score
    ((fun f => score_fund (env_of criteria) f f) <$> funds)) as Hs.
  fold (query_pe_db criteria funds) in Hs.
  induction Hs as [|x r Hr IH Hx]; cbn; constructor; [done|].
  apply Forall_fmap. eapply Forall_impl; [exact Hx|]. by intros y Hy.
Qed.

Lemma filter_is_sublist {A : Type} (p : A -> bool) (l : list A) :
  sublist (List.filter p l) l.
Proof.
  induction l as [|x r IH]; cbn; [constructor|].
  destruct (p x); by constructor.
Qed.

Lemma ranked_above_threshold_sorted p funds :
  StronglySorted entry_ge (ranked_above_threshold p funds).
Proof.
  eapply StronglySorted_sublist; [|apply entries_sorted].
  apply filter_is_sublist.
Qed.

(** X9: the ranking has one element per fund record; each element carries
    the name of the record it points to and the score and subscores computed
    for that record; an empty dataset gives an empty ranking. *)
Theorem query_results_belong_to_their_fund (criteria : Criteria)
    (funds : list Fund) :
  length (query_pe_db criteria funds) = length funds /\
  fund <$> query_pe_db criteria funds ≡ₚ f_name <$> funds /\
  Forall (fun r =>
            match_ r ∈ funds /\
            fund r = f_name (match_ r) /\
            (score r, subscores r)
            = score_with_breakdown (env_of criteria) (match_ r))
    (query_pe_db criteria funds) /\
  query_pe_db criteria [] = [].
Proof.
  unfold query_pe_db. split; [|split; [|split]].
  - by rewrite sorted_desc_length, length_fmap.
  - rewrite sorted_desc_perm, <- list_fmap_compose. done.
  - rewrite sorted_desc_perm. apply Forall_fmap, Forall_forall.
    intros f Hf. cbn. split; [done|]. split; [done|].
    by destruct (score_with_breakdown (env_of criteria) f).
  - reflexivity.
Qed.

(** X10: for [top_k >= 0] the shortlist has exactly
    min(top_k, number of funds of the dataset that score at least 0.2)
    entries: the over-fetch never leaves it shorter than that. *)
Theorem shortlist_length (p : CompanyProfile) (funds : list Fund)
    (top_k : Z) :
  (0 <= top_k)%Z ->
  length (shortlist_pe_funds p funds top_k)
  = Nat.min (Z.to_nat top_k)
      (length (List.filter (clears_threshold p) funds)).
Proof.
  intros Hk. rewrite shortlist_as_prefix, length_take by done. f_equal.
  unfold ranked_above_threshold. rewrite filter_fmap, length_fmap.
  unfold query_pe_db.
  rewrite (filter_length_perm _ _ _ (sorted_desc_perm score _)).
  by rewrite filter_fmap, length_fmap.
Qed.

(** The theorem on four matching funds and [top_k = 2]. *)
Lemma shortlist_length_witness :
  (0 <= 2)%Z /\
  length (shortlist_pe_funds Examples.software_profile Examples.us_funds 2)
  = 2%nat.
Proof.
  split; [lia|].
  rewrite (shortlist_length Examples.software_profile Examples.us_funds 2)
    by lia.
  vm_compute. reflexivity.
Defined.

(** X11: for [top_k >= 0] the shortlist is the best of the ranking: the
    funds above the threshold are the shortlist followed by funds that score
    no more than any shortlisted one, and the shortlist is in descending
    order of score. *)
Theorem shortlist_is_top_k (p : CompanyProfile) (funds : list Fund)
    (top_k : Z) :
  (0 <= top_k)%Z ->
  let out := shortlist_pe_funds p funds top_k in
  exists rest,
    ranked_above_threshold p funds = (out ++ rest)%list /\
    StronglySorted entry_ge out /\
    forall x y, x ∈ out -> y ∈ rest -> e_score y <= e_score x.
Proof.
  intros Hk. cbv zeta. rewrite shortlist_as_prefix by done.
  exists (drop (Z.to_nat top_k) (ranked_above_threshold p funds)).
  pose proof (ranked_above_threshold_sorted p funds) as Hs.
  rewrite <- (take_drop (Z.to_nat top_k) (ranked_above_threshold p funds))
    in Hs at 1.
  split; [by rewrite take_drop|].
  apply StronglySorted_app in Hs as (Hcross & Hs1 & _).
  split; [done|]. intros x y Hx Hy. by apply Hcross.
Qed.

Lemma shortlist_is_top_k_witness :
  (0 <= 2)%Z /\
  StronglySorted entry_ge
    (shortlist_pe_funds Examples.software_profile Examples.us_funds 2).
Proof.
  split; [lia|].
  destruct (shortlist_is_top_k Examples.software_profile Examples.us_funds 2
              ltac:(lia)) as (rest & _ & Hs & _).
  exact Hs.
Defined.

Lemma shortlist_sublist_ranked p funds top_k :
  sublist (shortlist_pe_funds p funds top_k)
    (entry_of p <$> query_pe_db (criteria_of p) funds).
Proof.
  unfold shortlist_pe_funds.
  etransitivity; [apply slice_to_sublist|].
  etransitivity; [apply filter_is_sublist|].
  apply fmap_sublist, slice_to_sublist.
Qed.

(** X12: raising [top_k] only appends: for [0 <= k <= k'] the shortlist for
    [k] is the first part of the shortlist for [k']. *)
Theorem shortlist_grows_with_top_k (p : CompanyProfile) (funds : list Fund)
    (k k' : Z) :
  (0 <= k <= k')%Z ->
  shortlist_pe_funds p funds k
  = take (Z.to_nat k) (shortlist_pe_funds p funds k').
Proof.
  intros Hk. rewrite !shortlist_as_prefix by lia.
  rewrite take_take. f_equal. lia.
Qed.

Lemma shortlist_grows_with_top_k_witness :
  (0 <= 1 <= 3)%Z /\
  shortlist_pe_funds Examples.software_profile Examples.us_funds 1
  = take 1 (shortlist_pe_funds Examples.software_profile Examples.us_funds 3).
Proof.
  split; [lia|].
  apply (shortlist_grows_with_top_k Examples.software_profile
           Examples.us_funds 1 3). lia.
Defined.

(** X13: when the fund names of the dataset are distinct, no fund appears
    twice in the shortlist, whatever [top_k] is. *)
Theorem shortlist_names_distinct (p : CompanyProfile) (funds : list Fund)
    (top_k : Z) :
  NoDup (f_name <$> funds) ->
  NoDup (e_fund <$> shortlist_pe_funds p funds top_k).
Proof.
  intros Hnd.
  eapply sublist_NoDup;
    [|apply fmap_sublist, (shortlist_sublist_ranked p funds top_k)].
  rewrite <- list_fmap_compose. unfold query_pe_db.
  rewrite sorted_desc_perm, <- list_fmap_compose. exact Hnd.
Qed.

Lemma shortlist_names_distinct_witness :
  NoDup (f_name <$> Examples.us_funds) /\
  NoDup (e_fund <$> shortlist_pe_funds Examples.software_profile
                      Examples.us_funds DEFAULT_TOP_K).
Proof.
  assert (NoDup (f_name <$> Examples.us_funds)) as Hnd.
  { cbn. repeat (constructor; [rewrite ?elem_of_cons, ?elem_of_nil;
                               intros H; repeat destruct H as [H|H];
                               discriminate H || done|]).
    constructor. }
  split; [exact Hnd|].
  by apply (shortlist_names_distinct Examples.software_profile
              Examples.us_funds DEFAULT_TOP_K).
Defined.

(** ** Which factors a profile applies *)

Lemma list_to_set_lower_empty (l : list string) :
  (list_to_set (Str.lower <$> l) : gset string) = ∅ <-> l = [].
Proof.
  split; [|by intros ->]. destruct l as [|x r]; [done|]. intros E.
  assert (Str.lower x ∈ (∅ : gset string)) as H; [|by apply elem_of_empty in H].
  rewrite <- E. cbn. apply elem_of_union_l, elem_of_singleton. done.
Qed.

Lemma or_default_nonempty (l d : list string) : d <> [] -> or_default l d <> [].
Proof. by destruct l. Qed.

Lemma applied_flags (p : CompanyProfile) (f : Fund) :
  let subs := snd (score_with_breakdown (env_of (criteria_of p)) f) in
  applied (industry subs) = nonempty (p_industries p) /\
  applied (region subs) = true /\
  applied (revenue subs) = is_Some_b (p_revenue_range_usd p) /\
  applied (employees subs) = is_Some_b (p_employee_count_range p) /\
  applied (deal subs) = true.
Proof.
  cbv zeta. rewrite subscores_eq.
  cbn [industry region revenue employees deal].
  unfold industry_factor, region_factor, revenue_factor, employees_factor,
    range_factor, deal_factor.
  cbn [env_of criteria_of inds regs rev emp deal_ c_industries c_regions
       c_revenue_usd c_employees c_deal_type].
  unfold industries, rev_, emp_. split; [|split; [|split; [|split]]].
  - case_bool_decide as H; rewrite list_to_set_lower_empty in H.
    + by destruct (p_industries p).
    + by rewrite H.
  - rewrite bool_decide_eq_true_2; [done|].
    rewrite list_to_set_lower_empty. by apply or_default_nonempty.
  - by destruct (p_revenue_range_usd p).
  - by destruct (p_employee_count_range p).
  - rewrite bool_decide_eq_true_2; done.
Qed.

(** X14: which factors are applied depends on the profile alone: for every
    profile, every fund of the ranking (so every entry of the shortlist) has
    the region and deal factors applied; the industry factor is applied when
    the profile lists an industry, the revenue and employees factors when it
    has the range. *)
Theorem profile_decides_applied_factors (p : CompanyProfile)
    (funds : list Fund) (top_k : Z) :
  let flags (subs : Subscores) :=
    applied (industry subs) = nonempty (p_industries p) /\
    applied (region subs) = true /\
    applied (revenue subs) = is_Some_b (p_revenue_range_usd p) /\
    applied (employees subs) = is_Some_b (p_employee_count_range p) /\
    applied (deal subs) = true in
  Forall (fun r => flags (subscores r)) (query_pe_db (criteria_of p) funds) /\
  Forall (fun x => flags (r_subscores (e_rationale x)))
    (shortlist_pe_funds p funds top_k).
Proof.
  cbv zeta.
  assert (Forall (fun r =>
    applied (industry (subscores r)) = nonempty (p_industries p) /\
    applied (region (subscores r)) = true /\
    applied (revenue (subscores r)) = is_Some_b (p_revenue_range_usd p) /\
    applied (employees (subscores r)) = is_Some_b (p_employee_count_range p) /\
    applied (deal (subscores r)) = true)
    (query_pe_db (criteria_of p) funds)) as Hr.
  { unfold query_pe_db. rewrite sorted_desc_perm.
    apply Forall_fmap, Forall_forall. intros f _. apply applied_flags. }
  split; [exact Hr|].
  apply Forall_forall. intros x Hx.
  pose proof (elem_of_sublist _ _ _ Hx (shortlist_sublist_ranked p funds top_k))
    as Hin.
  apply list_elem_of_fmap in Hin as (r & -> & Hin).
  rewrite Forall_forall in Hr. by apply Hr.
Qed.

(** ** The rationale *)

Ltac decide_closed :=
  match goal with
  | |- ~ _ => let H := fresh in intros H; decide_closed
  | H : _ ∈ _ |- _ =>
      apply (bool_decide_pack _) in H; vm_compute in H; by destruct H
  | H : is_Some None |- _ => by destruct H
  | H : _ = _ |- _ => discriminate H
  | |- is_Some (Some _) => by eexists
  | |- _ ∈ _ => apply (bool_decide_unpack _); vm_compute; exact I
  | |- _ <> _ => discriminate
  | |- _ = _ => reflexivity
  end.

(** X15: the reasons in an entry's summary follow the profile, not the fit:
    "revenue range compatible" (and likewise "employee range compatible") is
    listed for every fund exactly when the profile has the range, whatever
    the fund's focus; "region fit" is never listed when no region label was
    derived from the locations, although the default US region is scored;
    the list is never empty. *)
Theorem reasons_follow_profile (p : CompanyProfile) (f : Fund) :
  ("revenue range compatible" ∈ reasons p f
     <-> is_Some (p_revenue_range_usd p)) /\
  ("employee range compatible" ∈ reasons p f
     <-> is_Some (p_employee_count_range p)) /\
  (reg_labels (p_locations p) = [] -> "region fit" ∉ reasons p f) /\
  reasons p f <> [].
Proof.
  unfold reasons, rev_, emp_, labels, industries.
  set (b1 := nonempty (p_industries p)
             && lower_overlap (p_industries p) (f_industries f)).
  split; [|split; [|split]].
  - destruct b1, (nonempty _ && lower_overlap _ (f_regions f)),
      (p_revenue_range_usd p), (p_employee_count_range p); cbn;
      split; intros H; decide_closed.
  - destruct b1, (nonempty _ && lower_overlap _ (f_regions f)),
      (p_revenue_range_usd p), (p_employee_count_range p); cbn;
      split; intros H; decide_closed.
  - intros ->. cbn [nonempty andb].
    destruct b1, (p_revenue_range_usd p), (p_employee_count_range p); cbn;
      decide_closed.
  - destruct b1, (nonempty _ && lower_overlap _ (f_regions f)),
      (p_revenue_range_usd p), (p_employee_count_range p); cbn;
      decide_closed.
Qed.

(** ** Region labels *)

Lemma fromkeys_spec (seen l : list string) :
  NoDup (Str.fromkeys seen l) /\
  forall x, x ∈ Str.fromkeys seen l <-> x ∈ l /\ x ∉ seen.
Proof.
  revert seen. induction l as [|y r IH]; intros seen; cbn.
  - split; [constructor|]. intros x. rewrite elem_of_nil. tauto.
  - case_bool_decide as Hy.
    + destruct (IH seen) as [Hnd Hin]. split; [done|]. intros x.
      rewrite Hin, elem_of_cons. split; [tauto|].
      intros [[->|?] ?]; tauto.
    + destruct (IH (y :: seen)) as [Hnd Hin]. split.
      * constructor; [|done]. rewrite Hin, elem_of_cons. tauto.
      * intros x. rewrite !elem_of_cons, Hin, elem_of_cons.
        destruct (decide (x = y)) as [->|]; tauto.
Qed.

Lemma region_label_cases (loc : option string) :
  region_label loc = None \/ region_label loc = Some "US"
  \/ region_label loc = Some "Canada" \/ region_label loc = Some "Europe".
Proof.
  unfold region_label.
  destruct (Str.any_in us_keys (Str.lower (default "" loc))),
    (Str.any_in canada_keys (Str.lower (default "" loc))),
    (Str.any_in europe_keys (Str.lower (default "" loc))); tauto.
Qed.

(** X16: the region labels derived from the locations have no repeats and
    are exactly the labels of the single locations, each one of US, Canada
    and Europe; the regions put in the criteria are never empty; and a
    location whose lower-cased text contains "us" anywhere is labelled US,
    whatever else it names. *)
Theorem region_labels_spec (locations : list (option string)) :
  NoDup (reg_labels locations) /\
  (forall l, l ∈ reg_labels locations
             <-> exists loc, loc ∈ locations /\ region_label loc = Some l) /\
  (forall l, l ∈ derive_regions locations
             -> l = "US" \/ l = "Canada" \/ l = "Europe") /\
  NoDup (derive_regions locations) /\
  derive_regions locations <> [] /\
  (forall loc, Str.contains "us" (Str.lower (default "" loc)) = true ->
               region_label loc = Some "US").
Proof.
  destruct (fromkeys_spec [] (omap region_label locations)) as [Hnd Hin].
  fold (reg_labels locations) in Hnd, Hin.
  assert (forall l, l ∈ reg_labels locations
             <-> exists loc, loc ∈ locations /\ region_label loc = Some l)
    as Hmem.
  { intros l. rewrite Hin, list_elem_of_omap, elem_of_nil. tauto. }
  split; [done|]. split; [done|]. split; [|split; [|split]].
  - assert (forall l, l ∈ reg_labels locations
                      -> l = "US" \/ l = "Canada" \/ l = "Europe") as Hthree.
    { intros l Hl. apply Hmem in Hl as (loc & _ & Hloc).
      destruct (region_label_cases loc) as [H|[H|[H|H]]];
        rewrite H in Hloc; [discriminate|..]; injection Hloc as <-; tauto. }
    intros l. unfold derive_regions.
    destruct (reg_labels locations) as [|x r]; cbn [or_default].
    + rewrite list_elem_of_singleton. tauto.
    + apply Hthree.
  - unfold derive_regions. destruct (reg_labels locations); [|done].
    cbn. apply NoDup_singleton.
  - apply or_default_nonempty. done.
  - intros loc H. unfold region_label, Str.any_in, us_keys.
    cbn [existsb]. rewrite H. by rewrite !orb_true_r.
Qed.

(** * Text cleaning *)

Example clean_text_example :
  _clean_text "  Acme   Corp
	 home  " = "Acme Corp home".
Proof. reflexivity. Qed.

Lemma sub_spaces_shape (b : bool) (s : string) :
  single_spaced (sub_spaces b s) = true /\
  (b = true -> starts_space (sub_spaces b s) = false).
Proof.
  revert b. induction s as [|c r IH]; intros b; cbn; [by split|].
  destruct (is_space c) eqn:Ec.
  - destruct b.
    + apply IH.
    + destruct (IH true) as [H1 H2]. split; [|done]. cbn.
      rewrite H1, (H2 eq_refl). reflexivity.
  - destruct (IH false) as [H1 _]. cbn. rewrite Ec, H1. split; [done|].
    done.
Qed.

Lemma lstrip_shape (s : string) :
  starts_space (lstrip s) = false /\
  (single_spaced s = true -> single_spaced (lstrip s) = true).
Proof.
  induction s as [|c r [IH1 IH2]]; cbn; [by split|].
  destruct (is_space c) eqn:Ec.
  - split; [done|]. rewrite andb_true_iff. intros [_ H]. by apply IH2.
  - cbn. rewrite Ec. by split.
Qed.

Lemma rstrip_head (s : string) (d : ascii) (t : string) :
  rstrip s = String d t -> exists t', s = String d t'.
Proof.
  destruct s as [|c r]; cbn; [done|].
  destruct (rstrip r); [destruct (is_space c)|]; intros [= <- _]; eauto.
Qed.

Lemma rstrip_starts_space (s : string) :
  starts_space s = false -> starts_space (rstrip s) = false.
Proof.
  destruct (rstrip s) as [|d t] eqn:E; [done|].
  apply rstrip_head in E as [t' ->]. done.
Qed.

Lemma single_spaced_cons (c : ascii) (r : string) :
  single_spaced (String c r)
  = (if is_space c then Ascii.eqb c " " && negb (starts_space r) else true)
    && single_spaced r.
Proof. reflexivity. Qed.

Lemma rstrip_shape (s : string) :
  ends_space (rstrip s) = false /\
  (single_spaced s = true -> single_spaced (rstrip s) = true).
Proof.
  induction s as [|c r [IH1 IH2]]; cbn [rstrip]; [by split|].
  destruct (rstrip r) as [|d t] eqn:E.
  - destruct (is_space c) eqn:Ec; cbn; rewrite ?Ec; by split.
  - split; [exact IH1|]. rewrite !(single_spaced_cons c).
    rewrite !andb_true_iff. intros [Hc Hr]. split; [|by apply IH2].
    destruct (is_space c); [|done].
    apply andb_true_iff in Hc as [Hc Hs]. rewrite Hc. cbn [andb].
    apply negb_true_iff in Hs. apply negb_true_iff.
    apply rstrip_starts_space in Hs. by rewrite E in Hs.
Qed.

Lemma clean_text_is_clean (s : string) : clean (_clean_text s) = true.
Proof.
  unfold clean, _clean_text, strip.
  destruct (sub_spaces_shape false (narrow s)) as [H1 _].
  destruct (lstrip_shape (sub_spaces false (narrow s))) as [H2 H3].
  destruct (rstrip_shape (lstrip (sub_spaces false (narrow s)))) as [H4 H5].
  rewrite (H5 (H3 H1)), (rstrip_starts_space _ H2), H4. reflexivity.
Qed.

Lemma sub_spaces_fixed (b : bool) (s : string) :
  single_spaced s = true -> (b = true -> starts_space s = false) ->
  sub_spaces b s = s.
Proof.
  revert b. induction s as [|c r IH]; intros b; cbn; [done|].
  rewrite andb_true_iff. intros [Hc Hr] Hb.
  destruct (is_space c) eqn:Ec.
  - destruct b; [by specialize (Hb eq_refl)|].
    apply andb_true_iff in Hc as [Hc Hs]. apply Ascii.eqb_eq in Hc as ->.
    f_equal. apply IH; [done|]. intros _. by apply negb_true_iff.
  - f_equal. by apply IH.
Qed.

Lemma lstrip_fixed (s : string) : starts_space s = false -> lstrip s = s.
Proof. destruct s as [|c r]; cbn; [done|]. by intros ->. Qed.

Lemma rstrip_fixed (s : string) : ends_space s = false -> rstrip s = s.
Proof.
  induction s as [|c r IH]; [done|]. cbn [ends_space rstrip].
  destruct r as [|d t].
  - cbn. by intros ->.
  - intros H. rewrite (IH H). done.
Qed.

Lemma non_space_sub_spaces (b : bool) (s : string) :
  non_space (sub_spaces b s) = non_space s.
Proof.
  revert b. induction s as [|c r IH]; intros b; cbn; [done|].
  destruct (is_space c) eqn:Ec.
  - destruct b; [apply IH|]. cbn. apply IH.
  - cbn. by rewrite Ec, IH.
Qed.

Lemma non_space_lstrip (s : string) : non_space (lstrip s) = non_space s.
Proof.
  induction s as [|c r IH]; cbn; [done|].
  destruct (is_space c) eqn:Ec; [done|]. cbn. by rewrite Ec.
Qed.

Lemma non_space_rstrip (s : string) : non_space (rstrip s) = non_space s.
Proof.
  induction s as [|c r IH]; cbn [rstrip]; [done|].
  destruct (rstrip r) as [|d t] eqn:E.
  - cbn [non_space] in *. rewrite <- IH.
    destruct (is_space c) eqn:Ec; cbn; by rewrite ?Ec.
  - cbn [non_space] in *. by rewrite IH.
Qed.

(** * Fetching a page *)

Lemma strip_ends (s : string) :
  starts_space (strip s) = false /\ ends_space (strip s) = false.
Proof.
  unfold strip. split.
  - apply rstrip_starts_space, lstrip_shape.
  - apply rstrip_shape.
Qed.

Lemma strip_fixed (s : string) :
  starts_space s = false -> ends_space s = false -> strip s = s.
Proof. intros H1 H2. unfold strip. by rewrite (lstrip_fixed s H1), rstrip_fixed. Qed.

Lemma clean_strip_fixed (s : string) : clean s = true -> strip s = s.
Proof.
  unfold clean. rewrite !andb_true_iff, !negb_true_iff.
  intros [[_ H1] H2]. by apply strip_fixed.
Qed.

Lemma str_or_empty (a : string) : str_or a "" = a.
Proof. by destruct a. Qed.


(** * The offline extractor *)

Lemma substring_length_le (n : nat) (s : string) :
  (String.length (String.substring 0 n s) <= n)%nat.
Proof.
  revert s. induction n as [|n IH]; intros [|c r]; cbn; try lia.
  specialize (IH r). lia.
Qed.

Lemma labelled_sublist (tl : string) (m : list (string * list string)) :
  sublist
    (omap (fun '(label, kws) =>
             if Str.any_in kws tl then Some (Py.title label) else None) m)
    ((fun x => Py.title (fst x)) <$> m).
Proof.
  induction m as [|[label kws] m IH]; cbn; [constructor|].
  destruct (Str.any_in kws tl); by constructor.
Qed.

Lemma or_default_elem (l d : list string) (x : string) :
  x ∈ or_default l d -> x ∈ l \/ x ∈ d.
Proof. destruct l; cbn; auto. Qed.

Lemma or_default_NoDup (l d : list string) :
  NoDup l -> NoDup d -> NoDup (or_default l d).
Proof. by destruct l. Qed.

Lemma offerings_shape (tl : string) (kws : list string) :
  let offerings :=
    omap (fun kw =>
            match _first_sentence_with tl kw with
            | Some (String c m) => Some (Py.slice_upto 140 (String c m))
            | _ => None
            end) kws in
  (length offerings <= length kws)%nat /\
  Forall (fun m => m <> "" /\ (String.length m <= 140)%nat) offerings.
Proof.
  cbv zeta.
  induction kws as [|kw kws [IH1 IH2]]; cbn [omap list_omap length];
    [split; [lia|constructor]|].
  destruct (_first_sentence_with tl kw) as [[|c m]|]; cbn [length].
  1,3: split; [lia|done].
  split; [lia|]. constructor; [|done]. split; [done|].
  apply substring_length_le.
Qed.

Lemma offline_profile_industries (url : string) (page : FetchedPage) :
  op_industries (extract_profile url page) <> [] /\
  op_locations (extract_profile url page) <> [].
Proof. split; by apply or_default_nonempty. Qed.

(** X20: the profile built offline, for every url and every page. It names
    at least one industry, each one of six labels and none twice; at least
    one location, each one of six tokens and none twice; at most four
    offerings, none empty and none longer than 140 characters; a summary of
    at most 280 characters. The employee and revenue ranges and the
    confidence are the same for every page. A failed request is the only way
    to get no profile. *)
Theorem offline_profile_shape (title_string main_text : string -> option string)
    (soup_text : string -> string) (url : string) (got : Response + string) :
  match _offline_extract_profile title_string main_text soup_text url got with
  | inr e => got = inr e
  | inl o =>
      op_url o = url /\
      (op_industries o <> [] /\ NoDup (op_industries o) /\
       op_industries o ⊆
         ["Software"; "Tech-Enabled Services"; "Industrial"; "Healthcare";
          "Consumer"; "Business Services"]) /\
      (op_locations o <> [] /\ NoDup (op_locations o) /\
       op_locations o ⊆
         ["United States"; "USA"; "US"; "Canada"; "United Kingdom"; "Europe"]) /\
      ((length (op_offerings o) <= 4)%nat /\
       Forall (fun m => m <> "" /\ (String.length m <= 140)%nat)
         (op_offerings o)) /\
      (String.length (op_summary o) <= 280)%nat /\
      op_employee_count_range o = mkRange (Some 10%Z) (Some 500%Z) /\
      op_revenue_range_usd o = mkRange (Some 5000000%Z) (Some 80000000%Z) /\
      op_confidence o = 45 # 100
  end.
Proof.
  unfold _offline_extract_profile.
  destruct got as [resp|e]; [|done].
  destruct (fetch_url _ _ _ url (inl resp)) as [page|e] eqn:E;
    [|cbn in E; by destruct (_ && _)].
  clear E. unfold extract_profile. cbv zeta.
  cbn [op_url op_industries op_locations op_offerings op_summary
       op_employee_count_range op_revenue_range_usd op_confidence].
  set (tl := Str.lower (strip (str_or (fp_text page) ""))).
  assert (NoDup ((fun x => Py.title (fst x)) <$> industry_map)) as Hnd.
  { apply (bool_decide_unpack _). by vm_compute. }
  assert (NoDup location_tokens) as Hnl.
  { apply (bool_decide_unpack _). by vm_compute. }
  split; [done|]. split; [|split; [|split; [|split; [|done]]]].
  - pose proof (labelled_sublist tl industry_map) as Hs.
    split; [by apply or_default_nonempty|]. split.
    + apply or_default_NoDup; [exact (sublist_NoDup _ _ Hnd Hs)|].
      apply NoDup_singleton.
    + intros x Hx. apply or_default_elem in Hx as [Hx|Hx].
      * exact (elem_of_sublist _ _ _ Hx Hs).
      * apply list_elem_of_singleton in Hx as ->.
        apply (bool_decide_unpack _). by vm_compute.
  - destruct (fromkeys_spec []
      (List.filter (fun token => Str.contains (Str.lower token) tl)
         location_tokens)) as [Hn Hin].
    split; [by apply or_default_nonempty|]. split.
    + apply or_default_NoDup; [done|]. apply NoDup_singleton.
    + intros x Hx. apply or_default_elem in Hx as [Hx|Hx].
      * apply Hin in Hx as [Hx _].
        exact (elem_of_sublist _ _ _ Hx (filter_is_sublist _ _)).
      * apply list_elem_of_singleton in Hx as ->.
        apply (bool_decide_unpack _). by vm_compute.
  - destruct (offerings_shape tl offering_keywords) as [H1 H2].
    cbv zeta in H1, H2. split.
    + rewrite length_take. cbn [length offering_keywords] in H1. lia.
    + by apply Forall_take.
  - apply substring_length_le.
Qed.

(** X21: the regions that an offline run scores against are decided by six
    substring tests on the lowered page text. [US] is a region when the text
    contains "united states", "usa" or "us" anywhere, inside a word as well
    (as in "business" or "industrial"), and also when it names none of
    Canada, United Kingdom and Europe; [Canada] is one exactly when the text
    contains "canada"; [Europe] exactly when it contains "united kingdom" or
    "europe". *)
Theorem offline_regions (url : string) (page : FetchedPage) :
  let tl := Str.lower (strip (fp_text page)) in
  let has (token : string) := Str.contains token tl = true in
  let regions :=
    c_regions (criteria_of (as_company_profile (extract_profile url page))) in
  ("US" ∈ regions <->
     has "united states" \/ has "usa" \/ has "us" \/
     ~ (has "canada" \/ has "united kingdom" \/ has "europe")) /\
  ("Canada" ∈ regions <-> has "canada") /\
  ("Europe" ∈ regions <-> has "united kingdom" \/ has "europe").
Proof.
  cbv zeta.
  unfold extract_profile, as_company_profile, criteria_of, labels.
  cbn [c_regions p_locations op_locations]. rewrite str_or_empty.
  set (tl := Str.lower (strip (fp_text page))).
  cbn [List.filter location_tokens].
  change (Str.lower "United States") with "united states".
  change (Str.lower "USA") with "usa".
  change (Str.lower "US") with "us".
  change (Str.lower "Canada") with "canada".
  change (Str.lower "United Kingdom") with "united kingdom".
  change (Str.lower "Europe") with "europe".
  destruct (Str.contains "united states" tl), (Str.contains "usa" tl),
    (Str.contains "us" tl), (Str.contains "canada" tl),
    (Str.contains "united kingdom" tl), (Str.contains "europe" tl);
    apply (bool_decide_unpack _); vm_compute; exact I.
Qed.

(** ** An offline run *)

Lemma shortlist_entry_origin (p : CompanyProfile) (funds : list Fund)
    (top_k : Z) (x : ShortlistEntry) :
  x ∈ shortlist_pe_funds p funds top_k ->
  above_threshold x = true /\
  exists f, f ∈ funds /\
    x = entry_of p (score_fund (env_of (criteria_of p)) f f).
Proof.
  intros Hx. split.
  - unfold shortlist_pe_funds in Hx.
    pose proof (elem_of_sublist _ _ _ Hx (slice_to_sublist _ _)) as Hf.
    pose proof (filter_Forall above_threshold
      (entry_of p <$> slice_to (top_k * 2) (query_pe_db (criteria_of p) funds)))
      as Ha.
    rewrite Forall_forall in Ha. by apply Ha.
  - pose proof (elem_of_sublist _ _ _ Hx (shortlist_sublist_ranked p funds top_k))
      as Hin.
    apply list_elem_of_fmap in Hin as (r & -> & Hin).
    unfold query_pe_db in Hin. rewrite sorted_desc_perm in Hin.
    apply list_elem_of_fmap in Hin as (f & -> & Hf). by exists f.
Qed.

Lemma offline_reasons (url : string) (page : FetchedPage) (f : Fund) :
  let rs := reasons (as_company_profile (extract_profile url page)) f in
  "revenue range compatible" ∈ rs /\
  "employee range compatible" ∈ rs /\
  "generalist flexibility" ∉ rs.
Proof.
  cbv zeta. unfold reasons, rev_, emp_.
  cbn [as_company_profile p_revenue_range_usd p_employee_count_range is_Some_b].
  destruct (nonempty _ && lower_overlap _ (f_industries f)),
    (nonempty _ && lower_overlap _ (f_regions f));
    cbn [app or_default]; split_and!;
    solve [ apply (bool_decide_unpack _); vm_compute; exact I ].
Qed.

(** X22: whenever an offline run returns a result, every entry of its
    shortlist is scored on all five factors (none is left unapplied, so no
    weight is missing from the score), its score lies between 0.2 and 1, it
    belongs to a fund of the dataset that was read, and its summary lists
    "revenue range compatible" and "employee range compatible" whether or
    not the fund's focus ranges fit, and never "generalist flexibility". *)
Theorem offline_run_applies_every_factor
    (title_string main_text : string -> option string)
    (soup_text : string -> string) (url : string) (got : Response + string)
    (dataset : list Fund + string) (top_k : Z)
    (o : OfflineProfile) (shortlist : list ShortlistEntry) :
  run_agent title_string main_text soup_text url got dataset top_k
  = inl (o, shortlist) ->
  exists funds,
    dataset = inl funds /\
    Forall (fun x =>
      (let subs := r_subscores (e_rationale x) in
       applied (industry subs) = true /\ applied (region subs) = true /\
       applied (revenue subs) = true /\ applied (employees subs) = true /\
       applied (deal subs) = true) /\
      2 # 10 <= e_score x <= 1 /\
      exists f, f ∈ funds /\ e_fund x = f_name f /\
        let rs := reasons (as_company_profile o) f in
        summary (e_rationale x) = Str.join ", " rs /\
        "revenue range compatible" ∈ rs /\
        "employee range compatible" ∈ rs /\
        "generalist flexibility" ∉ rs) shortlist.
Proof.
  unfold run_agent, _offline_extract_profile.
  destruct (fetch_url _ _ _ url got) as [page|e]; [|done].
  destruct dataset as [funds|e]; [|done].
  intros [= <- <-]. exists funds. split; [done|].
  set (o := extract_profile url page).
  set (p := as_company_profile o).
  apply Forall_forall. intros x Hx.
  apply shortlist_entry_origin in Hx as (Ha & f & Hf & ->).
  cbn [entry_of e_rationale r_subscores score_fund subscores match_ e_score
       e_fund fund score summary] in *.
  split; [|split].
  - cbv zeta.
    destruct (applied_flags p f) as (H1 & H2 & H3 & H4 & H5).
    rewrite H1, H3, H4. split; [|done]. subst p o.
    cbn [as_company_profile p_industries].
    destruct (offline_profile_industries url page) as [H _].
    by destruct (op_industries (extract_profile url page)).
  - split; [|apply score_with_breakdown_bounds].
    unfold above_threshold in Ha. cbn [e_score] in Ha.
    by apply Qle_bool_iff in Ha.
  - exists f. split; [done|]. split; [done|]. cbv zeta. split; [done|].
    apply offline_reasons.
Qed.

(** The theorem at a page about cloud software and the four example funds:
    the run returns, and the two funds of its shortlist are scored on every
    factor. *)
Lemma offline_run_applies_every_factor_witness :
  let title_string (html : string) := Some "Acme Cloud" in
  let main_text (html : string) :=
    Some "Acme builds cloud software. Our products ship in Canada." in
  let soup_text (html : string) := html in
  let got := inl (mkResponse 200 "text/html" "<html>") in
  exists o shortlist,
    run_agent title_string main_text soup_text "https://acme.com" got
      (inl Examples.us_funds) 2 = inl (o, shortlist) /\
    length shortlist = 2%nat /\
    Forall (fun x =>
      applied (revenue (r_subscores (e_rationale x))) = true /\
      applied (employees (r_subscores (e_rationale x))) = true) shortlist.
Proof.
  cbv zeta. eexists _, _. split; [reflexivity|]. split; [by vm_compute|].
  destruct (offline_run_applies_every_factor
    (fun _ => Some "Acme Cloud")
    (fun _ => Some "Acme builds cloud software. Our products ship in Canada.")
    (fun html => html) "https://acme.com"
    (inl (mkResponse 200 "text/html" "<html>")) (inl Examples.us_funds) 2
    _ _ eq_refl) as (funds & _ & H).
  eapply Forall_impl; [exact H|]. intros x (Happ & _). cbv zeta in Happ.
  tauto.
Defined.

(** X23: offline, the size of the company is never read from the page: for
    every url and page, a fund gets the revenue weight exactly when its
    revenue focus covers 5,000,000 to 80,000,000 and the employees weight
    exactly when its employee focus covers 10 to 500 (an unset bound of the
    focus constraining nothing), and no weight for the factor otherwise. So
    two offline runs give a fund the same revenue, employees and deal
    subscores whatever the two websites are. *)
Theorem offline_size_factors_ignore_page (url : string) (page : FetchedPage)
    (f : Fund) :
  let subs_for (u : string) (pg : FetchedPage) :=
    snd (score_with_breakdown
           (env_of (criteria_of (as_company_profile (extract_profile u pg))))
           f) in
  let subs := subs_for url page in
  let offline_revenue := mkRange (Some 5000000%Z) (Some 80000000%Z) in
  let offline_employees := mkRange (Some 10%Z) (Some 500%Z) in
  (raw_of (revenue subs) = Some 1
     <-> fits_within offline_revenue (f_revenue_focus_usd f)) /\
  (raw_of (revenue subs) = Some 0
     <-> ~ fits_within offline_revenue (f_revenue_focus_usd f)) /\
  (raw_of (employees subs) = Some 1
     <-> fits_within offline_employees (f_employee_focus f)) /\
  (raw_of (employees subs) = Some 0
     <-> ~ fits_within offline_employees (f_employee_focus f)) /\
  forall url' page',
    revenue (subs_for url' page') = revenue subs /\
    employees (subs_for url' page') = employees subs /\
    deal (subs_for url' page') = deal subs.
Proof.
  cbv beta zeta. rewrite subscores_eq. cbn [revenue employees deal].
  unfold revenue_factor, employees_factor.
  cbn [env_of rev emp criteria_of c_revenue_usd c_employees rev_ emp_
       as_company_profile extract_profile p_revenue_range_usd
       p_employee_count_range op_revenue_range_usd op_employee_count_range].
  destruct (range_factor_raw (mkRange (Some 5000000%Z) (Some 80000000%Z))
              (f_revenue_focus_usd f) weights.revenue 0) as (_ & H1 & H2).
  destruct (range_factor_raw (mkRange (Some 10%Z) (Some 500%Z))
              (f_employee_focus f) weights.employees 0) as (_ & H3 & H4).
  cbv zeta in H1, H2, H3, H4.
  split; [exact H1|]. split; [exact H2|]. split; [exact H3|].
  split; [exact H4|].
  intros url' page'. rewrite subscores_eq. cbn [revenue employees deal].
  done.
Qed.

(** * Sentences of the offline extractor *)

Section Sentences.
Local Open Scope Z_scope.

(** ** Strings as concatenations *)

Lemma append_nil (b : string) : "" +:+ b = b.
Proof. reflexivity. Qed.

Lemma append_cons (c : ascii) (a b : string) :
  String c a +:+ b = String c (a +:+ b).
Proof. reflexivity. Qed.

Lemma append_assoc (a b c : string) : (a +:+ b) +:+ c = a +:+ (b +:+ c).
Proof.
  induction a as [|x a IH]; [done|]. by rewrite !append_cons, IH.
Qed.

Lemma append_empty_r (a : string) : a +:+ "" = a.
Proof. induction a as [|x a IH]; [done|]. by rewrite append_cons, IH. Qed.

Lemma length_append (a b : string) :
  String.length (a +:+ b) = (String.length a + String.length b)%nat.
Proof.
  induction a as [|x a IH]; [done|]. rewrite append_cons. cbn. by rewrite IH.
Qed.

Lemma prefix_append (x b : string) : String.prefix x (x +:+ b) = true.
Proof.
  induction x as [|c x IH]; [by destruct b|]. rewrite append_cons. cbn.
  by destruct (ascii_dec c c).
Qed.

Lemma prefix_split (x t : string) :
  String.prefix x t = true -> exists b, t = x +:+ b.
Proof.
  revert t. induction x as [|c x IH]; intros t; [by exists t|].
  destruct t as [|d t]; cbn; [done|].
  destruct (ascii_dec c d) as [->|]; [|done].
  intros H. apply IH in H as [b ->]. by exists b.
Qed.

Lemma prefix_append_l (x u v : string) :
  String.prefix x u = true -> String.prefix x (u +:+ v) = true.
Proof.
  intros H. apply prefix_split in H as [w ->].
  rewrite append_assoc. apply prefix_append.
Qed.

Lemma contains_eq (x t : string) :
  Str.contains x t
  = String.prefix x t
    || match t with EmptyString => false | String _ r => Str.contains x r end.
Proof. by destruct t. Qed.

Lemma contains_intro (x a b : string) : Str.contains x (a +:+ x +:+ b) = true.
Proof.
  induction a as [|c a IH]; rewrite contains_eq.
  - by rewrite append_nil, prefix_append.
  - rewrite append_cons, IH. apply orb_true_r.
Qed.

Lemma contains_elim (x t : string) :
  Str.contains x t = true -> exists a b, t = a +:+ x +:+ b.
Proof.
  induction t as [|c t IH]; rewrite contains_eq; intros H;
    apply orb_true_iff in H as [H|H]; try done.
  - apply prefix_split in H as [b ->]. by exists "", b.
  - apply prefix_split in H as [b ->]. by exists "", b.
  - apply IH in H as (a & b & ->). by exists (String c a), b.
Qed.

Lemma prefix_char (c d : ascii) (r : string) :
  String.prefix (String c "") (String d r) = bool_decide (c = d).
Proof.
  cbn. destruct (ascii_dec c d) as [->|Hn].
  - rewrite bool_decide_eq_true_2 by done. by destruct r.
  - by rewrite bool_decide_eq_false_2.
Qed.

Lemma contains_char_cons (c d : ascii) (r : string) :
  Str.contains (String c "") (String d r)
  = bool_decide (c = d) || Str.contains (String c "") r.
Proof. by rewrite contains_eq, prefix_char. Qed.

(** A one-character pattern occurs in a concatenation when it occurs in one
    of the two parts. *)
Lemma contains_char_append (c : ascii) (a b : string) :
  Str.contains (String c "") (a +:+ b)
  = Str.contains (String c "") a || Str.contains (String c "") b.
Proof.
  induction a as [|d a IH]; [done|].
  rewrite append_cons, !contains_char_cons, IH. by rewrite orb_assoc.
Qed.

(** ** [find] and [rfind] *)

Lemma find_at_eq (sub s : string) (pos : Z) :
  Py.find_at sub s pos
  = if String.prefix sub s then pos
    else match s with
         | EmptyString => -1
         | String _ r => Py.find_at sub r (pos + 1)
         end.
Proof. by destruct s. Qed.

Lemma find_at_spec (sub s : string) (pos : Z) :
  (Py.find_at sub s pos = -1 /\ Str.contains sub s = false) \/
  (exists a b, s = a +:+ sub +:+ b /\
     Py.find_at sub s pos = pos + Z.of_nat (String.length a)).
Proof.
  revert pos. induction s as [|c r IH]; intros pos;
    rewrite find_at_eq, contains_eq;
    destruct (String.prefix sub _) eqn:Ep.
  - right. apply prefix_split in Ep as [b Hb]. exists "", b.
    split; [done|]. cbn. lia.
  - by left.
  - right. apply prefix_split in Ep as [b Hb]. exists "", b.
    split; [done|]. cbn. lia.
  - destruct (IH (pos + 1)) as [[H1 H2]|(a & b & -> & H)].
    + left. by rewrite H1, H2.
    + right. exists (String c a), b. split; [done|]. rewrite H. cbn. lia.
Qed.

(** For a one-character pattern, what comes before the place found does not
    hold the character. *)
Lemma find_at_char (c : ascii) (s : string) (pos : Z) :
  (Py.find_at (String c "") s pos = -1 /\
   Str.contains (String c "") s = false) \/
  (exists a b, s = a +:+ String c b /\
     Str.contains (String c "") a = false /\
     Py.find_at (String c "") s pos = pos + Z.of_nat (String.length a)).
Proof.
  revert pos. induction s as [|d r IH]; intros pos; [by left|].
  rewrite find_at_eq, contains_char_cons, prefix_char.
  case_bool_decide as Hd.
  - subst d. right. exists "", r. split; [done|]. split; [done|]. cbn. lia.
  - destruct (IH (pos + 1)) as [[H1 H2]|(a & b & -> & Ha & H)].
    + left. by rewrite H1, H2.
    + right. exists (String d a), b. split; [done|].
      rewrite contains_char_cons, Ha, bool_decide_eq_false_2 by done.
      split; [done|]. rewrite H. cbn. lia.
Qed.

Lemma rfind_at_char (c : ascii) (s : string) (pos : Z) :
  0 <= pos ->
  (Py.rfind_at (String c "") s pos = -1 /\
   Str.contains (String c "") s = false) \/
  (exists a b, s = a +:+ String c b /\
     Str.contains (String c "") b = false /\
     Py.rfind_at (String c "") s pos = pos + Z.of_nat (String.length a)).
Proof.
  revert pos. induction s as [|d r IH]; intros pos Hpos; [by left|].
  cbn [Py.rfind_at]. rewrite contains_char_cons, prefix_char.
  destruct (IH (pos + 1)) as [[H1 H2]|(a & b & -> & Hb & H)]; [lia| |].
  - rewrite H1, H2. cbn [Z.eqb]. case_bool_decide as Hd.
    + subst d. right. exists "", r. split; [done|]. split; [done|]. cbn. lia.
    + by left.
  - right. exists (String d a), b. split; [done|]. split; [done|].
    rewrite H. destruct (Z.eqb_spec (pos + 1 + Z.of_nat (String.length a)) (-1));
      [lia|]. cbn. lia.
Qed.

(** ** Slices *)

Lemma substring_all (s : string) : String.substring 0 (String.length s) s = s.
Proof. induction s as [|c s IH]; [done|]. cbn. by rewrite IH. Qed.

Lemma substring_skip (a r : string) (n : nat) :
  String.substring (String.length a) n (a +:+ r) = String.substring 0 n r.
Proof.
  induction a as [|c a IH]; [done|]. rewrite append_cons. cbn. exact IH.
Qed.

Lemma substring_keep (x y : string) (n : nat) :
  (String.length x <= n)%nat ->
  String.substring 0 n (x +:+ y)
  = x +:+ String.substring 0 (n - String.length x) y.
Proof.
  revert n. induction x as [|c x IH]; intros n Hn.
  - rewrite !append_nil. cbn. by rewrite Nat.sub_0_r.
  - cbn in Hn. destruct n as [|n]; [lia|]. rewrite !append_cons. cbn.
    rewrite IH by lia. done.
Qed.

Lemma substring_exact (x y : string) :
  String.substring 0 (String.length x) (x +:+ y) = x.
Proof.
  rewrite substring_keep by lia. rewrite Nat.sub_diag.
  assert (String.substring 0 0 y = "") as -> by by destruct y.
  apply append_empty_r.
Qed.

(** A slice from the start holds no character that the text does not. *)
Lemma contains_char_substring (c : ascii) (n : nat) (s : string) :
  Str.contains (String c "") s = false ->
  Str.contains (String c "") (String.substring 0 n s) = false.
Proof.
  revert n. induction s as [|d s IH]; intros [|n]; cbn [String.substring];
    try done.
  rewrite !contains_char_cons. intros H.
  apply orb_false_iff in H as [H1 H2]. by rewrite H1, IH.
Qed.

Lemma find_from (sub a r : string) :
  Py.find sub (a +:+ r) (Z.of_nat (String.length a))
  = Py.find_at sub r (Z.of_nat (String.length a)).
Proof.
  unfold Py.find. rewrite length_append, Nat2Z.id.
  destruct (Z.ltb_spec
    (Z.of_nat (String.length a + String.length r))
    (Z.of_nat (String.length a))); [lia|].
  rewrite substring_skip.
  replace (String.length a + String.length r - String.length a)%nat
    with (String.length r) by lia.
  by rewrite substring_all.
Qed.

Lemma find_from_start (sub s : string) : Py.find sub s 0 = Py.find_at sub s 0.
Proof. apply (find_from sub "" s). Qed.

Lemma rfind_upto (sub a r : string) :
  Py.rfind sub (a +:+ r) (Z.of_nat (String.length a)) = Py.rfind_at sub a 0.
Proof.
  unfold Py.rfind, Py.slice_upto. by rewrite Nat2Z.id, substring_exact.
Qed.

Lemma split_before_char (c : ascii) (kw b x d : string) :
  kw +:+ b = x +:+ String c d ->
  Str.contains (String c "") kw = false ->
  exists c', x = kw +:+ c'.
Proof.
  revert x. induction kw as [|k kw IH]; intros x; [by exists x|].
  rewrite append_cons, contains_char_cons. intros E H.
  apply orb_false_iff in H as [Hk Hkw]. apply bool_decide_eq_false in Hk.
  destruct x as [|x0 x].
  - rewrite append_nil in E. injection E as -> _. done.
  - rewrite append_cons in E. injection E as -> E.
    destruct (IH x E Hkw) as [c' ->]. by exists c'.
Qed.

(** ** Stripping and capitalizing *)

Lemma lstrip_append (a : string) (k : ascii) (r : string) :
  is_space k = false -> lstrip (a +:+ String k r) = lstrip a +:+ String k r.
Proof.
  intros Hk. induction a as [|c a IH].
  - rewrite !append_nil. cbn. by rewrite Hk.
  - rewrite append_cons. cbn [lstrip]. destruct (is_space c); [exact IH|done].
Qed.

Lemma rstrip_append (u v : string) :
  ends_space u = false -> rstrip (u +:+ v) = u +:+ rstrip v.
Proof.
  induction u as [|c u IH]; [done|]. intros H. rewrite !append_cons.
  cbn [rstrip]. destruct u as [|d u].
  - rewrite !append_nil. cbn in H. rewrite H. by destruct (rstrip v).
  - rewrite IH by exact H. by rewrite append_cons.
Qed.

Lemma ends_space_append (x : string) (k : ascii) (r : string) :
  ends_space (x +:+ String k r) = ends_space (String k r).
Proof.
  induction x as [|c x IH]; [done|]. rewrite append_cons.
  cbn [ends_space]. destruct (x +:+ String k r) eqn:E; [|exact IH].
  destruct x; discriminate E.
Qed.

Lemma lower_append (a b : string) :
  Str.lower (a +:+ b) = Str.lower a +:+ Str.lower b.
Proof.
  induction a as [|c a IH]; [done|]. rewrite append_cons. cbn.
  by rewrite IH.
Qed.

Lemma lower_upper_ascii (c : ascii) :
  Str.lower_ascii (Py.upper_ascii c) = Str.lower_ascii c.
Proof. by destruct c as [[] [] [] [] [] [] [] []]. Qed.

Lemma lower_capitalize (s : string) :
  Str.lower (Py.capitalize s) = Str.lower s.
Proof.
  destruct s as [|c r]; [done|]. cbn.
  by rewrite lower_upper_ascii, lower_idemp.
Qed.

Lemma is_space_lower_ascii (c : ascii) :
  is_space (Str.lower_ascii c) = is_space c.
Proof. by destruct c as [[] [] [] [] [] [] [] []]. Qed.

Lemma is_space_upper_ascii (c : ascii) :
  is_space (Py.upper_ascii c) = is_space c.
Proof. by destruct c as [[] [] [] [] [] [] [] []]. Qed.

Lemma is_dot_lower_ascii (c : ascii) :
  bool_decide ("."%char = Str.lower_ascii c) = bool_decide ("."%char = c).
Proof. by destruct c as [[] [] [] [] [] [] [] []]. Qed.

Lemma is_dot_upper_ascii (c : ascii) :
  bool_decide ("."%char = Py.upper_ascii c) = bool_decide ("."%char = c).
Proof. by destruct c as [[] [] [] [] [] [] [] []]. Qed.

Lemma contains_dot_lower (s : string) :
  Str.contains "." (Str.lower s) = Str.contains "." s.
Proof.
  induction s as [|c s IH]; [done|]. cbn [Str.lower].
  by rewrite !contains_char_cons, is_dot_lower_ascii, IH.
Qed.

Lemma contains_dot_capitalize (s : string) :
  Str.contains "." (Py.capitalize s) = Str.contains "." s.
Proof.
  destruct s as [|c s]; [done|]. cbn [Py.capitalize].
  by rewrite !contains_char_cons, is_dot_upper_ascii, contains_dot_lower.
Qed.

Lemma contains_char_non_space (c : ascii) (s : string) :
  is_space c = false ->
  Str.contains (String c "") (non_space s) = Str.contains (String c "") s.
Proof.
  intros Hc. induction s as [|d s IH]; [done|]. cbn [non_space].
  destruct (is_space d) eqn:Ed; rewrite !contains_char_cons, IH; [|done].
  rewrite bool_decide_eq_false_2; [done|]. intros <-. congruence.
Qed.

Lemma contains_dot_strip (s : string) :
  Str.contains "." (strip s) = Str.contains "." s.
Proof.
  rewrite <- (contains_char_non_space "." (strip s)) by done.
  rewrite <- (contains_char_non_space "." s) by done.
  unfold strip. by rewrite non_space_rstrip, non_space_lstrip.
Qed.

Lemma ends_space_lower (s : string) :
  ends_space (Str.lower s) = ends_space s.
Proof.
  induction s as [|c s IH]; [done|]. cbn [Str.lower ends_space].
  destruct s as [|d s]; [apply is_space_lower_ascii|exact IH].
Qed.

Lemma capitalize_ends (s : string) :
  starts_space (Py.capitalize s) = starts_space s /\
  ends_space (Py.capitalize s) = ends_space s.
Proof.
  destruct s as [|c s]; [done|]. cbn [Py.capitalize starts_space].
  split; [apply is_space_upper_ascii|]. cbn [ends_space].
  pose proof (ends_space_lower s) as H.
  destruct s as [|d s]; [apply is_space_upper_ascii|exact H].
Qed.

(** ** The sentence around a keyword *)

(** What [_first_sentence_with] cuts out of the text before it strips and
    capitalizes it: a slice [z] without a period which, when the keyword has
    no period and at most 240 characters, holds the keyword. *)
Lemma first_sentence_parts (text kw m : string) :
  _first_sentence_with text kw = Some m ->
  exists z,
    m = Py.capitalize (strip z) /\
    Str.contains "." z = false /\
    (Str.contains "." kw = false -> (String.length kw <= 240)%nat ->
     exists a c, z = a +:+ kw +:+ c).
Proof.
  unfold _first_sentence_with. rewrite find_from_start.
  destruct (find_at_spec kw text 0) as [[H1 _]|(a & b & -> & H)];
    [by rewrite H1|].
  rewrite H, Z.add_0_l. clear H.
  destruct (Z.eqb_spec (Z.of_nat (String.length a)) (-1)) as [|_]; [lia|].
  intros [= <-]. rewrite rfind_upto, find_from.
  assert (exists a1 a2, a = a1 +:+ a2 /\ Str.contains "." a2 = false /\
            Z.max 0 (Py.rfind_at "." a 0 + 1) = Z.of_nat (String.length a1))
    as (a1 & a2 & -> & Ha2 & ->).
  { destruct (rfind_at_char "." a 0) as [[H1 H2]|(x & y & -> & Hy & H)];
      [lia| |].
    - exists "", a. by rewrite H1.
    - exists (x +:+ "."), y. rewrite append_assoc, append_cons, append_nil.
      split; [done|]. split; [done|]. rewrite H, length_append. cbn. lia. }
  unfold Py.slice. rewrite Nat2Z.id, !append_assoc, substring_skip.
  rewrite !length_append.
  destruct (find_at_char "." (kw +:+ b)
              (Z.of_nat (String.length a1 + String.length a2)))
    as [[H1 H2]|(c1 & d & E & Hc1 & H)].
  - rewrite H1, Z.eqb_refl. eexists. split; [done|]. split.
    + apply contains_char_substring. by rewrite contains_char_append, Ha2, H2.
    + intros _ Hlen. exists a2.
      rewrite substring_keep by lia. rewrite substring_keep by lia.
      by eexists.
  - rewrite H, E.
    destruct (Z.eqb_spec
      (Z.of_nat (String.length a1 + String.length a2)
       + Z.of_nat (String.length c1)) (-1)) as [|_]; [lia|].
    replace (Z.to_nat
      (Z.of_nat (String.length a1 + String.length a2)
       + Z.of_nat (String.length c1) - Z.of_nat (String.length a1)))
      with (String.length (a2 +:+ c1)) by (rewrite length_append; lia).
    rewrite <- append_assoc, substring_exact.
    exists (a2 +:+ c1). split; [done|]. split.
    + by rewrite contains_char_append, Ha2, Hc1.
    + intros Hkw _. destruct (split_before_char "." kw b c1 d E Hkw) as [c' ->].
      by exists a2, c'.
Qed.

End Sentences.

(** X24: [_first_sentence_with] finds a sentence exactly when the keyword
    occurs in the text. A sentence it returns holds no period and has no
    whitespace at either end. When the keyword holds no period, is not empty,
    has no whitespace at either end and at most 240 characters, the sentence
    holds the keyword, letter case apart. *)
Theorem first_sentence_with_spec (text kw : string) :
  (_first_sentence_with text kw = None <-> Str.contains kw text = false) /\
  (forall m, _first_sentence_with text kw = Some m ->
     Str.contains "." m = false /\
     starts_space m = false /\ ends_space m = false /\
     (Str.contains "." kw = false -> kw <> "" ->
      starts_space kw = false -> ends_space kw = false ->
      (String.length kw <= 240)%nat ->
      Str.contains (Str.lower kw) (Str.lower m) = true)).
Proof.
  split.
  - unfold _first_sentence_with. rewrite find_from_start.
    destruct (find_at_spec kw text 0) as [[H1 H2]|(a & b & -> & H)].
    + by rewrite H1, H2.
    + rewrite H, Z.add_0_l, contains_intro.
      destruct (Z.eqb_spec (Z.of_nat (String.length a)) (-1)%Z); [lia|].
      split; intros [=].
  - intros m Hm.
    destruct (first_sentence_parts text kw m Hm) as (z & -> & Hz & Hkw).
    destruct (capitalize_ends (strip z)) as [-> ->].
    destruct (strip_ends z) as [-> ->].
    rewrite contains_dot_capitalize, contains_dot_strip.
    split; [done|]. split; [done|]. split; [done|].
    intros Hdot Hne Hs He Hlen.
    destruct (Hkw Hdot Hlen) as (a & c & ->).
    destruct kw as [|k kw]; [done|]. cbn in Hs.
    rewrite lower_capitalize. unfold strip.
    rewrite (append_cons k kw c), (lstrip_append a k _ Hs).
    rewrite <- (append_cons k kw c), <- append_assoc.
    rewrite rstrip_append.
    + rewrite append_assoc, !lower_append. apply contains_intro.
    + by rewrite ends_space_append.
Qed.

(** The theorem at a text of three sentences and the keyword "products". *)
Lemma first_sentence_with_spec_witness :
  let text := "we build tools. our products ship worldwide. call us" in
  let m := "Our products ship worldwide" in
  _first_sentence_with text "products" = Some m /\
  Str.contains "." m = false /\
  Str.contains (Str.lower "products") (Str.lower m) = true.
Proof.
  cbv zeta.
  destruct (first_sentence_with_spec
    "we build tools. our products ship worldwide. call us" "products")
    as [_ H].
  destruct (H "Our products ship worldwide" eq_refl) as (H1 & _ & _ & H4).
  split; [reflexivity|]. split; [exact H1|].
  apply H4; [reflexivity | discriminate | reflexivity | reflexivity |].
  cbn. lia.
Defined.

(** * The company name *)

Lemma remove_from_keep (pat u v : string) :
  clear_of pat u v ->
  Py.remove_from pat 0 (u +:+ v) = u +:+ Py.remove_from pat 0 v.
Proof.
  induction u as [|c u IH]; [done|]. intros [H1 H2].
  rewrite !append_cons. cbn [Py.remove_from]. by rewrite H1, IH.
Qed.

Lemma remove_from_skip (pat x v : string) :
  Py.remove_from pat (String.length x) (x +:+ v) = Py.remove_from pat 0 v.
Proof.
  induction x as [|c x IH]; [done|]. rewrite append_cons. exact IH.
Qed.

Lemma remove_all_first (p : ascii) (pat v : string) :
  Py.remove_all (String p pat) (String p pat +:+ v)
  = Py.remove_all (String p pat) v.
Proof.
  unfold Py.remove_all. rewrite append_cons. cbn [Py.remove_from].
  rewrite <- append_cons, prefix_append. cbn [String.length Nat.sub].
  rewrite Nat.sub_0_r. apply remove_from_skip.
Qed.

Lemma remove_all_path_like (p : ascii) (pat rest : string) :
  p <> "/"%char -> path_like rest ->
  path_like (Py.remove_all (String p pat) rest).
Proof.
  intros Hp [->|[r ->]]; [by left|]. right. unfold Py.remove_all.
  cbn [Py.remove_from String.prefix].
  destruct (ascii_dec p "/"); [done|]. by eexists.
Qed.

Lemma prefix_append_cases (x u v : string) :
  String.prefix x (u +:+ v) = true ->
  (exists w, u = x +:+ w) \/
  (exists x2, x = u +:+ x2 /\ String.prefix x2 v = true).
Proof.
  revert x. induction u as [|c u IH]; intros x; [right; by exists x|].
  rewrite append_cons. destruct x as [|d x]; [left; by eexists|].
  cbn [String.prefix]. destruct (ascii_dec d c) as [->|]; [|done].
  intros H. apply IH in H as [[w ->]|(x2 & -> & H)].
  - left. by exists w.
  - right. by exists x2.
Qed.

(** A host name without a colon, followed by a path, holds the start of no
    scheme. *)
Lemma host_clear_of (scheme host rest : string) :
  Str.contains "/" scheme = false ->
  Str.contains ":" host = false -> path_like rest ->
  clear_of (scheme +:+ "://") host rest.
Proof.
  intros Hs Hc Hr.
  assert (forall u w, Str.contains ":" u = false ->
            u <> (scheme +:+ ":") +:+ w) as Hin.
  { intros u w Hu ->. rewrite !append_assoc in Hu.
    rewrite (contains_char_append ":" scheme) in Hu.
    change (":" +:+ w) with (String ":" w) in Hu.
    rewrite contains_char_cons in Hu. cbn in Hu.
    by rewrite orb_true_r in Hu. }
  induction host as [|c host IH]; [done|].
  split; [|apply IH; rewrite contains_char_cons in Hc;
           by apply orb_false_iff in Hc as [_ ?]].
  clear IH. destruct (String.prefix _ _) eqn:Ep; [|done]. exfalso.
  rewrite <- append_cons in Ep.
  change (scheme +:+ "://") with (scheme +:+ ":" +:+ "//") in Ep.
  rewrite <- append_assoc in Ep.
  apply prefix_append_cases in Ep as [[w E]|(x2 & E & Hp)].
  - apply (Hin _ ("//" +:+ w) Hc). by rewrite E, !append_assoc.
  - assert (x2 = "" \/ exists r, x2 = String "/" r) as [->|[x2' ->]].
    { destruct x2 as [|x0 x2]; [by left|]. right.
      destruct Hr as [->|[r ->]]; [done|]. cbn [String.prefix] in Hp.
      destruct (ascii_dec x0 "/") as [->|]; [|done]. by eexists. }
    + rewrite append_empty_r in E. apply (Hin _ "//" Hc). by rewrite <- E.
    + apply split_before_char in E as [c' E];
        [|by rewrite contains_char_append, Hs].
      by apply (Hin _ c' Hc).
Qed.

Lemma clear_of_scheme (rest : string) :
  clear_of "https://" "http://" rest.
Proof. repeat split; by vm_compute. Qed.

Lemma before_first_host (host rest : string) :
  Str.contains "/" host = false -> path_like rest ->
  Py.before_first "/" (host +:+ rest) = host.
Proof.
  intros Hh Hr. induction host as [|c host IH].
  - rewrite append_nil. destruct Hr as [->|[r ->]]; [done|].
    cbn. by destruct r.
  - rewrite contains_char_cons in Hh. apply orb_false_iff in Hh as [H1 H2].
    rewrite append_cons. cbn [Py.before_first String.prefix].
    apply bool_decide_eq_false in H1.
    destruct (ascii_dec "/" c); [done|]. by rewrite IH.
Qed.

(** The host of a url: an optional scheme, a host name without slash or
    colon, and a path. *)
Lemma url_host (scheme host rest : string) :
  scheme ∈ ["https://"; "http://"; ""] ->
  Str.contains "/" host = false -> Str.contains ":" host = false ->
  path_like rest ->
  Py.before_first "/"
    (Py.remove_all "http://"
       (Py.remove_all "https://" (scheme +:+ host +:+ rest))) = host.
Proof.
  intros Hs H1 H2 Hr.
  assert (forall r, path_like r ->
            Py.remove_all "https://" (host +:+ r)
            = host +:+ Py.remove_all "https://" r) as Ha.
  { intros r Hp. apply remove_from_keep.
    by apply (host_clear_of "https" host r). }
  assert (forall r, path_like r ->
            Py.remove_all "http://" (host +:+ r)
            = host +:+ Py.remove_all "http://" r) as Hb.
  { intros r Hp. apply remove_from_keep.
    by apply (host_clear_of "http" host r). }
  assert (path_like (Py.remove_all "https://" rest)) as Hr1
    by by apply remove_all_path_like.
  assert (path_like (Py.remove_all "http://" (Py.remove_all "https://" rest)))
    as Hr2 by by apply remove_all_path_like.
  rewrite !elem_of_cons, elem_of_nil in Hs.
  destruct Hs as [->|[->|[->|[]]]].
  - rewrite remove_all_first, Ha, Hb by done. by apply before_first_host.
  - unfold Py.remove_all at 2.
    rewrite (remove_from_keep "https://" "http://") by apply clear_of_scheme.
    fold (Py.remove_all "https://" (host +:+ rest)).
    rewrite Ha, remove_all_first, Hb by done. by apply before_first_host.
  - rewrite append_nil, Ha, Hb by done. by apply before_first_host.
Qed.

Lemma split_name_none (seps : list string) (title : string) :
  Forall (fun sep => Str.contains sep title = false) seps ->
  split_name seps title = title.
Proof.
  induction 1 as [|sep seps H _ IH]; [done|]. cbn. by rewrite H.
Qed.

(** X25: the company name of the offline profile. A title that holds none of
    the separators is the name as it stands. A page without a title is named
    after the host of the url: the scheme [https://] or [http://], when there
    is one, and the path are dropped. *)
Theorem offline_company_name (url : string) (page : FetchedPage) :
  let title := strip (default "" (fp_title page)) in
  let name := op_company_name (extract_profile url page) in
  (title <> "" ->
   Forall (fun sep => Str.contains sep title = false) name_seps ->
   name = title) /\
  (title = "" ->
   forall scheme host rest,
     url = scheme +:+ host +:+ rest ->
     scheme ∈ ["https://"; "http://"; ""] ->
     Str.contains "/" host = false -> Str.contains ":" host = false ->
     path_like rest ->
     name = host).
Proof.
  cbv zeta. unfold extract_profile. cbn [op_company_name].
  rewrite str_or_empty. split.
  - intros Hne Hs. rewrite (split_name_none _ _ Hs).
    by destruct (strip _).
  - intros -> scheme host rest -> Hs H1 H2 Hr. cbn [split_name name_seps].
    change (split_name name_seps "") with "".
    by apply url_host.
Qed.

(** The theorem at a page without a title and a url with a path. *)
Lemma offline_company_name_witness :
  op_company_name
    (extract_profile "https://www.acme.com/about/team"
       (mkFetchedPage "https://www.acme.com/about/team" 200 None "Acme"))
  = "www.acme.com".
Proof.
  destruct (offline_company_name "https://www.acme.com/about/team"
    (mkFetchedPage "https://www.acme.com/about/team" 200 None "Acme"))
    as [_ H].
  apply (H eq_refl "https://" "www.acme.com" "/about/team");
    [reflexivity | | reflexivity | reflexivity | right; by eexists].
  apply (bool_decide_unpack _). by vm_compute.
Defined.

(** * The deal-type bullet of the dashboard *)

Lemma synonyms_buyout :
  synonyms !! "buyout"
  = Some (list_to_set ["buyout"; "lbo"; "control"; "majority"]).
Proof. reflexivity. Qed.

Lemma overlap_Exists (keys l : list string) :
  (list_to_set keys : gset string) ∩ list_to_set l ≠ ∅
  <-> Exists (fun x => x ∈ keys) l.
Proof.
  rewrite Exists_exists. split.
  - intros H. apply set_choose_L in H as [x Hx].
    apply elem_of_intersection in Hx as [H1 H2].
    apply elem_of_list_to_set in H1, H2. by exists x.
  - intros (x & H1 & H2) E.
    assert (x ∈ (∅ : gset string)) as H; [|by apply elem_of_empty in H].
    rewrite <- E. apply elem_of_intersection.
    split; by apply elem_of_list_to_set.
Qed.

Lemma deal_bullet_scored (p : CompanyProfile) (f : Fund) :
  let s := deal (snd (score_with_breakdown (env_of (criteria_of p)) f)) in
  let disp := str_or (Str.join ", " (f_deal_types f)) "—" in
  let listed := bool_decide ("buyout" ∈ Str.lower <$> f_deal_types f) in
  let adjacent :=
    bool_decide
      (Exists (fun x => Str.lower (strip x)
                        ∈ ["buyout"; "lbo"; "control"; "majority"])
         (f_deal_types f)) in
  deal_bullet s
  = Some (if listed then
            "Deal type: MATCH — requested 'buyout' supported (fund: "
            +:+ disp +:+ ")"
          else if adjacent then
            "Deal type: NEAR MATCH — requested 'buyout"
            +:+ "' not listed; adjacent options present (fund: "
            +:+ disp +:+ ")"
          else
            "Deal type: MISMATCH — requested 'buyout"
            +:+ "' not in fund mandate (fund: " +:+ disp +:+ ")") /\
  deal_misaligned s = negb listed.
Proof.
  cbv zeta. rewrite subscores_eq. cbn [deal].
  unfold deal_factor. cbn [env_of criteria_of c_deal_type deal_].
  change (Str.lower (default "" (Some "Buyout"))) with "buyout".
  rewrite bool_decide_eq_true_2 by done. cbn [fst].
  unfold deal_bullet, deal_misaligned.
  cbn [applied company_deal_type_of fund_deal_types_of raw_of andb].
  unfold _deal_match_nuance. cbv zeta.
  change (Str.lower (strip (str_or (default "" (Some "buyout")) "")))
    with "buyout".
  rewrite synonyms_buyout. cbn [default str_true negb]. unfold id.
  assert (bool_decide
            ((list_to_set ["buyout"; "lbo"; "control"; "majority"]
                : gset string)
             ∩ list_to_set
                 ((fun x => Str.lower (strip x)) <$> f_deal_types f) ≠ ∅)
          = bool_decide
              (Exists (fun x => Str.lower (strip x)
                                ∈ ["buyout"; "lbo"; "control"; "majority"])
                 (f_deal_types f))) as ->.
  { apply bool_decide_ext. etransitivity; [apply overlap_Exists|].
    apply Exists_fmap. }
  destruct (bool_decide ("buyout" ∈ Str.lower <$> f_deal_types f)).
  - split; reflexivity.
  - split; [|reflexivity]. cbn [Qof_bool Qle_bool negb].
    change (Qle_bool 0 0) with true. cbn [negb].
    by destruct (bool_decide (Exists _ _)).
Qed.

(** X26: the deal-type bullet that the dashboard shows for a fund of the
    ranking, and so for every entry of a shortlist, whatever the profile. It
    is never "not specified": the requested type is always buyout. It reads
    MATCH exactly when the fund's deal types hold "buyout", letter case
    apart, which is when the deal factor scored 1; otherwise NEAR MATCH when
    one of the fund's deal types is buyout, lbo, control or majority once
    stripped and lowered (so a "Buyout" written with a space around it
    scores 0 and reads NEAR MATCH); otherwise MISMATCH. The conclusion
    reports a deal-type misalignment exactly when the bullet is not
    MATCH. *)
Theorem deal_bullet_of_ranked (p : CompanyProfile) (funds : list Fund)
    (top_k : Z) :
  let shown (f : Fund) (s : Subscore) :=
    let disp := str_or (Str.join ", " (f_deal_types f)) "—" in
    let listed := bool_decide ("buyout" ∈ Str.lower <$> f_deal_types f) in
    let adjacent :=
      bool_decide
        (Exists (fun x => Str.lower (strip x)
                          ∈ ["buyout"; "lbo"; "control"; "majority"])
           (f_deal_types f)) in
    deal_bullet s
    = Some (if listed then
              "Deal type: MATCH — requested 'buyout' supported (fund: "
              +:+ disp +:+ ")"
            else if adjacent then
              "Deal type: NEAR MATCH — requested 'buyout"
              +:+ "' not listed; adjacent options present (fund: "
              +:+ disp +:+ ")"
            else
              "Deal type: MISMATCH — requested 'buyout"
              +:+ "' not in fund mandate (fund: " +:+ disp +:+ ")") /\
    deal_misaligned s = negb listed /\
    (raw_of s = Some 1 <-> listed = true) in
  Forall (fun r => shown (match_ r) (deal (subscores r)))
    (query_pe_db (criteria_of p) funds) /\
  Forall (fun x => exists f, f ∈ funds /\ e_fund x = f_name f /\
                     shown f (deal (r_subscores (e_rationale x))))
    (shortlist_pe_funds p funds top_k).
Proof.
  cbv zeta.
  assert (forall f,
    raw_of (deal (snd (score_with_breakdown (env_of (criteria_of p)) f)))
      = Some 1
    <-> bool_decide ("buyout" ∈ Str.lower <$> f_deal_types f) = true) as Hraw.
  { intros f. rewrite subscores_eq. cbn [deal]. unfold deal_factor.
    cbn [env_of criteria_of c_deal_type deal_].
    change (Str.lower (default "" (Some "Buyout"))) with "buyout".
    rewrite bool_decide_eq_true_2 by done. cbn [fst raw_of].
    by destruct (bool_decide _). }
  split.
  - unfold query_pe_db. rewrite sorted_desc_perm.
    apply Forall_fmap, Forall_forall. intros f _. unfold compose.
    cbn [score_fund match_ subscores].
    destruct (deal_bullet_scored p f) as [H1 H2]. by rewrite H1, H2.
  - apply Forall_forall. intros x Hx.
    apply shortlist_entry_origin in Hx as (_ & f & Hf & ->).
    exists f. split; [done|]. split; [done|].
    cbn [entry_of e_rationale r_subscores score_fund subscores].
    destruct (deal_bullet_scored p f) as [H1 H2]. by rewrite H1, H2.
Qed.

(** * Text cleaning and wide whitespace *)

Example clean_text_wide_example :
  _clean_text ("Acme" +:+ utf8 [194; 160]%nat +:+ "Corp") = "Acme Corp".
Proof. reflexivity. Qed.

Lemma wide_spaces_tight :
  Forall (fun w => tight w = true /\ w <> "") wide_spaces.
Proof. repeat constructor; discriminate. Qed.

Lemma no_wide_space_spec (s : string) :
  no_wide_space s = true
  <-> forall w, w ∈ wide_spaces -> Str.contains w s = false.
Proof.
  unfold no_wide_space. rewrite forallb_forall. split.
  - intros H w Hw. apply negb_true_iff, H. by apply list_elem_of_In.
  - intros H w Hw. apply negb_true_iff, H. by apply list_elem_of_In.
Qed.

Lemma wide_prefix_None (s : string) :
  wide_prefix s = None
  <-> forall w, w ∈ wide_spaces -> String.prefix w s = false.
Proof.
  unfold wide_prefix. split.
  - intros H w Hw.
    destruct (List.find _ wide_spaces) eqn:E; [done|].
    apply (List.find_none _ _ E). by apply list_elem_of_In.
  - intros H. destruct (List.find _ wide_spaces) as [w|] eqn:E; [|done].
    apply List.find_some in E as [Hin Hp].
    apply list_elem_of_In in Hin. by rewrite (H w Hin) in Hp.
Qed.

Lemma prefix_tight_space (w : string) (c : ascii) (t : string) :
  tight w = true -> w <> "" -> is_space c = true ->
  String.prefix w (String c t) = false.
Proof.
  destruct w as [|k w]; [done|]. cbn. intros H _ Hc.
  apply andb_true_iff in H as [Hk _]. apply negb_true_iff in Hk.
  destruct (ascii_dec k c) as [->|]; [congruence|done].
Qed.

Lemma prefix_empty (u : string) : String.prefix "" u = true.
Proof. by destruct u. Qed.

(** A text without whitespace that starts the narrowed or the substituted
    text starts the text itself. *)
Lemma narrow_prefix (w u : string) :
  tight w = true ->
  String.prefix w (narrow u) = true -> String.prefix w u = true.
Proof.
  unfold narrow. revert u. induction w as [|k w IH]; intros u Hw;
    [intros _; apply prefix_empty|].
  cbn in Hw. apply andb_true_iff in Hw as [Hk Hw].
  apply negb_true_iff in Hk.
  destruct u as [|d u]; [done|]. cbn [narrow_from].
  destruct (wide_prefix (String d u)) as [n|]; cbn [String.prefix].
  - destruct (ascii_dec k " ") as [->|]; [done|done].
  - destruct (ascii_dec k d) as [->|]; [|done]. by apply IH.
Qed.

Lemma sub_spaces_prefix (w u : string) :
  tight w = true ->
  String.prefix w (sub_spaces false u) = true -> String.prefix w u = true.
Proof.
  revert u. induction w as [|k w IH]; intros u Hw;
    [intros _; apply prefix_empty|].
  cbn in Hw. apply andb_true_iff in Hw as [Hk Hw].
  apply negb_true_iff in Hk.
  destruct u as [|d u]; [done|]. cbn [sub_spaces].
  destruct (is_space d) eqn:Ed; cbn [String.prefix].
  - destruct (ascii_dec k " ") as [->|]; [done|done].
  - destruct (ascii_dec k d) as [->|]; [|done]. by apply IH.
Qed.

Lemma narrow_no_wide (w : string) (k : nat) (s : string) :
  w ∈ wide_spaces -> Str.contains w (narrow_from k s) = false.
Proof.
  intros Hw.
  destruct (proj1 (Forall_forall _ _) wide_spaces_tight w Hw) as [Ht Hne].
  revert k. induction s as [|c r IH]; intros k.
  - cbn. by destruct w.
  - cbn [narrow_from]. destruct k as [|k]; [|apply IH].
    destruct (wide_prefix (String c r)) as [n|] eqn:E.
    + rewrite contains_eq, IH, orb_false_r.
      by apply prefix_tight_space.
    + rewrite contains_eq, IH, orb_false_r.
      destruct (String.prefix w _) eqn:Ep; [|done].
      assert (String.prefix w (narrow (String c r)) = true) as Hp.
      { unfold narrow. cbn [narrow_from]. by rewrite E. }
      apply narrow_prefix in Hp; [|done].
      by rewrite (proj1 (wide_prefix_None _) E w Hw) in Hp.
Qed.

Lemma narrow_fixed (s : string) : no_wide_space s = true -> narrow s = s.
Proof.
  rewrite no_wide_space_spec. unfold narrow.
  induction s as [|c r IH]; intros H; [done|]. cbn [narrow_from].
  assert (wide_prefix (String c r) = None) as ->.
  { apply wide_prefix_None. intros w Hw. specialize (H w Hw).
    rewrite contains_eq in H. by apply orb_false_iff in H as [? _]. }
  rewrite IH; [done|]. intros w Hw. specialize (H w Hw).
  rewrite contains_eq in H. by apply orb_false_iff in H as [_ ?].
Qed.

Lemma sub_spaces_contains (w : string) (b : bool) (s : string) :
  tight w = true -> w <> "" ->
  Str.contains w (sub_spaces b s) = true -> Str.contains w s = true.
Proof.
  intros Ht Hne. revert b. induction s as [|c r IH]; intros b; [done|].
  cbn [sub_spaces]. rewrite (contains_eq w (String c r)).
  destruct (is_space c) eqn:Ec.
  - destruct b.
    + intros H. rewrite (IH _ H). apply orb_true_r.
    + rewrite contains_eq, prefix_tight_space by done.
      intros H. rewrite (IH _ H). apply orb_true_r.
  - rewrite contains_eq. intros H. apply orb_true_iff in H as [H|H].
    + assert (String.prefix w (sub_spaces false (String c r)) = true) as Hp.
      { cbn [sub_spaces]. by rewrite Ec. }
      by rewrite (sub_spaces_prefix _ _ Ht Hp).
    + rewrite (IH _ H). apply orb_true_r.
Qed.

Lemma lstrip_contains (w s : string) :
  Str.contains w (lstrip s) = true -> Str.contains w s = true.
Proof.
  induction s as [|c r IH]; [done|]. cbn [lstrip].
  destruct (is_space c); [|done]. intros H.
  rewrite contains_eq, (IH H). apply orb_true_r.
Qed.

Lemma rstrip_prefix (s : string) : exists t, s = rstrip s +:+ t.
Proof.
  induction s as [|c r [t IH]]; [by exists ""|]. cbn [rstrip].
  destruct (rstrip r) as [|d r'].
  - destruct (is_space c); [by exists (String c r)|by exists r].
  - exists t. by rewrite append_cons, <- IH.
Qed.

Lemma rstrip_contains (w s : string) :
  Str.contains w (rstrip s) = true -> Str.contains w s = true.
Proof.
  intros H. apply contains_elim in H as (a & b & E).
  destruct (rstrip_prefix s) as [t ->]. rewrite E, !append_assoc.
  apply contains_intro.
Qed.

(** What [_clean_text] returns holds no wide whitespace character. *)
Lemma clean_text_no_wide (s : string) : no_wide_space (_clean_text s) = true.
Proof.
  apply no_wide_space_spec. intros w Hw.
  destruct (proj1 (Forall_forall _ _) wide_spaces_tight w Hw) as [Ht Hne].
  destruct (Str.contains w (_clean_text s)) eqn:E; [|done].
  unfold _clean_text, strip in E.
  apply rstrip_contains, lstrip_contains, sub_spaces_contains in E;
    [|done..].
  unfold narrow in E. by rewrite narrow_no_wide in E.
Qed.

Lemma clean_text_fixed (t : string) :
  normal_form t = true -> _clean_text t = t.
Proof.
  unfold normal_form, clean.
  rewrite !andb_true_iff, !negb_true_iff.
  intros [[[H1 H2] H3] H4]. unfold _clean_text, strip.
  rewrite (narrow_fixed t H4), (sub_spaces_fixed false t H1) by done.
  by rewrite (lstrip_fixed t H2), (rstrip_fixed t H3).
Qed.

(** X17: [_clean_text] returns a text in normal form: its only whitespace
    characters are single spaces standing between two other characters (no
    tab, line feed or non-breaking space, no two spaces in a row, no
    whitespace at either end). The texts in that form are exactly the ones
    returned as they are, so cleaning twice is cleaning once. *)
Theorem clean_text_normal_form (s : string) :
  normal_form (_clean_text s) = true /\
  (normal_form s = true <-> _clean_text s = s) /\
  _clean_text (_clean_text s) = _clean_text s.
Proof.
  assert (normal_form (_clean_text s) = true) as Hn.
  { unfold normal_form. by rewrite clean_text_is_clean, clean_text_no_wide. }
  split; [exact Hn|]. split.
  - split; [apply clean_text_fixed|]. by intros <-.
  - by apply clean_text_fixed.
Qed.

(** X18: [_clean_text] keeps every character that is not whitespace, in
    order, and adds none; the result is empty exactly when the text holds
    nothing but whitespace. *)
Theorem clean_text_keeps_characters (s : string) :
  visible (_clean_text s) = visible s /\
  (_clean_text s = "" <-> visible s = "").
Proof.
  assert (visible (_clean_text s) = visible s) as Hns.
  { unfold visible at 1. rewrite narrow_fixed by apply clean_text_no_wide.
    unfold _clean_text, strip, visible.
    by rewrite non_space_rstrip, non_space_lstrip, non_space_sub_spaces. }
  split; [done|]. rewrite <- Hns. split; [by intros ->|].
  unfold visible. rewrite narrow_fixed by apply clean_text_no_wide.
  pose proof (clean_text_is_clean s) as Hc.
  destruct (_clean_text s) as [|c r]; [done|].
  unfold clean in Hc. cbn in *. destruct (is_space c); [|done].
  rewrite andb_false_r in Hc. done.
Qed.
